(** * tiny-sconf: a JSON configuration store, verified against its description

    A shallow embedding of [src/lib/draft.ts] (the [Preset] helper followed by
    the [ConfigWrapper] class and the [Config] factory), [src/lib/schema.ts],
    [src/lib/events.ts] and [src/lib/options.ts].

    Modelling decisions, once and for all:

    - Configuration values are JSON trees ([json]).  For such values
      [JSON.parse (JSON.stringify v)] is [v], so the text of a file is
      represented by what [JSON.parse] makes of it: a syntax error
      ([Invalid]) or a value ([Valid v]).
    - A JavaScript object ([obj]) is a prototype and a list of own
      enumerable properties in the order the engine enumerates them: array
      indices first and ascending, then the other keys as they were
      created.  Reading a property ([obj_get]) looks at the own properties
      and then along the prototype chain, so it finds the members of
      [Object.prototype]; assigning one ([obj_set]) changes or creates an
      own property, except that assigning to [__proto__] goes to the
      accessor of [Object.prototype] and changes the prototype.  Two
      objects are compared by their own properties, not by the order of
      their keys ([obj_equiv]).
    - Objects that the class holds by reference (the cache, the object handed
      to [overwrite], the object returned by [read]) live in a heap of
      objects and are passed around as references, so that
      [conf[key] = value] in [alter] really mutates the cache.  The values
      of their properties are held by value.
    - Node's [fs] is an interface ([FileSystem]); the class is embedded over
      any implementation of it.  Every call of [fs] and every call of
      [EventEmitter.emit] is appended to a log, oldest first.  Listeners are
      client code; none is attached here.
    - An exception leaves the state as it was when it was raised.
    - [m_writeFile] calls itself; [stack] bounds the nesting and running out
      of it raises [RangeError], as the engine does. *)

From Stdlib Require Import List String Ascii Bool ZArith NArith Arith Lia Sorted.
From Stdlib Require DecimalString.
Import ListNotations.
Local Open Scope string_scope.
Local Open Scope list_scope.

Set Implicit Arguments.
#[local] Set Warnings "-register-all".

(** ** JSON values and JavaScript objects *)

Inductive json : Type :=
| JNull
| JBool (b : bool)
| JNum (n : Z)
| JStr (s : string)
| JArr (items : list json)
| JObj (members : list (string * json)).

(** What reading a property gives: [undefined], a JSON value, or something
    that is not data, a member of a built-in prototype or such a prototype
    itself, known by its name. *)
Inductive jsval : Type :=
| Undefined
| Data (v : json)
| Builtin (name : string).

(** *** Property keys and their order

    An engine lists the own properties of an object with the array indices
    first, in ascending order, then the other keys in the order they were
    created. *)

Definition digit (c : ascii) : option N :=
  let n := N_of_ascii c in
  if ((48 <=? n) && (n <=? 57))%N then Some (n - 48)%N else None.

Fixpoint decimal (s : string) (acc : N) : option N :=
  match s with
  | EmptyString => Some acc
  | String c rest =>
      match digit c with
      | Some d => decimal rest (acc * 10 + d)%N
      | None => None
      end
  end.

(** An array index: a canonical numeric string below 2^32 - 1. *)
Definition array_index (k : string) : option N :=
  match k with
  | EmptyString => None
  | String c rest =>
      if Ascii.eqb c "0"%char && negb (String.eqb rest EmptyString) then None
      else match decimal k 0 with
           | Some n => if (n <? 4294967295)%N then Some n else None
           | None => None
           end
  end.

(** A new key [k] is listed before the existing key [k']. *)
Definition goes_before (k k' : string) : bool :=
  match array_index k, array_index k' with
  | Some i, Some j => (i <? j)%N
  | Some _, None => true
  | None, _ => false
  end.

(** *** Own properties: an association list in the order of enumeration *)

Section Properties.
Variable A : Type.

Fixpoint props_get (ps : list (string * A)) (k : string) : option A :=
  match ps with
  | [] => None
  | (k', v) :: rest => if String.eqb k k' then Some v else props_get rest k
  end.

Definition props_has (ps : list (string * A)) (k : string) : bool :=
  match props_get ps k with Some _ => true | None => false end.

(** The property exists: its value changes, its place does not. *)
Fixpoint props_replace (ps : list (string * A)) (k : string) (v : A) : list (string * A) :=
  match ps with
  | [] => []
  | (k', v') :: rest =>
      if String.eqb k k' then (k', v) :: rest else (k', v') :: props_replace rest k v
  end.

(** The property is new: it goes before the first key it is listed
    before, and last when there is none. *)
Fixpoint props_insert (ps : list (string * A)) (k : string) (v : A) : list (string * A) :=
  match ps with
  | [] => [(k, v)]
  | (k', v') :: rest =>
      if goes_before k k' then (k, v) :: ps else (k', v') :: props_insert rest k v
  end.

(** Defining the own property [k] with the value [v]. *)
Definition props_set (ps : list (string * A)) (k : string) (v : A) : list (string * A) :=
  if props_has ps k then props_replace ps k v else props_insert ps k v.

(** The own properties that defining these members one after the other
    leaves, as [JSON.parse] does with the members of an object in a text:
    a key given twice keeps its first place and its last value. *)
Definition props_of_members (l : list (string * A)) : list (string * A) :=
  fold_left (fun acc kv => props_set acc (fst kv) (snd kv)) l [].

End Properties.

(** Every key is where a property created last of all would have gone:
    no key is listed before one that precedes it. *)
Definition enumerated (ks : list string) : Prop :=
  StronglySorted (fun a b => goes_before b a = false) ks.

(** A property list as an object holds it: no key twice, keys in the
    order of enumeration. *)
Definition canonical {A : Type} (ps : list (string * A)) : Prop :=
  NoDup (map fst ps) /\ enumerated (map fst ps).

(** The last binding of [k] in a property list: the one a sequence of
    assignments leaves in place. *)
Definition last_binding (ps : list (string * json)) (k : string) : option json :=
  props_get (rev ps) k.

(** *** Objects and their prototype *)

(** What an object inherits from: [Object.prototype], as every object
    made by a literal or by [JSON.parse] does; nothing; or an object or an
    array that was assigned to its [__proto__], which itself inherits from
    [Object.prototype] or [Array.prototype]. *)
Inductive prototype : Type :=
| ObjectPrototype
| NullPrototype
| ObjectValue (members : list (string * json))
| ArrayValue (items : list json).

(** An object: its prototype and its own enumerable properties. *)
Record obj : Type := { proto : prototype; props : list (string * json) }.

Coercion props : obj >-> list.

(** The object a literal or [JSON.parse] makes of these properties. *)
Definition plain (ps : list (string * json)) : obj :=
  {| proto := ObjectPrototype; props := ps |}.

Definition Object_keys (o : obj) : list string := map fst (props o).

Definition Object_entries (o : obj) : list (string * json) := props o.

(** [Object.prototype.hasOwnProperty]. *)
Definition has_key (o : obj) (k : string) : bool := props_has (props o) k.

(** The value of the own property [k], if there is one. *)
Definition own_property (o : obj) (k : string) : option json := props_get (props o) k.

(** The own property names of [Object.prototype]. *)
Definition Object_prototype_names : list string :=
  [ "constructor"; "__defineGetter__"; "__defineSetter__"; "hasOwnProperty";
    "__lookupGetter__"; "__lookupSetter__"; "isPrototypeOf";
    "propertyIsEnumerable"; "toString"; "valueOf"; "__proto__"; "toLocaleString" ].

(** The own property names of [Array.prototype] (ECMAScript 2023), [length]
    apart, which every array has of its own. *)
Definition Array_prototype_names : list string :=
  [ "constructor"; "at"; "concat"; "copyWithin"; "fill"; "find"; "findIndex";
    "findLast"; "findLastIndex"; "lastIndexOf"; "pop"; "push"; "reverse";
    "shift"; "unshift"; "slice"; "sort"; "splice"; "includes"; "indexOf";
    "join"; "keys"; "entries"; "values"; "forEach"; "filter"; "flat";
    "flatMap"; "map"; "every"; "some"; "reduce"; "reduceRight";
    "toLocaleString"; "toString"; "toReversed"; "toSorted"; "toSpliced"; "with" ].

Definition mem_string (k : string) (l : list string) : bool := existsb (String.eqb k) l.

(** The accessor [__proto__] of [Object.prototype] is what a lookup of
    that key finds past the own properties: [Object.prototype] is on the
    chain and nothing before it has a property of that name. *)
Definition reaches_accessor (p : prototype) : bool :=
  match p with
  | ObjectPrototype | ArrayValue _ => true
  | NullPrototype => false
  | ObjectValue members => negb (props_has members "__proto__")
  end.

(** What the getter of [__proto__] returns: the prototype. *)
Definition prototype_value (p : prototype) : jsval :=
  match p with
  | ObjectPrototype => Builtin "Object.prototype"
  | NullPrototype => Data JNull
  | ObjectValue members => Data (JObj members)
  | ArrayValue items => Data (JArr items)
  end.

(** A lookup that has reached [Object.prototype], for an object whose
    prototype is [p]. *)
Definition from_Object_prototype (p : prototype) (k : string) : jsval :=
  if String.eqb k "__proto__" then prototype_value p
  else if mem_string k Object_prototype_names then Builtin ("Object.prototype." ++ k)
  else Undefined.

(** The own properties of an array: its elements and its length. *)
Definition array_own (items : list json) (k : string) : option json :=
  if String.eqb k "length" then Some (JNum (Z.of_nat (List.length items)))
  else match array_index k with
       | Some i => nth_error items (N.to_nat i)
       | None => None
       end.

(** A lookup past the own properties, along the prototype chain. *)
Definition inherited (p : prototype) (k : string) : jsval :=
  match p with
  | NullPrototype => Undefined
  | ObjectPrototype => from_Object_prototype p k
  | ObjectValue members =>
      match last_binding members k with
      | Some v => Data v
      | None => from_Object_prototype p k
      end
  | ArrayValue items =>
      match array_own items k with
      | Some v => Data v
      | None =>
          if mem_string k Array_prototype_names then Builtin ("Array.prototype." ++ k)
          else from_Object_prototype p k
      end
  end.

(** [o[k]]. *)
Definition obj_get (o : obj) (k : string) : jsval :=
  match own_property o k with
  | Some v => Data v
  | None => inherited (proto o) k
  end.

(** What the setter of [__proto__] does with the value it is given: an
    object, an array or [null] becomes the prototype, anything else is
    ignored. *)
Definition set_prototype (o : obj) (v : json) : obj :=
  match v with
  | JObj members => {| proto := ObjectValue members; props := props o |}
  | JArr items => {| proto := ArrayValue items; props := props o |}
  | JNull => {| proto := NullPrototype; props := props o |}
  | JBool _ | JNum _ | JStr _ => o
  end.

(** The assignment [o[k] = v] defines or changes an own property: all but
    the assignment to [__proto__] that reaches the accessor. *)
Definition defines (o : obj) (k : string) : bool :=
  has_key o k || negb (String.eqb k "__proto__" && reaches_accessor (proto o)).

(** [o[k] = v]. *)
Definition obj_set (o : obj) (k : string) (v : json) : obj :=
  if defines o k
  then {| proto := proto o; props := props_set (props o) k v |}
  else set_prototype o v.

Definition index_key (i : nat) : string :=
  DecimalString.NilEmpty.string_of_uint (Nat.to_uint i).

Fixpoint indexed (i : nat) (xs : list json) : list (string * json) :=
  match xs with
  | [] => []
  | x :: rest => (index_key i, x) :: indexed (S i) rest
  end.

Fixpoint chars (s : string) : list json :=
  match s with
  | EmptyString => []
  | String c rest => JStr (String c EmptyString) :: chars rest
  end.

(** The own enumerable properties [Object.assign] copies from a source,
    in the order of enumeration: members of an object (a key the text has
    twice is one property), elements of an array, characters of a string
    (one per character of the [string]), nothing for [null], booleans and
    numbers. *)
Definition own_enumerable (source : json) : list (string * json) :=
  match source with
  | JObj members => props_of_members members
  | JArr items => indexed 0 items
  | JStr s => indexed 0 (chars s)
  | JNull | JBool _ | JNum _ => []
  end.

(** [Object.assign(target, source)]: one assignment per property, in order. *)
Definition Object_assign (target : obj) (source : list (string * json)) : obj :=
  fold_left (fun acc kv => obj_set acc (fst kv) (snd kv)) source target.

(** Deep equality of two objects whose nested values are compared
    structurally: the same own properties with the same values, in any
    order. *)
Definition obj_equiv (a b : obj) : Prop :=
  forall k, own_property a k = own_property b k.

(** ** Text of a file, as [JSON.parse] sees it *)

Inductive text : Type :=
| Invalid
| Valid (v : json).

Definition JSON_parse (t : text) : option json :=
  match t with
  | Invalid => None
  | Valid v => Some v
  end.

Definition JSON_stringify (v : json) : text := Valid v.

(** ** String helpers: [String.prototype.endsWith] and [path.dirname] *)

Definition endsWith (s suffix : string) : bool :=
  let n := String.length s in
  let m := String.length suffix in
  (m <=? n)%nat && String.eqb (substring (n - m) m s) suffix.

Definition slash : ascii := "/"%char.

Fixpoint drop_while (p : ascii -> bool) (l : list ascii) : list ascii :=
  match l with
  | [] => []
  | c :: rest => if p c then drop_while p rest else l
  end.

(** POSIX [path.dirname]: scan from the end down to index 1, skip trailing
    slashes, then the last segment; what is left ends at the slash found. *)
Definition dirname (p : string) : string :=
  match list_ascii_of_string p with
  | [] => "."
  | first :: rest =>
      let hasRoot := Ascii.eqb first slash in
      let scanned :=
        drop_while (fun c => negb (Ascii.eqb c slash))
          (drop_while (fun c => Ascii.eqb c slash) (rev rest)) in
      match scanned with
      | [] => if hasRoot then "/" else "."
      | _ :: _ =>
          let e := List.length scanned in
          if hasRoot && (e =? 1)%nat then "//" else substring 0 e p
      end
  end.

(** ** [schema.ts] and the [Preset] helper of [draft.ts] *)

Module Draft.

(** [Value<T, M>]: a preset together with the metadata fields. *)
Record Value : Type := { preset : json; meta : obj }.

(** [Draft<T, M>]: the own properties of the draft, one [Value] per key,
    in the order the client defined them. *)
Definition t : Type := list (string * Value).

(** [Preset(data, meta?)]. *)
Definition Preset (data : json) (m : option obj) : Value :=
  {| preset := data; meta := match m with Some x => x | None => plain [] end |}.

(** [Object.entries(draft)]: the properties of the object the draft is,
    in the order of enumeration. *)
Definition entries (d : t) : list (string * Value) := props_of_members d.

(** [Object.keys(draft)]. *)
Definition keys (d : t) : list string := map fst (entries d).

End Draft.

Module Schema.

(** [m_flatten]: [Object.entries(draft).reduce(acc[key] = value.preset, {})]. *)
Definition m_flatten (draft : Draft.t) : obj :=
  fold_left (fun acc kv => obj_set acc (fst kv) (Draft.preset (snd kv)))
            (Draft.entries draft) (plain []).

Record t : Type := { m_draft : Draft.t }.

Definition new (draft : Draft.t) : t := {| m_draft := draft |}.

(** The field [flattened] is assigned once, by the constructor, and is
    [readonly]: it is what [m_flatten] returned. *)
Definition flattened (s : t) : obj := m_flatten (m_draft s).

(** [Object.keys(this.m_draft).includes(key)]. *)
Definition has (s : t) (key : string) : bool :=
  existsb (String.eqb key) (Draft.keys (m_draft s)).

(** [this.flattened[key]]. *)
Definition get (s : t) (key : string) : jsval :=
  obj_get (flattened s) key.

Fixpoint draft_get (d : Draft.t) (key : string) : option Draft.Value :=
  match d with
  | [] => None
  | (k, v) :: rest => if String.eqb key k then Some v else draft_get rest key
  end.

(** [const { preset, ...meta } = this.m_draft[key]; return meta]: a new
    object with the own properties of the value but [preset].  A key the
    draft inherits from [Object.prototype] gives an empty object; any other
    key the draft does not have is [undefined], which cannot be taken
    apart. *)
Definition meta (s : t) (key : string) : option obj :=
  match draft_get (Draft.entries (m_draft s)) key with
  | Some v =>
      Some (plain (filter (fun kv => negb (String.eqb (fst kv) "preset"))
                          (props (Draft.meta v))))
  | None => if mem_string key Object_prototype_names then Some (plain []) else None
  end.

End Schema.

(** ** [options.ts] *)

Module Options.

(** [IConfig]: [path] is required, the rest optional.  An optional
    property is absent ([None]) or present; the class only ever tests a
    present one for truth, so [Some b] stands for a present property whose
    value is true ([b = true]) or is not, [false] or an explicit
    [undefined] ([b = false]). *)
Record IConfig : Type := {
  path : string;
  useCache : option bool;
  allowCreate : option bool;
  exposedEvents : option bool
}.

(** [Required<IConfig>], each option by its truth. *)
Record Resolved : Type := {
  r_path : string;
  r_useCache : bool;
  r_allowCreate : bool;
  r_exposedEvents : bool
}.

Definition Default_useCache : bool := false.
Definition Default_allowCreate : bool := true.
Definition Default_exposedEvents : bool := false.

Definition or_default (given : option bool) (d : bool) : bool :=
  match given with Some b => b | None => d end.

(** [Object.assign({}, Options.Default, opts)]: a property of [opts] that
    is present replaces the default, whatever its value. *)
Definition resolve (opts : IConfig) : Resolved :=
  {| r_path := path opts;
     r_useCache := or_default (useCache opts) Default_useCache;
     r_allowCreate := or_default (allowCreate opts) Default_allowCreate;
     r_exposedEvents := or_default (exposedEvents opts) Default_exposedEvents |}.

End Options.

(** ** [events.ts] *)

Module Alteration.

(** [value] is whatever the property held: [trigger] reads it from the
    configuration, where the key may be absent or inherited. *)
Record t : Type := { key : string; value : jsval }.

Definition new (k : string) (v : jsval) : t := {| key := k; value := v |}.

Definition is_key (a : t) (query : string) : bool := String.eqb (key a) query.

End Alteration.

(** ** Node's [fs], exceptions and the log of effects *)

Inductive errno : Type := ENOENT | EACCES | EISDIR | EEXIST | ENOTDIR | ENOSPC.

Definition errno_eqb (a b : errno) : bool :=
  match a, b with
  | ENOENT, ENOENT | EACCES, EACCES | EISDIR, EISDIR
  | EEXIST, EEXIST | ENOTDIR, ENOTDIR | ENOSPC, ENOSPC => true
  | _, _ => false
  end.

(** The four calls the class makes.  [mkdirSync] is the recursive one.  A
    call that fails leaves the file system as it was. *)
Class FileSystem (W : Type) : Type := {
  existsSync : string -> W -> bool;
  mkdirSync : string -> W -> errno + W;
  readFileSync : string -> W -> errno + text;
  writeFileSync : string -> text -> W -> errno + W
}.

Inductive exn : Type :=
| ExpectedJsonExtension      (* Error: tiny::sconf | Expected .json file extension. *)
| ResourceDoesNotExist       (* Error: tiny::sconf | Resource file does not exist. *)
| SystemError (code : errno) (* what fs throws; [err.code] is [code] *)
| TypeError                  (* property access on null *)
| RangeError.                (* maximum call stack size exceeded *)

Inductive payload : Type :=
| Batch (alterations : list Alteration.t)
| Single (value : jsval).

Inductive effect : Type :=
| ExistsSync (p : string) (r : bool)
| MkdirSync (p : string) (r : option errno)
| ReadFileSync (p : string) (r : errno + text)
| WriteFileSync (p : string) (t : text) (r : option errno)
| Emit (eventName : string) (arg : payload).

(** A reference to a heap object, or [null]. *)
Definition ref : Type := option nat.

(** ** State and the monad of the embedding *)

Record State (W : Type) : Type := mkState {
  heap : list obj;      (* objects allocated so far; a reference is an index *)
  m_cache : ref;        (* the private field of the class *)
  world : W;            (* the file system *)
  log : list effect     (* oldest first *)
}.

Arguments mkState {W} _ _ _ _.

Definition M (W A : Type) : Type := State W -> (exn + A) * State W.

Definition ret {W A} (a : A) : M W A := fun s => (inr a, s).

Definition throw {W A} (e : exn) : M W A := fun s => (inl e, s).

Definition bind {W A B} (m : M W A) (f : A -> M W B) : M W B :=
  fun s =>
    match m s with
    | (inr a, s') => f a s'
    | (inl e, s') => (inl e, s')
    end.

Declare Scope js_scope.
Delimit Scope js_scope with js.
Notation "x <- c ;; k" := (bind c (fun x => k))
  (at level 61, c at next level, right associativity) : js_scope.
Notation "c ;; k" := (bind c (fun _ => k))
  (at level 61, right associativity) : js_scope.
Local Open Scope js_scope.

Fixpoint forEach {W A} (l : list A) (f : A -> M W unit) : M W unit :=
  match l with
  | [] => ret tt
  | x :: rest => f x ;; forEach rest f
  end.

Fixpoint mapM {W A B} (l : list A) (f : A -> M W B) : M W (list B) :=
  match l with
  | [] => ret []
  | x :: rest => y <- f x ;; ys <- mapM rest f ;; ret (y :: ys)
  end.

Fixpoint list_update {A} (l : list A) (i : nat) (x : A) : list A :=
  match l, i with
  | [], _ => []
  | _ :: rest, 0 => x :: rest
  | y :: rest, S j => y :: list_update rest j x
  end.

Section Primitives.
Context {W : Type} {FS : FileSystem W}.

Definition append (e : effect) (s : State W) : State W :=
  mkState (heap s) (m_cache s) (world s) (log s ++ [e]).

(** A new object; its reference is the next free index. *)
Definition alloc (o : obj) : M W ref :=
  fun s => (inr (Some (List.length (heap s))),
            mkState (heap s ++ [o]) (m_cache s) (world s) (log s)).

Definition lookup_ref (h : list obj) (r : ref) : option obj :=
  match r with
  | None => None
  | Some l => nth_error h l
  end.

Definition deref (r : ref) : M W obj :=
  fun s =>
    match lookup_ref (heap s) r with
    | Some o => (inr o, s)
    | None => (inl TypeError, s)
    end.

Definition store (r : ref) (o : obj) : M W unit :=
  fun s =>
    match r with
    | Some l => (inr tt, mkState (list_update (heap s) l o) (m_cache s) (world s) (log s))
    | None => (inl TypeError, s)
    end.

(** [r[k]]. *)
Definition get_prop (r : ref) (k : string) : M W jsval :=
  o <- deref r ;; ret (obj_get o k).

(** [r[k] = v]. *)
Definition set_prop (r : ref) (k : string) (v : json) : M W unit :=
  o <- deref r ;; store r (obj_set o k v).

(** [Object.assign(r, source)]. *)
Definition assign_into (r : ref) (source : json) : M W unit :=
  o <- deref r ;; store r (Object_assign o (own_enumerable source)).

(** [JSON.stringify(r)]. *)
Definition stringify (r : ref) : M W text :=
  match r with
  | None => ret (JSON_stringify JNull)
  | Some _ => o <- deref r ;; ret (JSON_stringify (JObj o))
  end.

Definition read_cache : M W ref := fun s => (inr (m_cache s), s).

Definition write_cache (r : ref) : M W unit :=
  fun s => (inr tt, mkState (heap s) r (world s) (log s)).

Definition fs_existsSync (p : string) : M W bool :=
  fun s => let r := existsSync p (world s) in (inr r, append (ExistsSync p r) s).

(** Raises on failure, as nothing in the class catches it. *)
Definition fs_mkdirSync (p : string) : M W unit :=
  fun s =>
    match mkdirSync p (world s) with
    | inr w' => (inr tt, mkState (heap s) (m_cache s) w' (log s ++ [MkdirSync p None]))
    | inl code => (inl (SystemError code), append (MkdirSync p (Some code)) s)
    end.

(** The outcome is returned to the [try] around the call. *)
Definition fs_readFileSync (p : string) : M W (errno + text) :=
  fun s => let r := readFileSync p (world s) in (inr r, append (ReadFileSync p r) s).

Definition fs_writeFileSync (p : string) (t : text) : M W (option errno) :=
  fun s =>
    match writeFileSync p t (world s) with
    | inr w' => (inr None, mkState (heap s) (m_cache s) w' (log s ++ [WriteFileSync p t None]))
    | inl code => (inr (Some code), append (WriteFileSync p t (Some code)) s)
    end.

(** [this.m_emitter.emit(eventName, arg)].  The emitter is private and
    starts without listeners; [on], [once] and [ignore], which hand it the
    client's functions, are not embedded, so no listener runs here and the
    call returns. *)
Definition emit (eventName : string) (arg : payload) : M W unit :=
  fun s => (inr tt, append (Emit eventName arg) s).

End Primitives.

(** ** The [ConfigWrapper] class of [draft.ts] *)

Module ConfigWrapper.

(** The two fields that never change after construction.  The third field,
    [m_cache], is in the state; the emitter is the log. *)
Record t : Type := { m_schema : Schema.t; m_options : Options.Resolved }.

(** What [read] hands back: the whole configuration, by reference, or the
    value of one property. *)
Inductive result : Type :=
| Whole (conf : ref)
| Property (v : jsval).

Section Methods.
Context {W : Type} {FS : FileSystem W}.

(** Nested activations of [m_writeFile] the call stack has room for. *)
Variable stack : nat.

Variable self : t.

(** [get path()]. *)
Definition path : string := Options.r_path (m_options self).

(** [Object.assign({}, this.m_schema.flattened)]. *)
Definition copy_of_flattened : obj :=
  Object_assign (plain []) (Schema.flattened (m_schema self)).

Definition m_readFile : M W ref :=
  flattened <- alloc copy_of_flattened ;;
  r <- fs_readFileSync path ;;
  match r with
  | inr t =>
      match JSON_parse t with
      | Some parsed => assign_into flattened parsed ;; ret flattened
      | None => ret flattened
      end
  | inl _ => ret flattened
  end.

(** [get m_current()]. *)
Definition m_current : M W ref :=
  if Options.r_useCache (m_options self) then read_cache else m_readFile.

Definition m_prepareCache : M W unit :=
  if Options.r_useCache (m_options self)
  then (r <- m_readFile ;; write_cache r)
  else ret tt.

Definition m_prepareResource : M W unit :=
  present <- fs_existsSync path ;;
  if present then ret tt
  else if negb (Options.r_allowCreate (m_options self)) then throw ResourceDoesNotExist
  else fs_mkdirSync (dirname path).

Fixpoint m_writeFile_at (depth : nat) (next : ref) : M W unit :=
  match depth with
  | 0 => throw RangeError
  | S d =>
      t <- stringify next ;;
      r <- fs_writeFileSync path t ;;
      match r with
      | None => ret tt
      | Some code =>
          if negb (errno_eqb code ENOENT) then throw (SystemError code)
          else (m_prepareResource ;; m_writeFile_at d next)
      end
  end.

Definition m_writeFile (next : ref) : M W unit := m_writeFile_at stack next.

Definition per_key (alter : Alteration.t) : M W unit :=
  emit ("change:" ++ Alteration.key alter) (Single (Alteration.value alter)).

Definition m_emitAlterations (alterations : list Alteration.t) : M W unit :=
  emit "change" (Batch alterations) ;;
  if negb (Options.r_exposedEvents (m_options self)) then ret tt
  else forEach alterations per_key.

Definition read (key : option string) : M W result :=
  conf <- m_current ;;
  match key with
  | None => ret (Whole conf)
  | Some k => v <- get_prop conf k ;; ret (Property v)
  end.

Definition alter (key : string) (value : json) : M W unit :=
  conf <- m_current ;;
  set_prop conf key value ;;
  m_writeFile conf ;;
  m_emitAlterations [Alteration.new key (Data value)].

Definition entry_alteration (kv : string * json) : Alteration.t :=
  Alteration.new (fst kv) (Data (snd kv)).

Definition overwrite (next : ref) : M W unit :=
  (if Options.r_useCache (m_options self) then write_cache next else ret tt) ;;
  m_writeFile next ;;
  o <- deref next ;;
  m_emitAlterations (map entry_alteration (Object_entries o)).

Definition reset : M W unit :=
  next <- alloc copy_of_flattened ;;
  overwrite next.

Definition trigger (keys : list string) : M W unit :=
  conf <- m_current ;;
  alterations <- mapM keys (fun key => v <- get_prop conf key ;; ret (Alteration.new key v)) ;;
  m_emitAlterations alterations.

End Methods.

(** The fields the constructor assigns: the schema of the draft, and the
    options over the defaults. *)
Definition fields (draft : Draft.t) (opts : Options.IConfig) : t :=
  {| m_schema := Schema.new draft; m_options := Options.resolve opts |}.

Section Constructor.
Context {W : Type} {FS : FileSystem W}.

(** [constructor(draft, opts)]; the field initialiser sets [m_cache] to
    [null] first. *)
Definition new (draft : Draft.t) (opts : Options.IConfig) : M W t :=
  write_cache None ;;
  let self := fields draft opts in
  if negb (endsWith (path self) ".json") then throw ExpectedJsonExtension
  else (m_prepareResource self ;; m_prepareCache self ;; ret self).

End Constructor.

End ConfigWrapper.

Module Config.

(** [Config.from(draft, opts)]. *)
Definition from {W : Type} {FS : FileSystem W}
  (draft : Draft.t) (opts : Options.IConfig) : M W ConfigWrapper.t :=
  ConfigWrapper.new draft opts.

End Config.

(** ** The [Preset] helper of [draft.ts], on objects

    A draft value is itself an object: the metadata with a property
    [preset].  [Draft.Value] above is that object taken apart; here it is
    whole. *)

Module PresetObject.

(** [_Preset_impl(data, meta)]: [Object.assign(meta ?? {}, { preset: data })]. *)
Definition _Preset_impl (data : json) (meta : option obj) : obj :=
  Object_assign (match meta with Some m => m | None => plain [] end) [("preset", data)].

(** [value.preset], as [m_flatten] reads it. *)
Definition preset (value : obj) : jsval := obj_get value "preset".

(** [const { preset, ...meta } = value], as [Schema.meta] returns it: a new
    object with the own properties of [value] but [preset]. *)
Definition meta (value : obj) : obj :=
  plain (filter (fun kv => negb (String.eqb (fst kv) "preset")) (props value)).

(** The object taken apart; nothing when its preset is not data. *)
Definition to_Value (value : obj) : option Draft.Value :=
  match preset value with
  | Data data => Some {| Draft.preset := data; Draft.meta := meta value |}
  | Undefined | Builtin _ => None
  end.

End PresetObject.

(** ** The earlier [ConfigWrapper] of [src/unnamed/part_000]

    The class before it learnt to prepare its resource, to retry a write
    and to expose per-key events: the cache is always prepared and always
    what [alter] and [overwrite] work on; [useCache] only decides what
    [read] answers from. *)

Module Earlier.

Section Methods.
Context {W : Type} {FS : FileSystem W}.
Variable self : ConfigWrapper.t.

Definition path : string := Options.r_path (ConfigWrapper.m_options self).

Definition m_readFile : M W ref :=
  flattened <- alloc (Object_assign (plain []) (Schema.flattened (ConfigWrapper.m_schema self))) ;;
  r <- fs_readFileSync path ;;
  match r with
  | inr t =>
      match JSON_parse t with
      | Some parsed => assign_into flattened parsed ;; ret flattened
      | None => ret flattened
      end
  | inl _ => ret flattened
  end.

Definition m_prepareCache : M W unit :=
  r <- m_readFile ;; write_cache r.

(** No [try]: whatever [fs.writeFileSync] throws is thrown. *)
Definition m_writeFile (next : ref) : M W unit :=
  t <- stringify next ;;
  r <- fs_writeFileSync path t ;;
  match r with
  | None => ret tt
  | Some code => throw (SystemError code)
  end.

Definition read (key : option string) : M W ConfigWrapper.result :=
  conf <- (if Options.r_useCache (ConfigWrapper.m_options self)
           then read_cache else m_readFile) ;;
  match key with
  | None => ret (ConfigWrapper.Whole conf)
  | Some k => v <- get_prop conf k ;; ret (ConfigWrapper.Property v)
  end.

Definition alter (key : string) (value : json) : M W unit :=
  cache <- read_cache ;;
  set_prop cache key value ;;
  cache' <- read_cache ;;
  m_writeFile cache' ;;
  emit "change" (Batch [Alteration.new key (Data value)]).

Definition overwrite (next : ref) : M W unit :=
  write_cache next ;;
  m_writeFile next ;;
  o <- deref next ;;
  emit "change" (Batch (map ConfigWrapper.entry_alteration (Object_entries o))).

End Methods.

Section Constructor.
Context {W : Type} {FS : FileSystem W}.

(** No check of the extension and no look at the resource.  The options
    of that time ([src/unnamed/part_002]) have no [exposedEvents]; the field
    is resolved here as well and never read. *)
Definition new (draft : Draft.t) (opts : Options.IConfig) : M W ConfigWrapper.t :=
  write_cache None ;;
  let self := ConfigWrapper.fields draft opts in
  m_prepareCache self ;; ret self.

End Constructor.

End Earlier.

(** ** An in-memory file system

    One implementation of [FileSystem], to run the class on.  A path is a
    regular file, a directory, or nothing; the process may lack permission
    on some paths; some paths are symbolic links whose target lies in a
    directory that does not exist. *)

Module MemFs.

Record t : Type := {
  files : list (string * text);
  dirs : list string;
  denied : list string;
  dangling : list string
}.

Definition mem (p : string) (l : list string) : bool := existsb (String.eqb p) l.

Fixpoint file_get (fs : list (string * text)) (p : string) : option text :=
  match fs with
  | [] => None
  | (q, t) :: rest => if String.eqb p q then Some t else file_get rest p
  end.

Fixpoint file_set (fs : list (string * text)) (p : string) (t : text) : list (string * text) :=
  match fs with
  | [] => [(p, t)]
  | (q, t') :: rest =>
      if String.eqb p q then (q, t) :: rest else (q, t') :: file_set rest p t
  end.

Definition is_dir (w : t) (d : string) : bool :=
  String.eqb d "." || String.eqb d "/" || mem d (dirs w).

Definition is_file (w : t) (p : string) : bool :=
  match file_get (files w) p with Some _ => true | None => false end.

(** Follows links, so a dangling link does not exist. *)
Definition exists_ (p : string) (w : t) : bool :=
  negb (mem p (dangling w)) && (is_file w p || is_dir w p).

Definition mkdir (d : string) (w : t) : errno + t :=
  if is_file w d then inl EEXIST
  else if is_dir w d then inr w
  else if mem d (denied w) then inl EACCES
  else inr {| files := files w; dirs := d :: dirs w;
              denied := denied w; dangling := dangling w |}.

Definition read (p : string) (w : t) : errno + text :=
  if mem p (dangling w) then inl ENOENT
  else if is_dir w p then inl EISDIR
  else match file_get (files w) p with
       | None => inl ENOENT
       | Some t => if mem p (denied w) then inl EACCES else inr t
       end.

Definition write (p : string) (content : text) (w : t) : errno + t :=
  if mem p (dangling w) then inl ENOENT
  else if is_dir w p then inl EISDIR
  else if negb (is_dir w (dirname p)) then inl ENOENT
  else if mem p (denied w) then inl EACCES
  else inr {| files := file_set (files w) p content; dirs := dirs w;
              denied := denied w; dangling := dangling w |}.

#[global] Instance fs : FileSystem t := {
  existsSync := exists_;
  mkdirSync := mkdir;
  readFileSync := read;
  writeFileSync := write
}.

(** [fs.rmSync(d, { recursive: true, force: true })] for the directory of
    one file: the directory and that file are gone. *)
Definition rm_dir (d p : string) (w : t) : t :=
  {| files := filter (fun f => negb (String.eqb (fst f) p)) (files w);
     dirs := filter (fun x => negb (String.eqb x d)) (dirs w);
     denied := denied w; dangling := dangling w |}.

Definition empty : t := {| files := []; dirs := []; denied := []; dangling := [] |}.

End MemFs.

(** ** The configuration of [tests/index.spec.ts] *)

Module Fixture.

Definition filePath : string := ".cache/test.json".

Definition draft : Draft.t :=
  [ ("animal", Draft.Preset (JStr "unicorn") None);
    ("fruit", Draft.Preset (JStr "apple") None);
    ("person", Draft.Preset (JObj [("name", JStr "John"); ("age", JNum 21)]) None);
    ("list", Draft.Preset (JArr [JNum 1; JNum 2; JNum 3; JNum 4; JNum 5]) None) ].

Definition presets : obj :=
  plain
    [ ("animal", JStr "unicorn");
      ("fruit", JStr "apple");
      ("person", JObj [("name", JStr "John"); ("age", JNum 21)]);
      ("list", JArr [JNum 1; JNum 2; JNum 3; JNum 4; JNum 5]) ].

Definition opts (useCache allowCreate exposedEvents : option bool) : Options.IConfig :=
  {| Options.path := filePath;
     Options.useCache := useCache;
     Options.allowCreate := allowCreate;
     Options.exposedEvents := exposedEvents |}.

(** Nothing allocated, nothing logged; the file system is [w]. *)
Definition boot (w : MemFs.t) : State MemFs.t := mkState [] None w [].

(** The directory exists and the file holds [t]. *)
Definition disk_with (t : text) : MemFs.t :=
  {| MemFs.files := [(filePath, t)]; MemFs.dirs := [".cache"];
     MemFs.denied := []; MemFs.dangling := [] |}.

(** The draft of the tests with one more key, [__proto__], written as a
    computed key so that it is a property of the draft. *)
Definition draft_with_proto : Draft.t :=
  draft ++ [("__proto__", Draft.Preset (JStr "none") None)].

(** The file is there, holding the presets, and may be neither read nor
    written. *)
Definition disk_denied : MemFs.t :=
  {| MemFs.files := [(filePath, Valid (JObj presets))]; MemFs.dirs := [".cache"];
     MemFs.denied := [filePath]; MemFs.dangling := [] |}.

(** The text [{"__proto__": {"colour": "red"}, "fruit": "pear"}]. *)
Definition with_proto_key : text :=
  Valid (JObj [("__proto__", JObj [("colour", JStr "red")]); ("fruit", JStr "pear")]).

(** The path is a symbolic link into a directory that does not exist. *)
Definition disk_dangling : MemFs.t :=
  {| MemFs.files := []; MemFs.dirs := [".cache"];
     MemFs.denied := []; MemFs.dangling := [filePath] |}.

(** The state a run ends in, and its outcome. *)
Definition after {A} (m : M MemFs.t A) (s : State MemFs.t) : State MemFs.t := snd (m s).

Definition outcome {A} (m : M MemFs.t A) (s : State MemFs.t) : exn + A := fst (m s).

(** [fs.rmSync(cachePath, { recursive: true, force: true })], done by the
    tests behind the back of the store. *)
Definition rmSync : M MemFs.t unit :=
  fun s => (inr tt, mkState (heap s) (m_cache s)
                      (MemFs.rm_dir ".cache" filePath (world s)) (log s)).

(** The store of the tests. *)
Definition conf : ConfigWrapper.t := ConfigWrapper.fields draft (opts None None (Some true)).

(** The tests up to their first reads: construction, a reset, the removal of
    the directory. *)
Definition initialised : State MemFs.t :=
  after (Config.from draft (opts None None (Some true)) ;;
         ConfigWrapper.reset 8 conf ;;
         rmSync)
        (boot MemFs.empty).

End Fixture.

(** ** Clients, and the states a store can be in *)

Module Client.

(** One call of the public interface. *)
Inductive call : Type :=
| Read (key : option string)
| Alter (key : string) (value : json)
| Overwrite (next : ref)
| Reset
| Trigger (keys : list string).

Section Run.
Context {W : Type} {FS : FileSystem W}.
Variable stack : nat.
Variable self : ConfigWrapper.t.

Definition invoke (c : call) : M W unit :=
  match c with
  | Read key => ConfigWrapper.read self key ;; ret tt
  | Alter key value => ConfigWrapper.alter stack self key value
  | Overwrite next => ConfigWrapper.overwrite stack self next
  | Reset => ConfigWrapper.reset stack self
  | Trigger keys => ConfigWrapper.trigger self keys
  end.

(** A client hands [overwrite] an object, not [null]. *)
Definition well_formed_call (s : State W) (c : call) : Prop :=
  match c with
  | Overwrite next => lookup_ref (heap s) next <> None
  | _ => True
  end.

(** What the client is assumed to do, beyond being well formed. *)
Variable admits : State W -> call -> Prop.

(** The states of a store after its construction: any sequence of admitted
    calls, returning or raising, interleaved with the client building
    objects of its own and with anything else happening to the file
    system. *)
Inductive reachable_if : State W -> Prop :=
| reach_new (draft : Draft.t) (opts : Options.IConfig) (s0 s1 : State W) :
    Config.from draft opts s0 = (inr self, s1) -> reachable_if s1
| reach_call (c : call) (s s' : State W) (r : exn + unit) :
    reachable_if s -> well_formed_call s c -> admits s c ->
    invoke c s = (r, s') -> reachable_if s'
| reach_alloc (o : obj) (s : State W) :
    reachable_if s ->
    reachable_if (mkState (heap s ++ [o]) (m_cache s) (world s) (log s))
| reach_world (w : W) (s : State W) :
    reachable_if s ->
    reachable_if (mkState (heap s) (m_cache s) w (log s)).

End Run.

(** Any client at all. *)
Definition reachable {W : Type} {FS : FileSystem W}
  (stack : nat) (self : ConfigWrapper.t) : State W -> Prop :=
  reachable_if stack self (fun _ _ => True).

End Client.

(** ** Vocabulary for the statements *)

Definition is_emit (e : effect) : bool :=
  match e with Emit _ _ => true | _ => false end.

Definition is_read (e : effect) : bool :=
  match e with ReadFileSync _ _ => true | _ => false end.

(** An attempt to write, successful or not. *)
Definition is_write (e : effect) : bool :=
  match e with WriteFileSync _ _ _ => true | _ => false end.

(** A call that changed the file system. *)
Definition changes_disk (e : effect) : bool :=
  match e with
  | WriteFileSync _ _ None | MkdirSync _ None => true
  | _ => false
  end.

Definition is_batch_event (e : effect) : bool :=
  match e with Emit name _ => String.eqb name "change" | _ => false end.

Definition count {A} (p : A -> bool) (l : list A) : nat := List.length (filter p l).

Definition is_successful_write (e : effect) : bool :=
  match e with WriteFileSync _ _ None => true | _ => false end.

(** Neither an event nor a read of the file. *)
Definition is_quiet (e : effect) : bool := negb (is_emit e) && negb (is_read e).

(** [JSON.stringify] of what a reference points to. *)
Definition text_of (h : list obj) (next : ref) : option text :=
  match next with
  | None => Some (JSON_stringify JNull)
  | Some l => option_map (fun o : obj => JSON_stringify (JObj o)) (nth_error h l)
  end.

(** The calls [m_writeFile] makes for a file at [p] and a text [t]: writing
    [t] to [p], testing [p], creating the directory of [p]. *)
Definition writer_effect (p : string) (t : text) (e : effect) : Prop :=
  match e with
  | WriteFileSync p' t' _ => p' = p /\ t' = t
  | ExistsSync p' _ => p' = p
  | MkdirSync d _ => d = dirname p
  | ReadFileSync _ _ | Emit _ _ => False
  end.

(** What a commit of the batch [B] puts on the log. *)
Definition announce (exposedEvents : bool) (B : list Alteration.t) : list effect :=
  Emit "change" (Batch B) ::
  (if exposedEvents
   then map (fun a => Emit ("change:" ++ Alteration.key a) (Single (Alteration.value a))) B
   else []).

(** The outcome [r] of [m_writeFile] for the text [t], with the calls [dl]
    it made and the file system [w'] it left: on return the last call wrote
    [t] and is the only write that succeeded; on an exception none did. *)
Definition written {W : Type} {FS : FileSystem W}
  (p : string) (t : text) (r : exn + unit) (dl : list effect) (w' : W) : Prop :=
  Forall (writer_effect p t) dl /\
  match r with
  | inr _ =>
      exists pre w,
        dl = pre ++ [WriteFileSync p t None] /\
        writeFileSync p t w = inr w' /\
        Forall (fun e => is_successful_write e = false) pre
  | inl _ => Forall (fun e => is_successful_write e = false) dl
  end.

(** What a run appended to the log. *)
Definition delta {W : Type} (s s' : State W) : list effect :=
  skipn (List.length (log s)) (log s').

(** The calls [dl] begin with the attempt to write [t] to [p] on the file
    system [w], with the outcome that file system gives it, and when that
    is a success there is no other call. *)
Definition first_attempt {W : Type} {FS : FileSystem W}
  (p : string) (t : text) (w : W) (dl : list effect) : Prop :=
  exists rest,
    dl = WriteFileSync p t (match writeFileSync p t w with
                            | inr _ => None
                            | inl code => Some code
                            end) :: rest /\
    ((exists w', writeFileSync p t w = inr w') -> rest = []).

(** A mutation mirrored to the file: from [s] to [s'] with the outcome
    [r], the call has made the calls of [m_writeFile] for the text [t],
    the first of them the attempt to write it, followed on return, and
    only then, by [events]; and it returns when that attempt succeeds. *)
Definition mirrored {W : Type} {FS : FileSystem W}
  (stack : nat) (p : string) (t : text) (events : list effect)
  (s s' : State W) (r : exn + unit) : Prop :=
  exists dl,
    delta s s' = dl ++ match r with inr _ => events | inl _ => [] end /\
    written p t r dl (world s') /\
    (1 <= stack ->
     first_attempt p t (world s) dl /\
     ((exists w', writeFileSync p t (world s) = inr w') -> r = inr tt)).

Section Vocabulary.
Context {W : Type} {FS : FileSystem W}.
Variable self : ConfigWrapper.t.

(** What the file holds for the class: its parsed content assigned over a
    copy of the flattened presets, or that copy alone when the file cannot
    be read or parsed. *)
Definition on_disk (w : W) : obj :=
  match readFileSync (ConfigWrapper.path self) w with
  | inr (Valid parsed) =>
      Object_assign (ConfigWrapper.copy_of_flattened self) (own_enumerable parsed)
  | inr Invalid | inl _ => ConfigWrapper.copy_of_flattened self
  end.

(** The authoritative configuration: the cache, or the file over defaults. *)
Definition current (s : State W) : option obj :=
  if Options.r_useCache (ConfigWrapper.m_options self)
  then lookup_ref (heap s) (m_cache s)
  else Some (on_disk (world s)).

(** The batch of alterations a call commits, if it commits one. *)
Definition batch (s : State W) (c : Client.call) : option (list Alteration.t) :=
  match c with
  | Client.Read _ => None
  | Client.Alter key value => Some [Alteration.new key (Data value)]
  | Client.Overwrite next =>
      option_map (fun X : obj => map ConfigWrapper.entry_alteration X)
                 (lookup_ref (heap s) next)
  | Client.Reset =>
      Some (map ConfigWrapper.entry_alteration (ConfigWrapper.copy_of_flattened self))
  | Client.Trigger keys =>
      option_map (fun o => map (fun key => Alteration.new key (obj_get o key)) keys)
                 (current s)
  end.

(** The reference [m_current] yields, and the state it leaves: the cache
    and nothing else, or a new object read from the file. *)
Definition fetched (s : State W) : ref * State W :=
  if Options.r_useCache (ConfigWrapper.m_options self) then (m_cache s, s)
  else (Some (List.length (heap s)),
        mkState (heap s ++ [on_disk (world s)]) (m_cache s) (world s)
                (log s ++ [ReadFileSync (ConfigWrapper.path self)
                             (readFileSync (ConfigWrapper.path self) (world s))])).

(** In the words of the specification (C4): when the first attempt to write
    fails because the path is missing, the write is attempted exactly once
    more, and the writer returns or rethrows the error of that attempt. *)
Definition retries_exactly_once (stack : nat) (next : ref) (s : State W) : Prop :=
  forall t,
    text_of (heap s) next = Some t ->
    writeFileSync (ConfigWrapper.path self) t (world s) = inl ENOENT ->
    let run := ConfigWrapper.m_writeFile stack self next s in
    count is_write (delta s (snd run)) = 2 /\
    (fst run = inr tt \/ exists code, fst run = inl (SystemError code)).

(** The invariant of a store with a cache: the cache is an object. *)
Definition cache_ready (s : State W) : Prop :=
  Options.r_useCache (ConfigWrapper.m_options self) = true ->
  exists c o, m_cache s = Some c /\ nth_error (heap s) c = Some o.

(** The object has every key of the schema: every key of its flattened
    presets. *)
Definition covers_schema (o : obj) : Prop :=
  forall k, In k (Object_keys (Schema.flattened (ConfigWrapper.m_schema self))) ->
            In k (Object_keys o).

(** A client that only hands [overwrite] objects with every key of the
    schema. *)
Definition overwrites_cover (s : State W) (c : Client.call) : Prop :=
  match c with
  | Client.Overwrite next =>
      exists X, lookup_ref (heap s) next = Some X /\ covers_schema X
  | _ => True
  end.

(** In the words of the specification (C7): every configuration object
    returned by [read()] contains every key of the schema. *)
Definition read_has_every_schema_key (stack : nat) : Prop :=
  forall (s s' : State W) (conf : ref),
    Client.reachable stack self s ->
    ConfigWrapper.read self None s = (inr (ConfigWrapper.Whole conf), s') ->
    exists o, lookup_ref (heap s') conf = Some o /\ covers_schema o.

(** In the words of the specification (C10): every text a successful
    [alter] writes is a snapshot with every key of the schema. *)
Definition alter_writes_every_schema_key (stack : nat) : Prop :=
  forall (s s' : State W) (k : string) (v : json) (t : text),
    Client.reachable stack self s ->
    ConfigWrapper.alter stack self k v s = (inr tt, s') ->
    In (WriteFileSync (ConfigWrapper.path self) t None) (delta s s') ->
    exists o : obj, t = JSON_stringify (JObj o) /\ covers_schema o.

End Vocabulary.

(** ** Assumptions on the file system, named *)

Section Laws.
Context {W : Type} {FS : FileSystem W}.

(** A file that has just been written reads back as written. *)
Definition reads_back (p : string) : Prop :=
  forall (t : text) (w w' : W), writeFileSync p t w = inr w' -> readFileSync p w' = inr t.

(** A file that has just been written exists. *)
Definition exists_once_written (p : string) : Prop :=
  forall (t : text) (w w' : W), writeFileSync p t w = inr w' -> existsSync p w' = true.

End Laws.

(** A call that changes the configuration. *)
Definition is_mutation (c : Client.call) : bool :=
  match c with
  | Client.Alter _ _ | Client.Overwrite _ | Client.Reset => true
  | Client.Read _ | Client.Trigger _ => false
  end.

(** The name of an event of the store: "change", or "change:" and a key. *)
Definition event_name_ok (exposedEvents : bool) (name : string) : Prop :=
  name = "change" \/ (exposedEvents = true /\ exists k : string, name = ("change:" ++ k)%string).

(** * Facts *)

Unset Implicit Arguments.

(** ** Property lists *)

Section PropertyFacts.
Context {A : Type}.
Implicit Types (ps : list (string * A)) (k : string) (v : A).

Lemma props_get_None ps k : props_get ps k = None <-> ~ In k (map fst ps).
Proof.
  induction ps as [|[q x] rest IH]; simpl.
  - tauto.
  - destruct (String.eqb_spec k q) as [->|Hkq].
    + split; [discriminate | intros H; exfalso; apply H; now left].
    + rewrite IH. split; intros H; [intros [E|E]; [congruence | tauto] | tauto].
Qed.

Lemma props_get_Some_In ps k v : props_get ps k = Some v -> In (k, v) ps.
Proof.
  induction ps as [|[q x] rest IH]; simpl; [discriminate|].
  destruct (String.eqb_spec k q) as [->|Hkq].
  - intros [= ->]. now left.
  - intros H. right. auto.
Qed.

Lemma props_has_In ps k : props_has ps k = true <-> In k (map fst ps).
Proof.
  unfold props_has. destruct (props_get ps k) eqn:E.
  - split; [intros _ | reflexivity].
    apply props_get_Some_In in E. apply (in_map fst) in E. exact E.
  - apply props_get_None in E. split; [discriminate | tauto].
Qed.

Lemma In_props_get ps k v :
  NoDup (map fst ps) -> In (k, v) ps -> props_get ps k = Some v.
Proof.
  induction ps as [|[q x] rest IH]; simpl; [tauto|].
  intros Hnd [E|Hin].
  - injection E as -> ->. now rewrite String.eqb_refl.
  - inversion Hnd as [|? ? Hq Hrest]; subst.
    destruct (String.eqb_spec k q) as [->|Hkq].
    + exfalso. apply Hq. apply (in_map fst) in Hin. exact Hin.
    + auto.
Qed.

Lemma keys_props_replace ps k v : map fst (props_replace ps k v) = map fst ps.
Proof.
  induction ps as [|[q x] rest IH]; simpl; [reflexivity|].
  destruct (String.eqb k q); simpl; [reflexivity | now rewrite IH].
Qed.

Lemma props_get_replace ps k k' v :
  props_get (props_replace ps k v) k' =
  if String.eqb k' k && props_has ps k then Some v else props_get ps k'.
Proof.
  unfold props_has. induction ps as [|[q x] rest IH]; simpl.
  - now rewrite andb_false_r.
  - destruct (String.eqb_spec k q) as [->|Hkq]; simpl.
    + destruct (String.eqb_spec k' q); reflexivity.
    + rewrite IH. destruct (String.eqb_spec k' q) as [->|]; [|reflexivity].
      destruct (String.eqb_spec q k); [congruence | reflexivity].
Qed.

(** Where the new property goes: somewhere in the list, which is
    otherwise unchanged. *)
Lemma props_insert_split ps k v :
  exists l1 l2, ps = l1 ++ l2 /\ props_insert ps k v = l1 ++ (k, v) :: l2.
Proof.
  induction ps as [|[q x] rest (l1 & l2 & E1 & E2)]; simpl.
  - exists [], []. split; reflexivity.
  - destruct (goes_before k q).
    + exists [], ((q, x) :: rest). split; reflexivity.
    + exists ((q, x) :: l1), l2. rewrite E2. split; [now rewrite E1 at 1 | reflexivity].
Qed.

Lemma props_get_insert ps k k' v :
  props_has ps k = false ->
  props_get (props_insert ps k v) k' = if String.eqb k' k then Some v else props_get ps k'.
Proof.
  unfold props_has. induction ps as [|[q x] rest IH]; simpl; intros H.
  - reflexivity.
  - destruct (String.eqb_spec k q) as [->|Hkq]; [discriminate|].
    destruct (goes_before k q); simpl.
    + destruct (String.eqb_spec k' k) as [->|]; [reflexivity|]. reflexivity.
    + rewrite (IH H). destruct (String.eqb_spec k' q) as [->|]; [|reflexivity].
      destruct (String.eqb_spec q k); [congruence | reflexivity].
Qed.

Lemma props_get_set ps k k' v :
  props_get (props_set ps k v) k' = if String.eqb k' k then Some v else props_get ps k'.
Proof.
  unfold props_set. destruct (props_has ps k) eqn:E.
  - rewrite props_get_replace, E, andb_true_r. reflexivity.
  - apply props_get_insert, E.
Qed.

Lemma In_keys_props_set ps k k' v :
  In k' (map fst (props_set ps k v)) <-> k' = k \/ In k' (map fst ps).
Proof.
  rewrite <- !props_has_In. unfold props_has. rewrite props_get_set.
  destruct (String.eqb_spec k' k) as [->|Hne].
  - split; [now left | reflexivity].
  - split; [now right | intros [E|H]; [congruence | exact H]].
Qed.

Lemma NoDup_props_set ps k v :
  NoDup (map fst ps) -> NoDup (map fst (props_set ps k v)).
Proof.
  intros H. unfold props_set. destruct (props_has ps k) eqn:E.
  - now rewrite keys_props_replace.
  - destruct (props_insert_split ps k v) as (l1 & l2 & E1 & E2).
    rewrite E2, map_app. simpl.
    apply (proj2 (NoDup_Add (Add_app k (map fst l1) (map fst l2)))).
    rewrite <- map_app, <- E1. split; [exact H|].
    intros Hin. apply props_has_In in Hin. congruence.
Qed.

(** Setting a property to the value it has changes nothing. *)
Lemma props_set_same ps k v : props_get ps k = Some v -> props_set ps k v = ps.
Proof.
  intros H. unfold props_set, props_has. rewrite H. revert H.
  induction ps as [|[q x] rest IH]; simpl; [discriminate|].
  destruct (String.eqb_spec k q) as [->|Hkq].
  - now intros [= ->].
  - intros H. f_equal. auto.
Qed.

(** *** Lists in the order of enumeration *)

Lemma props_insert_last ps k v :
  Forall (fun a => goes_before k a = false) (map fst ps) ->
  props_insert ps k v = ps ++ [(k, v)].
Proof.
  induction ps as [|[q x] rest IH]; simpl; intros H; [reflexivity|].
  inversion H as [|? ? Hq Hrest]; subst. rewrite Hq. f_equal. auto.
Qed.

End PropertyFacts.


Section CanonicalFacts.
Context {A : Type}.
Implicit Types (ps : list (string * A)) (k : string) (v : A).

Lemma enumerated_insert ps k v :
  enumerated (map fst ps) -> enumerated (map fst (props_insert ps k v)).
Proof.
  unfold enumerated. induction ps as [|[q x] rest IH]; simpl; intros H.
  - repeat constructor.
  - inversion H as [|? ? Hrest Hq]; subst.
    destruct (goes_before k q) eqn:E; simpl.
    + constructor; [exact H|]. constructor.
      * apply Bool.not_true_is_false. intros Hqk.
        unfold goes_before in E, Hqk.
        destruct (array_index k) as [i|], (array_index q) as [j|]; try discriminate.
        apply N.ltb_lt in E. apply N.ltb_lt in Hqk. lia.
      * eapply Forall_impl; [|exact Hq]. simpl. intros b Hb.
        apply Bool.not_true_is_false. intros Hbk.
        unfold goes_before in E, Hb, Hbk.
        destruct (array_index k) as [i|], (array_index q) as [j|],
                 (array_index b) as [l|]; try discriminate.
        apply N.ltb_lt in E. apply N.ltb_ge in Hb. apply N.ltb_lt in Hbk. lia.
    + constructor; [apply IH, Hrest|].
      destruct (props_insert_split rest k v) as (l1 & l2 & E1 & E2).
      rewrite E2, map_app. simpl. rewrite E1, map_app in Hq.
      apply Forall_app in Hq. destruct Hq as [H1 H2].
      apply Forall_app. split; [exact H1|]. constructor; [exact E | exact H2].
Qed.

Lemma canonical_props_set ps k v : canonical ps -> canonical (props_set ps k v).
Proof.
  intros [Hnd Hen]. split; [apply NoDup_props_set, Hnd|].
  unfold props_set. destruct (props_has ps k).
  - now rewrite keys_props_replace.
  - apply enumerated_insert, Hen.
Qed.

Lemma canonical_props_of_members (l : list (string * A)) : canonical (props_of_members l).
Proof.
  unfold props_of_members.
  assert (G : forall acc, canonical acc ->
            canonical (fold_left (fun a kv => props_set a (fst kv) (snd kv)) l acc)).
  { induction l as [|[k v] rest IH]; simpl; intros acc H; [exact H|].
    apply IH, canonical_props_set, H. }
  apply G. split; constructor.
Qed.

(** Defining the properties of a list that is in the order of enumeration,
    one after the other, builds that list. *)
Lemma props_set_rebuild (pre rest : list (string * A)) :
  canonical (pre ++ rest) ->
  fold_left (fun a kv => props_set a (fst kv) (snd kv)) rest pre = pre ++ rest.
Proof.
  revert pre. induction rest as [|[k v] rest IH]; simpl; intros pre H.
  - now rewrite app_nil_r.
  - assert (Hset : props_set pre k v = pre ++ [(k, v)]).
    { destruct H as [Hnd Hen]. unfold props_set.
      rewrite map_app in Hnd. simpl in Hnd. apply NoDup_remove_2 in Hnd.
      assert (Hno : props_has pre k = false).
      { apply Bool.not_true_is_false. intros Hh. apply props_has_In in Hh.
        apply Hnd. apply in_or_app. now left. }
      rewrite Hno. apply props_insert_last.
      rewrite map_app in Hen. simpl in Hen. clear -Hen.
      induction (map fst pre) as [|a ks IHks]; simpl in *; [constructor|].
      inversion Hen as [|? ? Hs Hf]; subst. constructor.
      - apply Forall_app in Hf. destruct Hf as [_ Hf]. now inversion Hf.
      - apply IHks, Hs. }
    rewrite Hset. rewrite (IH (pre ++ [(k, v)])); rewrite <- app_assoc; [reflexivity | exact H].
Qed.

Lemma props_of_members_canonical ps : canonical ps -> props_of_members ps = ps.
Proof. intros H. exact (props_set_rebuild [] ps H). Qed.

Lemma In_keys_props_of_members (l : list (string * A)) k :
  In k (map fst (props_of_members l)) <-> In k (map fst l).
Proof.
  unfold props_of_members.
  assert (G : forall acc,
            In k (map fst (fold_left (fun a kv => props_set a (fst kv) (snd kv)) l acc)) <->
            In k (map fst acc) \/ In k (map fst l)).
  { induction l as [|[q x] rest IH]; simpl; intros acc; [tauto|].
    rewrite IH, In_keys_props_set. intuition congruence. }
  rewrite G. simpl. tauto.
Qed.

End CanonicalFacts.

(** ** Objects *)

Section ObjectFacts.

Lemma obj_eta (o : obj) : {| proto := proto o; props := props o |} = o.
Proof. destruct o; reflexivity. Qed.

Lemma has_key_In (o : obj) (k : string) :
  has_key o k = true <-> In k (Object_keys o).
Proof. apply props_has_In. Qed.

Lemma own_property_None (o : obj) (k : string) :
  own_property o k = None <-> ~ In k (Object_keys o).
Proof. apply props_get_None. Qed.

Lemma own_property_has (o : obj) (k : string) (v : json) :
  own_property o k = Some v -> has_key o k = true.
Proof. unfold has_key, props_has, own_property. now intros ->. Qed.

(** A key other than [__proto__] is always defined by an assignment. *)
Lemma defines_ordinary (o : obj) (k : string) : k <> "__proto__" -> defines o k = true.
Proof.
  intros H. unfold defines. destruct (String.eqb_spec k "__proto__"); [congruence|].
  simpl. apply orb_true_r.
Qed.

Lemma defines_own (o : obj) (k : string) : has_key o k = true -> defines o k = true.
Proof. intros H. unfold defines. now rewrite H. Qed.

Lemma own_property_set (o : obj) (k k' : string) (v : json) :
  own_property (obj_set o k v) k' =
  if String.eqb k' k && defines o k then Some v else own_property o k'.
Proof.
  unfold obj_set, own_property. destruct (defines o k) eqn:E; simpl.
  - rewrite props_get_set, andb_true_r. reflexivity.
  - rewrite andb_false_r. destruct v; reflexivity.
Qed.

Lemma own_property_set_ne (o : obj) (k k' : string) (v : json) :
  k' <> k -> own_property (obj_set o k v) k' = own_property o k'.
Proof.
  intros H. rewrite own_property_set.
  destruct (String.eqb_spec k' k); [congruence | reflexivity].
Qed.

Lemma own_property_set_eq (o : obj) (k : string) (v : json) :
  k <> "__proto__" -> own_property (obj_set o k v) k = Some v.
Proof.
  intros H. rewrite own_property_set, String.eqb_refl, defines_ordinary by exact H.
  reflexivity.
Qed.

(** An assignment that defines a property leaves the prototype alone. *)
Lemma proto_obj_set (o : obj) (k : string) (v : json) :
  defines o k = true -> proto (obj_set o k v) = proto o.
Proof. intros H. unfold obj_set. now rewrite H. Qed.

(** Reading after an assignment that defines the key. *)
Lemma obj_get_set (o : obj) (k k' : string) (v : json) :
  defines o k = true ->
  obj_get (obj_set o k v) k' = if String.eqb k' k then Data v else obj_get o k'.
Proof.
  intros H. unfold obj_get. rewrite own_property_set, H, andb_true_r, proto_obj_set by exact H.
  destruct (String.eqb k' k); reflexivity.
Qed.

Lemma obj_get_set_eq (o : obj) (k : string) (v : json) :
  k <> "__proto__" -> obj_get (obj_set o k v) k = Data v.
Proof.
  intros H. rewrite obj_get_set by (apply defines_ordinary, H).
  now rewrite String.eqb_refl.
Qed.

Lemma obj_get_set_ne (o : obj) (k k' : string) (v : json) :
  k <> "__proto__" -> k' <> k -> obj_get (obj_set o k v) k' = obj_get o k'.
Proof.
  intros H H'. rewrite obj_get_set by (apply defines_ordinary, H).
  destruct (String.eqb_spec k' k); [congruence | reflexivity].
Qed.

(** An own property is what a read finds. *)
Lemma obj_get_own (o : obj) (k : string) (v : json) :
  own_property o k = Some v -> obj_get o k = Data v.
Proof. intros H. unfold obj_get. now rewrite H. Qed.

Lemma In_keys_obj_set (o : obj) (k k' : string) (v : json) :
  In k' (Object_keys (obj_set o k v)) <->
  (k' = k /\ defines o k = true) \/ In k' (Object_keys o).
Proof.
  unfold obj_set, Object_keys. destruct (defines o k) eqn:E; simpl.
  - rewrite In_keys_props_set. intuition.
  - replace (props (set_prototype o v)) with (props o) by (destruct v; reflexivity).
    intuition congruence.
Qed.

Lemma keys_obj_set_kept (o : obj) (k k' : string) (v : json) :
  In k' (Object_keys o) -> In k' (Object_keys (obj_set o k v)).
Proof. intros H. apply In_keys_obj_set. now right. Qed.

Lemma NoDup_obj_set (o : obj) (k : string) (v : json) :
  NoDup (Object_keys o) -> NoDup (Object_keys (obj_set o k v)).
Proof.
  intros H. unfold obj_set, Object_keys. destruct (defines o k); simpl.
  - apply NoDup_props_set, H.
  - destruct v; exact H.
Qed.

Lemma canonical_obj_set (o : obj) (k : string) (v : json) :
  canonical (props o) -> canonical (props (obj_set o k v)).
Proof.
  intros H. unfold obj_set. destruct (defines o k); simpl.
  - apply canonical_props_set, H.
  - destruct v; exact H.
Qed.

(** Assigning a property the value it already has changes nothing. *)
Lemma obj_set_same (o : obj) (k : string) (v : json) :
  own_property o k = Some v -> obj_set o k v = o.
Proof.
  intros H. unfold obj_set. rewrite (defines_own o k (own_property_has o k v H)).
  rewrite props_set_same by exact H. apply obj_eta.
Qed.

(** *** [Object.assign] *)

Lemma NoDup_Object_assign (target : obj) (source : list (string * json)) :
  NoDup (Object_keys target) -> NoDup (Object_keys (Object_assign target source)).
Proof.
  unfold Object_assign. revert target.
  induction source as [|[k v] rest IH]; simpl; intros target H; [exact H|].
  apply IH, NoDup_obj_set, H.
Qed.

Lemma props_get_snoc (l : list (string * json)) (a : string * json) (k : string) :
  props_get (l ++ [a]) k =
  match props_get l k with
  | Some v => Some v
  | None => if String.eqb k (fst a) then Some (snd a) else None
  end.
Proof.
  destruct a as [a1 a2]. induction l as [|[b1 b2] l IHl]; simpl; [reflexivity|].
  destruct (String.eqb k b1); [reflexivity | exact IHl].
Qed.

(** What [Object.assign] leaves under a key other than [__proto__]: the
    source's last binding of it, and the target's own value where the
    source has none. *)
Lemma own_property_Object_assign (target : obj) (source : list (string * json)) (k : string) :
  k <> "__proto__" ->
  own_property (Object_assign target source) k =
  match last_binding source k with
  | Some v => Some v
  | None => own_property target k
  end.
Proof.
  intros Hk. unfold Object_assign, last_binding. revert target.
  induction source as [|[q x] rest IH]; simpl; intros target; [reflexivity|].
  rewrite IH. clear IH. rewrite props_get_snoc. simpl.
  destruct (props_get (rev rest) k); [reflexivity|].
  rewrite own_property_set.
  destruct (String.eqb_spec k q) as [<-|]; [|reflexivity].
  now rewrite defines_ordinary.
Qed.

Lemma last_binding_None (source : list (string * json)) (k : string) :
  last_binding source k = None <-> ~ In k (map fst source).
Proof.
  unfold last_binding. rewrite props_get_None.
  rewrite map_rev, <- in_rev. tauto.
Qed.

Lemma last_binding_NoDup (source : list (string * json)) (k : string) :
  NoDup (map fst source) -> last_binding source k = props_get source k.
Proof.
  intros Hnd. unfold last_binding.
  destruct (props_get source k) eqn:E.
  - apply In_props_get.
    + rewrite map_rev. apply NoDup_rev, Hnd.
    + apply in_rev. rewrite rev_involutive. apply props_get_Some_In, E.
  - apply props_get_None. apply props_get_None in E.
    rewrite map_rev, <- in_rev. exact E.
Qed.

(** Members leave under a key the value given for it last. *)
Lemma props_get_props_of_members {A : Type} (l : list (string * A)) (k : string) :
  props_get (props_of_members l) k = props_get (rev l) k.
Proof.
  unfold props_of_members.
  assert (G : forall acc,
            props_get (fold_left (fun a kv => props_set a (fst kv) (snd kv)) l acc) k =
            match props_get (rev l) k with
            | Some v => Some v
            | None => props_get acc k
            end).
  { induction l as [|[q x] rest IH]; simpl; intros acc; [reflexivity|].
    rewrite IH. clear IH.
    assert (Hsnoc : props_get (rev rest ++ [(q, x)]) k =
                    match props_get (rev rest) k with
                    | Some v => Some v
                    | None => if String.eqb k q then Some x else None
                    end).
    { induction (rev rest) as [|[b1 b2] l' IHl]; simpl; [reflexivity|].
      destruct (String.eqb k b1); [reflexivity | exact IHl]. }
    rewrite Hsnoc. destruct (props_get (rev rest) k); [reflexivity|].
    rewrite props_get_set. destruct (String.eqb k q); reflexivity. }
  rewrite G. destruct (props_get (rev l) k); reflexivity.
Qed.

(** The properties of a parsed object: a key holds the value the text
    gives it last. *)
Lemma last_binding_own_enumerable (members : list (string * json)) (k : string) :
  last_binding (own_enumerable (JObj members)) k = last_binding members k.
Proof.
  simpl. rewrite last_binding_NoDup by apply canonical_props_of_members.
  apply props_get_props_of_members.
Qed.

Lemma In_keys_own_enumerable (members : list (string * json)) (k : string) :
  In k (map fst (own_enumerable (JObj members))) <-> In k (map fst members).
Proof. apply In_keys_props_of_members. Qed.

(** A source without the key [__proto__] leaves the prototype, and an own
    property of that name, as they were. *)
Lemma Object_assign_no_proto_key (target : obj) (source : list (string * json)) :
  ~ In "__proto__" (map fst source) ->
  proto (Object_assign target source) = proto target /\
  own_property (Object_assign target source) "__proto__" = own_property target "__proto__".
Proof.
  unfold Object_assign. revert target.
  induction source as [|[q x] rest IH]; simpl; intros target H; [split; reflexivity|].
  destruct (IH (obj_set target q x)) as [Hp Ho]; [tauto|].
  rewrite Hp, Ho. split.
  - apply proto_obj_set, defines_ordinary. intros E. apply H. now left.
  - apply own_property_set_ne. intros E. apply H. now left.
Qed.

Lemma keys_Object_assign_kept (target : obj) (source : list (string * json)) (k : string) :
  In k (Object_keys target) -> In k (Object_keys (Object_assign target source)).
Proof.
  unfold Object_assign. revert target.
  induction source as [|[q x] rest IH]; simpl; intros target H; [exact H|].
  apply IH, keys_obj_set_kept, H.
Qed.

Lemma In_keys_Object_assign (target : obj) (source : list (string * json)) (k : string) :
  In k (Object_keys (Object_assign target source)) ->
  In k (Object_keys target) \/ In k (map fst source).
Proof.
  unfold Object_assign. revert target.
  induction source as [|[q x] rest IH]; simpl; intros target H; [now left|].
  apply IH in H. destruct H as [H|H]; [|tauto].
  apply In_keys_obj_set in H. destruct H as [[-> _]|H]; tauto.
Qed.

Lemma keys_Object_assign_source (target : obj) (source : list (string * json)) (k : string) :
  k <> "__proto__" -> In k (map fst source) -> In k (Object_keys (Object_assign target source)).
Proof.
  intros Hk Hin. apply has_key_In. unfold has_key, props_has.
  fold (own_property (Object_assign target source) k).
  rewrite own_property_Object_assign by exact Hk.
  destruct (last_binding source k) eqn:E; [reflexivity|].
  apply last_binding_None in E. tauto.
Qed.

(** Copying properties that are in the order of enumeration, none of them
    named [__proto__], into an empty object gives them back. *)
Lemma Object_assign_plain (pre ps : list (string * json)) :
  canonical (pre ++ ps) -> ~ In "__proto__" (map fst ps) ->
  Object_assign (plain pre) ps = plain (pre ++ ps).
Proof.
  unfold Object_assign. revert pre.
  induction ps as [|[k v] rest IH]; simpl; intros pre Hc Hk.
  - now rewrite app_nil_r.
  - assert (Hset : obj_set (plain pre) k v = plain (pre ++ [(k, v)])).
    { unfold obj_set. rewrite defines_ordinary by tauto. unfold plain. simpl. f_equal.
      assert (Hc' : canonical (pre ++ [(k, v)])).
      { destruct Hc as [Hnd Hen]. rewrite map_app in Hnd, Hen. simpl in Hnd, Hen.
        split; rewrite map_app; simpl.
        - replace (map fst pre ++ k :: map fst rest)
            with ((map fst pre ++ [k]) ++ map fst rest) in Hnd
            by (rewrite <- app_assoc; reflexivity).
          apply NoDup_app_remove_r in Hnd. exact Hnd.
        - clear -Hen. unfold enumerated in *.
          induction (map fst pre) as [|a ks IHks]; simpl in *.
          + repeat constructor.
          + inversion Hen as [|? ? Hs Hf]; subst. constructor; [apply IHks, Hs|].
            apply Forall_app in Hf. destruct Hf as [Hf1 Hf2].
            apply Forall_app. split; [exact Hf1|]. inversion Hf2; subst. repeat constructor. assumption. }
      exact (props_set_rebuild pre [(k, v)] Hc'). }
    rewrite Hset. rewrite (IH (pre ++ [(k, v)])); rewrite <- ?app_assoc; simpl; tauto.
Qed.

Lemma Object_assign_copy (ps : list (string * json)) :
  canonical ps -> ~ In "__proto__" (map fst ps) -> Object_assign (plain []) ps = plain ps.
Proof. intros H1 H2. exact (Object_assign_plain [] ps H1 H2). Qed.

(** Assigning bindings the target already has changes nothing. *)
Lemma Object_assign_same (target : obj) (source : list (string * json)) :
  (forall k v, In (k, v) source -> own_property target k = Some v) ->
  Object_assign target source = target.
Proof.
  unfold Object_assign.
  induction source as [|[k v] rest IH]; simpl; intros H; [reflexivity|].
  rewrite obj_set_same by (apply H; now left).
  apply IH. intros k' v' Hin. apply H. now right.
Qed.

(** *** The flattened presets *)

Lemma canonical_Draft_entries (draft : Draft.t) : canonical (Draft.entries draft).
Proof. apply canonical_props_of_members. Qed.

Lemma canonical_m_flatten (draft : Draft.t) : canonical (props (Schema.m_flatten draft)).
Proof.
  unfold Schema.m_flatten.
  assert (G : forall (l : list (string * Draft.Value)) (acc : obj),
            canonical (props acc) ->
            canonical (props (fold_left
              (fun a kv => obj_set a (fst kv) (Draft.preset (snd kv))) l acc))).
  { induction l as [|[k v] rest IH]; simpl; intros acc H; [exact H|].
    apply IH, canonical_obj_set, H. }
  apply G. split; constructor.
Qed.

Lemma NoDup_m_flatten (draft : Draft.t) :
  NoDup (Object_keys (Schema.m_flatten draft)).
Proof. apply canonical_m_flatten. Qed.

(** The flattened presets have no property [__proto__] of their own: a
    draft has a key once, and the one assignment to [__proto__] goes to the
    accessor. *)
Lemma m_flatten_no_proto_key (draft : Draft.t) :
  ~ In "__proto__" (Object_keys (Schema.m_flatten draft)).
Proof.
  unfold Schema.m_flatten.
  assert (G : forall (l : list (string * Draft.Value)) (acc : obj),
            NoDup (map fst l) ->
            ~ In "__proto__" (Object_keys acc) ->
            (In "__proto__" (map fst l) -> proto acc = ObjectPrototype) ->
            ~ In "__proto__" (Object_keys (fold_left
                (fun a kv => obj_set a (fst kv) (Draft.preset (snd kv))) l acc))).
  { induction l as [|[k v] rest IH]; simpl; intros acc Hnd Hno Hp; [exact Hno|].
    inversion Hnd as [|? ? Hk Hrest]; subst.
    apply IH; [exact Hrest | |].
    - intros Hin. apply In_keys_obj_set in Hin. destruct Hin as [[E Hd]|Hin]; [|tauto].
      subst k. unfold defines in Hd.
      rewrite (Hp (or_introl eq_refl)) in Hd. simpl in Hd.
      rewrite orb_false_r in Hd. apply has_key_In in Hd. tauto.
    - intros Hin. rewrite proto_obj_set.
      + apply Hp. now right.
      + apply defines_ordinary. intros ->. tauto. }
  apply G.
  - apply canonical_Draft_entries.
  - simpl. tauto.
  - reflexivity.
Qed.

End ObjectFacts.
(** ** The heap *)

Section HeapFacts.

Lemma length_list_update {A} (l : list A) (i : nat) (x : A) :
  List.length (list_update l i x) = List.length l.
Proof.
  revert i. induction l as [|y rest IH]; intros [|j]; simpl; auto.
Qed.

Lemma nth_list_update {A} (l : list A) (i j : nat) (x : A) :
  nth_error (list_update l i x) j =
  if (j =? i)%nat then option_map (fun _ => x) (nth_error l j) else nth_error l j.
Proof.
  revert i j. induction l as [|y rest IH]; intros [|i] [|j]; simpl; auto.
  - destruct (j =? i)%nat; reflexivity.
Qed.

Lemma list_update_last {A} (l : list A) (x y : A) :
  list_update (l ++ [x]) (List.length l) y = l ++ [y].
Proof. induction l as [|z rest IH]; simpl; [reflexivity | now rewrite IH]. Qed.

Lemma nth_error_last {A} (l : list A) (x : A) :
  nth_error (l ++ [x]) (List.length l) = Some x.
Proof. rewrite nth_error_app2, Nat.sub_diag by lia. reflexivity. Qed.

Lemma lookup_ref_app (h h' : list obj) (r : ref) (o : obj) :
  lookup_ref h r = Some o -> lookup_ref (h ++ h') r = Some o.
Proof.
  destruct r as [l|]; simpl; [|discriminate].
  intros H. rewrite nth_error_app1; [exact H|].
  apply nth_error_Some. congruence.
Qed.

End HeapFacts.

(** ** The methods, one equation each *)

Section MethodFacts.
Context {W : Type} {FS : FileSystem W}.
Variable self : ConfigWrapper.t.

#[local] Abbreviation path := (ConfigWrapper.path self).
#[local] Abbreviation exposedEvents := (Options.r_exposedEvents (ConfigWrapper.m_options self)).

(** [m_readFile] never raises: it allocates one object, holding what
    [on_disk] describes, and reads the file once. *)
Lemma m_readFile_run (s : State W) :
  ConfigWrapper.m_readFile self s =
  (inr (Some (List.length (heap s))),
   mkState (heap s ++ [on_disk self (world s)]) (m_cache s) (world s)
           (log s ++ [ReadFileSync path (readFileSync path (world s))])).
Proof.
  unfold ConfigWrapper.m_readFile, on_disk, bind, alloc, fs_readFileSync, append, ret.
  simpl. destruct (readFileSync path (world s)) as [e|[|v]]; simpl; try reflexivity.
  unfold assign_into, bind, deref, store, ret. simpl.
  rewrite nth_error_last. simpl. rewrite list_update_last. reflexivity.
Qed.

Lemma forEach_per_key (B : list Alteration.t) (s : State W) :
  forEach B ConfigWrapper.per_key s =
  (inr tt,
   mkState (heap s) (m_cache s) (world s)
     (log s ++ map (fun a => Emit ("change:" ++ Alteration.key a)
                                  (Single (Alteration.value a))) B)).
Proof.
  revert s. induction B as [|a rest IH]; intros s; simpl.
  - rewrite app_nil_r. destruct s; reflexivity.
  - unfold bind, ConfigWrapper.per_key, emit, append. simpl.
    rewrite IH. simpl. rewrite <- app_assoc. reflexivity.
Qed.

Lemma m_emitAlterations_run (B : list Alteration.t) (s : State W) :
  ConfigWrapper.m_emitAlterations self B s =
  (inr tt,
   mkState (heap s) (m_cache s) (world s)
     (log s ++ Emit "change" (Batch B) ::
        (if exposedEvents
         then map (fun a => Emit ("change:" ++ Alteration.key a)
                                 (Single (Alteration.value a))) B
         else []))).
Proof.
  unfold ConfigWrapper.m_emitAlterations, bind, emit, append. simpl.
  destruct exposedEvents; simpl.
  - rewrite forEach_per_key. simpl. rewrite <- app_assoc. reflexivity.
  - reflexivity.
Qed.

End MethodFacts.

Lemma delta_app {W : Type} (s s' : State W) (d : list effect) :
  log s' = log s ++ d -> delta s s' = d.
Proof.
  unfold delta. intros ->. rewrite skipn_app, skipn_all, Nat.sub_diag. reflexivity.
Qed.

Section WriteFacts.
Context {W : Type} {FS : FileSystem W}.
Variable self : ConfigWrapper.t.

#[local] Abbreviation path := (ConfigWrapper.path self).
#[local] Abbreviation allowCreate := (Options.r_allowCreate (ConfigWrapper.m_options self)).

Lemma m_prepareResource_run (s : State W) :
  ConfigWrapper.m_prepareResource self s =
  if existsSync path (world s) then (inr tt, append (ExistsSync path true) s)
  else if allowCreate then
    match mkdirSync (dirname path) (world s) with
    | inr w' =>
        (inr tt, mkState (heap s) (m_cache s) w'
                   (log s ++ [ExistsSync path false; MkdirSync (dirname path) None]))
    | inl code =>
        (inl (SystemError code),
         mkState (heap s) (m_cache s) (world s)
           (log s ++ [ExistsSync path false; MkdirSync (dirname path) (Some code)]))
    end
  else (inl ResourceDoesNotExist, append (ExistsSync path false) s).
Proof.
  unfold ConfigWrapper.m_prepareResource, bind, fs_existsSync, fs_mkdirSync, append, ret, throw.
  simpl. destruct (existsSync path (world s)); [reflexivity|].
  destruct allowCreate; simpl; [|reflexivity].
  destruct (mkdirSync (dirname path) (world s)); simpl; rewrite <- app_assoc; reflexivity.
Qed.

(** [m_prepareResource] touches neither the heap nor the cache, and logs
    only its own two calls. *)
Lemma m_prepareResource_frame (s s' : State W) (r : exn + unit) :
  ConfigWrapper.m_prepareResource self s = (r, s') ->
  heap s' = heap s /\ m_cache s' = m_cache s /\
  exists d, log s' = log s ++ d /\
            Forall (fun e => is_quiet e = true /\ is_write e = false) d.
Proof.
  rewrite m_prepareResource_run. unfold append.
  destruct (existsSync path (world s)).
  - intros [= <- <-]. simpl. repeat split. eexists. split; [reflexivity|].
    repeat constructor.
  - destruct allowCreate.
    + destruct (mkdirSync (dirname path) (world s)); intros [= <- <-]; simpl;
        repeat split; eexists; (split; [reflexivity|]); repeat constructor.
    + intros [= <- <-]. simpl. repeat split. eexists. split; [reflexivity|].
      repeat constructor.
Qed.

Lemma stringify_run (next : ref) (s : State W) :
  stringify next s =
  match text_of (heap s) next with
  | Some t => (inr t, s)
  | None => (inl TypeError, s)
  end.
Proof.
  destruct next as [l|]; simpl; [|reflexivity].
  unfold bind, deref, ret. simpl. destruct (nth_error (heap s) l); reflexivity.
Qed.

(** One activation of [m_writeFile]. *)
Lemma m_writeFile_at_S (d : nat) (next : ref) (s : State W) (t : text) :
  text_of (heap s) next = Some t ->
  ConfigWrapper.m_writeFile_at self (S d) next s =
  match writeFileSync path t (world s) with
  | inr w' =>
      (inr tt, mkState (heap s) (m_cache s) w' (log s ++ [WriteFileSync path t None]))
  | inl code =>
      if errno_eqb code ENOENT then
        match ConfigWrapper.m_prepareResource self
                (append (WriteFileSync path t (Some code)) s) with
        | (inr _, s1) => ConfigWrapper.m_writeFile_at self d next s1
        | (inl e, s1) => (inl e, s1)
        end
      else (inl (SystemError code), append (WriteFileSync path t (Some code)) s)
  end.
Proof.
  intros Ht. simpl. unfold bind at 1. rewrite stringify_run, Ht.
  unfold bind at 1. unfold fs_writeFileSync.
  destruct (writeFileSync path t (world s)) as [code|w']; [|reflexivity].
  destruct (errno_eqb code ENOENT); simpl; [|reflexivity].
  unfold bind. reflexivity.
Qed.

Lemma m_writeFile_at_null_ref (d : nat) (next : ref) (s : State W) :
  text_of (heap s) next = None ->
  ConfigWrapper.m_writeFile_at self (S d) next s = (inl TypeError, s).
Proof.
  intros Ht. simpl. unfold bind at 1. rewrite stringify_run, Ht. reflexivity.
Qed.

Lemma writer_effect_quiet (p : string) (t : text) (e : effect) :
  writer_effect p t e -> is_emit e = false /\ is_read e = false.
Proof. destruct e; simpl; tauto. Qed.

Lemma m_prepareResource_effects (s s' : State W) (r : exn + unit) (t : text) :
  ConfigWrapper.m_prepareResource self s = (r, s') ->
  exists d, log s' = log s ++ d /\
            Forall (fun e => writer_effect path t e /\ is_write e = false) d.
Proof.
  rewrite m_prepareResource_run. unfold append.
  destruct (existsSync path (world s)).
  - intros [= <- <-]. simpl. eexists. split; [reflexivity|]. repeat constructor.
  - destruct allowCreate.
    + destruct (mkdirSync (dirname path) (world s)); intros [= <- <-]; simpl;
        eexists; (split; [reflexivity|]); repeat constructor.
    + intros [= <- <-]. simpl. eexists. split; [reflexivity|]. repeat constructor.
Qed.

(** Whatever [m_writeFile] does, it leaves the heap and the cache alone, and
    all it does is to write the text of [next], test the path and create the
    directory.  When it returns, the last thing it did was to write that
    text successfully, and no earlier attempt had succeeded; when it raises,
    no attempt has succeeded. *)
Lemma m_writeFile_at_spec (d : nat) (next : ref) (t : text)
      (s s' : State W) (r : exn + unit) :
  text_of (heap s) next = Some t ->
  ConfigWrapper.m_writeFile_at self d next s = (r, s') ->
  heap s' = heap s /\ m_cache s' = m_cache s /\
  exists dl, log s' = log s ++ dl /\
    Forall (writer_effect path t) dl /\
    match r with
    | inr _ =>
        exists pre w,
          dl = pre ++ [WriteFileSync path t None] /\
          writeFileSync path t w = inr (world s') /\
          Forall (fun e => is_successful_write e = false) pre
    | inl _ => Forall (fun e => is_successful_write e = false) dl
    end.
Proof.
  intros Ht. revert s Ht. induction d as [|d IH]; intros s Ht.
  - simpl. intros [= <- <-]. repeat split. exists []. rewrite app_nil_r.
    repeat split; constructor.
  - rewrite (m_writeFile_at_S d next s t Ht).
    destruct (writeFileSync path t (world s)) as [code|w'] eqn:Hw.
    2:{ intros [= <- <-]. simpl. repeat split. eexists. split; [reflexivity|].
        split; [repeat constructor|]. exists [], (world s). simpl.
        repeat (split; [solve [reflexivity | eassumption]|]). constructor. }
    destruct (errno_eqb code ENOENT).
    2:{ intros [= <- <-]. simpl. repeat split. eexists. split; [reflexivity|].
        split; repeat constructor. }
    destruct (ConfigWrapper.m_prepareResource self _) as [[e|[]] s1] eqn:Hp.
    + intros [= <- <-].
      pose proof (m_prepareResource_effects _ _ _ t Hp) as (dp & Hl & Hq).
      apply m_prepareResource_frame in Hp. simpl in Hp, Hl.
      destruct Hp as (Hh & Hc & _).
      repeat split; [exact Hh | exact Hc |].
      exists (WriteFileSync path t (Some code) :: dp).
      split; [rewrite Hl, <- app_assoc; reflexivity|].
      split.
      * constructor; [simpl; tauto|]. eapply Forall_impl; [|exact Hq]. simpl. tauto.
      * constructor; [reflexivity|]. eapply Forall_impl; [|exact Hq].
        intros [] [_ Hx]; try reflexivity. discriminate.
    + intros Hrec.
      pose proof (m_prepareResource_effects _ _ _ t Hp) as (dp & Hl & Hq).
      apply m_prepareResource_frame in Hp. simpl in Hp, Hl.
      destruct Hp as (Hh & Hc & _).
      apply IH in Hrec; [|rewrite Hh; exact Ht].
      destruct Hrec as (Hh' & Hc' & dr & Hl' & Hq' & Hres).
      repeat split; [congruence | congruence |].
      exists (WriteFileSync path t (Some code) :: dp ++ dr).
      split; [rewrite Hl', Hl, <- !app_assoc; reflexivity|].
      assert (Hns : Forall (fun e => is_successful_write e = false)
                      (WriteFileSync path t (Some code) :: dp)).
      { constructor; [reflexivity|]. eapply Forall_impl; [|exact Hq].
        intros [] [_ Hx]; try reflexivity. discriminate. }
      split.
      * constructor; [simpl; tauto|]. apply Forall_app. split; [|exact Hq'].
        eapply Forall_impl; [|exact Hq]. simpl. tauto.
      * destruct r as [e|u].
        -- change (WriteFileSync path t (Some code) :: dp ++ dr)
             with ((WriteFileSync path t (Some code) :: dp) ++ dr).
           apply Forall_app. split; [exact Hns | exact Hres].
        -- destruct Hres as (pre & w & -> & Hw' & Hpre).
           exists ((WriteFileSync path t (Some code) :: dp) ++ pre), w.
           split; [simpl; rewrite <- app_assoc; reflexivity|].
           split; [exact Hw'|].
           apply Forall_app. split; [exact Hns | exact Hpre].
Qed.

End WriteFacts.

(** ** The public methods *)

Section StoreFacts.
Context {W : Type} {FS : FileSystem W}.
Variable stack : nat.
Variable self : ConfigWrapper.t.

#[local] Abbreviation path := (ConfigWrapper.path self).
#[local] Abbreviation useCache := (Options.r_useCache (ConfigWrapper.m_options self)).
#[local] Abbreviation exposedEvents := (Options.r_exposedEvents (ConfigWrapper.m_options self)).

Lemma bind_run {A B} (m : M W A) (f : A -> M W B) (s s1 : State W) (a : A) :
  m s = (inr a, s1) -> bind m f s = f a s1.
Proof. intros H. unfold bind. rewrite H. reflexivity. Qed.

Lemma bind_throw {A B} (m : M W A) (f : A -> M W B) (s s1 : State W) (e : exn) :
  m s = (inl e, s1) -> bind m f s = (inl e, s1).
Proof. intros H. unfold bind. rewrite H. reflexivity. Qed.

Lemma m_writeFile_written (next : ref) (t : text) (s s' : State W) (r : exn + unit) :
  text_of (heap s) next = Some t ->
  ConfigWrapper.m_writeFile stack self next s = (r, s') ->
  heap s' = heap s /\ m_cache s' = m_cache s /\
  exists dl, log s' = log s ++ dl /\ written path t r dl (world s').
Proof.
  intros Ht Hrun. unfold ConfigWrapper.m_writeFile in Hrun.
  eapply m_writeFile_at_spec in Hrun; [|exact Ht].
  destruct Hrun as (Hh & Hc & dl & Hl & Hq & Hres).
  repeat split; [exact Hh | exact Hc |]. exists dl. split; [exact Hl|].
  split; [exact Hq | exact Hres].
Qed.

Lemma m_current_run (s : State W) :
  ConfigWrapper.m_current self s = (inr (fst (fetched self s)), snd (fetched self s)).
Proof.
  unfold ConfigWrapper.m_current, fetched. destruct useCache; [reflexivity|].
  apply m_readFile_run.
Qed.

Lemma fetched_current (s : State W) (o : obj) :
  current self s = Some o ->
  lookup_ref (heap (snd (fetched self s))) (fst (fetched self s)) = Some o.
Proof.
  unfold current, fetched. destruct useCache; simpl; [tauto|].
  intros [= <-]. apply nth_error_last.
Qed.

Lemma get_prop_run (conf : ref) (o : obj) (k : string) (s : State W) :
  lookup_ref (heap s) conf = Some o ->
  get_prop conf k s = (inr (obj_get o k), s).
Proof. intros Hc. unfold get_prop, bind, deref, ret. rewrite Hc. reflexivity. Qed.

Lemma read_run (key : option string) (s : State W) (o : obj) :
  current self s = Some o ->
  ConfigWrapper.read self key s =
  (inr (match key with
        | None => ConfigWrapper.Whole (fst (fetched self s))
        | Some k => ConfigWrapper.Property (obj_get o k)
        end), snd (fetched self s)).
Proof.
  intros Hc. unfold ConfigWrapper.read.
  erewrite bind_run by apply m_current_run.
  destruct key as [k|]; [|reflexivity].
  erewrite bind_run by (apply get_prop_run, fetched_current, Hc). reflexivity.
Qed.

Lemma mapM_get_prop (conf : ref) (o : obj) (keys : list string) (s : State W) :
  lookup_ref (heap s) conf = Some o ->
  mapM keys (fun key => v <- get_prop conf key ;; ret (Alteration.new key v)) s =
  (inr (map (fun key => Alteration.new key (obj_get o key)) keys), s).
Proof.
  intros Hc.
  set (F := fun key : string => v <- get_prop conf key ;; ret (Alteration.new key v)).
  assert (HF : forall k, F k s = (inr (Alteration.new k (obj_get o k)), s)).
  { intros k. unfold F, bind. erewrite get_prop_run by exact Hc. reflexivity. }
  induction keys as [|k rest IH]; simpl; [reflexivity|].
  unfold bind at 1. rewrite HF. unfold bind at 1. rewrite IH. reflexivity.
Qed.

Lemma trigger_run (keys : list string) (s : State W) (o : obj) :
  current self s = Some o ->
  ConfigWrapper.trigger self keys s =
  (inr tt,
   let s1 := snd (fetched self s) in
   mkState (heap s1) (m_cache s1) (world s1)
     (log s1 ++ announce exposedEvents
                  (map (fun key => Alteration.new key (obj_get o key)) keys))).
Proof.
  intros Hc. unfold ConfigWrapper.trigger.
  erewrite bind_run by apply m_current_run.
  erewrite bind_run by (apply mapM_get_prop, fetched_current, Hc).
  apply m_emitAlterations_run.
Qed.

Lemma set_prop_run (c : nat) (o : obj) (k : string) (v : json) (s : State W) :
  nth_error (heap s) c = Some o ->
  set_prop (Some c) k v s =
  (inr tt, mkState (list_update (heap s) c (obj_set o k v)) (m_cache s) (world s) (log s)).
Proof.
  intros Hc. unfold set_prop, bind, deref, store. simpl. rewrite Hc. reflexivity.
Qed.

Lemma text_of_updated (h : list obj) (c : nat) (o o' : obj) :
  nth_error h c = Some o ->
  text_of (list_update h c o') (Some c) = Some (JSON_stringify (JObj o')).
Proof.
  intros Hc. simpl. rewrite nth_list_update, Nat.eqb_refl, Hc. reflexivity.
Qed.

(** [alter] in one piece: the configuration [o] is fetched, [key] is set in
    it, the whole of it is written, and the batch is announced once the
    writer has returned. *)
Lemma alter_spec (k : string) (v : json) (s s' : State W) (o : obj) (r : exn + unit) :
  current self s = Some o ->
  ConfigWrapper.alter stack self k v s = (r, s') ->
  let s1 := snd (fetched self s) in
  exists c dl,
    fst (fetched self s) = Some c /\
    nth_error (heap s1) c = Some o /\
    heap s' = list_update (heap s1) c (obj_set o k v) /\
    m_cache s' = m_cache s /\
    log s' = log s1 ++ dl ++
             match r with
             | inr _ => announce exposedEvents [Alteration.new k (Data v)]
             | inl _ => []
             end /\
    written path (JSON_stringify (JObj (obj_set o k v))) r dl (world s').
Proof.
  intros Hcur Hrun s1.
  pose proof (fetched_current s o Hcur) as Hconf. fold s1 in Hconf.
  destruct (fst (fetched self s)) as [c|] eqn:Hfst; [|discriminate]. simpl in Hconf.
  assert (Hm : m_cache s1 = m_cache s).
  { unfold s1, fetched. destruct useCache; reflexivity. }
  unfold ConfigWrapper.alter in Hrun.
  erewrite bind_run in Hrun by apply m_current_run. rewrite Hfst in Hrun. fold s1 in Hrun.
  erewrite bind_run in Hrun by (apply set_prop_run; exact Hconf).
  set (s2 := mkState (list_update (heap s1) c (obj_set o k v)) (m_cache s1) (world s1) (log s1)) in Hrun.
  destruct (ConfigWrapper.m_writeFile stack self (Some c) s2) as [rw s3] eqn:Hw.
  pose proof Hw as Hw'.
  eapply m_writeFile_written in Hw'; [|apply (text_of_updated _ _ _ _ Hconf)].
  destruct Hw' as (Hh & Hc & dl & Hl & Hwr). simpl in Hh, Hc, Hl.
  exists c, dl. split; [reflexivity|]. split; [exact Hconf|].
  destruct rw as [e|[]].
  - erewrite bind_throw in Hrun by exact Hw. injection Hrun as <- <-.
    rewrite app_nil_r.
    split; [exact Hh|]. split; [congruence|]. split; [exact Hl | exact Hwr].
  - erewrite bind_run in Hrun by exact Hw. rewrite m_emitAlterations_run in Hrun.
    injection Hrun as <- <-. simpl.
    split; [exact Hh|]. split; [congruence|]. split; [|exact Hwr].
    rewrite Hl, <- app_assoc. reflexivity.
Qed.

(** [overwrite] in one piece. *)
Lemma overwrite_spec (next : ref) (X : obj) (s s' : State W) (r : exn + unit) :
  lookup_ref (heap s) next = Some X ->
  ConfigWrapper.overwrite stack self next s = (r, s') ->
  heap s' = heap s /\
  m_cache s' = (if useCache then next else m_cache s) /\
  exists dl,
    log s' = log s ++ dl ++
             match r with
             | inr _ => announce exposedEvents (map ConfigWrapper.entry_alteration X)
             | inl _ => []
             end /\
    written path (JSON_stringify (JObj X)) r dl (world s').
Proof.
  intros Hnext Hrun. unfold ConfigWrapper.overwrite in Hrun.
  set (s1 := mkState (heap s) (if useCache then next else m_cache s) (world s) (log s)).
  assert (H1 : (if useCache then write_cache next else ret tt) s = (inr tt, s1)).
  { unfold s1. destruct useCache; [reflexivity|]. destruct s; reflexivity. }
  erewrite bind_run in Hrun by exact H1.
  assert (Ht : text_of (heap s1) next = Some (JSON_stringify (JObj X))).
  { destruct next as [l|]; [|discriminate]. simpl in *. rewrite Hnext. reflexivity. }
  destruct (ConfigWrapper.m_writeFile stack self next s1) as [rw s2] eqn:Hw.
  pose proof Hw as Hw'.
  eapply m_writeFile_written in Hw'; [|exact Ht].
  destruct Hw' as (Hh & Hc & dl & Hl & Hwr). simpl in Hh, Hc, Hl.
  destruct rw as [e|[]].
  - erewrite bind_throw in Hrun by exact Hw. injection Hrun as <- <-.
    split; [exact Hh|]. split; [exact Hc|]. exists dl. rewrite app_nil_r. tauto.
  - erewrite bind_run in Hrun by exact Hw.
    assert (Hd : deref next s2 = (inr X, s2)).
    { unfold deref. rewrite Hh, Hnext. reflexivity. }
    erewrite bind_run in Hrun by exact Hd.
    rewrite m_emitAlterations_run in Hrun. injection Hrun as <- <-. simpl.
    split; [exact Hh|]. split; [exact Hc|]. exists dl. split; [|exact Hwr].
    rewrite Hl, <- app_assoc. reflexivity.
Qed.

(** [reset] is [overwrite] of a new copy of the flattened presets. *)
Lemma reset_spec (s s' : State W) (r : exn + unit) :
  ConfigWrapper.reset stack self s = (r, s') ->
  heap s' = heap s ++ [ConfigWrapper.copy_of_flattened self] /\
  m_cache s' = (if useCache then Some (List.length (heap s)) else m_cache s) /\
  exists dl,
    log s' = log s ++ dl ++
             match r with
             | inr _ => announce exposedEvents
                          (map ConfigWrapper.entry_alteration
                               (ConfigWrapper.copy_of_flattened self))
             | inl _ => []
             end /\
    written path (JSON_stringify (JObj (ConfigWrapper.copy_of_flattened self))) r dl (world s').
Proof.
  unfold ConfigWrapper.reset. intros Hrun.
  erewrite bind_run in Hrun by reflexivity.
  eapply overwrite_spec in Hrun; [|simpl; apply nth_error_last].
  exact Hrun.
Qed.

End StoreFacts.

(** ** Construction, and what holds of every store afterwards *)

Section ReachableFacts.
Context {W : Type} {FS : FileSystem W}.

Lemma new_run (draft : Draft.t) (opts : Options.IConfig) (s0 : State W) :
  let self := ConfigWrapper.fields draft opts in
  let s := mkState (heap s0) None (world s0) (log s0) in
  Config.from draft opts s0 =
  if negb (endsWith (ConfigWrapper.path self) ".json") then (inl ExpectedJsonExtension, s)
  else match ConfigWrapper.m_prepareResource self s with
       | (inl e, s1) => (inl e, s1)
       | (inr _, s1) =>
           (inr self,
            if Options.r_useCache (ConfigWrapper.m_options self)
            then mkState (heap s1 ++ [on_disk self (world s1)])
                         (Some (List.length (heap s1))) (world s1)
                         (log s1 ++ [ReadFileSync (ConfigWrapper.path self)
                                       (readFileSync (ConfigWrapper.path self) (world s1))])
            else s1)
       end.
Proof.
  intros self s. unfold Config.from, ConfigWrapper.new. fold self.
  erewrite bind_run by reflexivity. fold s.
  destruct (negb (endsWith (ConfigWrapper.path self) ".json")); [reflexivity|].
  destruct (ConfigWrapper.m_prepareResource self s) as [[e|[]] s1] eqn:Hp.
  - erewrite bind_throw by exact Hp. reflexivity.
  - erewrite bind_run by exact Hp.
    unfold ConfigWrapper.m_prepareCache.
    destruct (Options.r_useCache (ConfigWrapper.m_options self)).
    + erewrite bind_run.
      2:{ erewrite bind_run by apply m_readFile_run. reflexivity. }
      reflexivity.
    + erewrite bind_run by reflexivity. reflexivity.
Qed.

Variable stack : nat.
Variable self : ConfigWrapper.t.
Variable admits : State W -> Client.call -> Prop.

#[local] Abbreviation useCache := (Options.r_useCache (ConfigWrapper.m_options self)).

Lemma current_defined (s : State W) :
  cache_ready self s -> exists o, current self s = Some o.
Proof.
  unfold cache_ready, current. destruct useCache.
  - intros H. destruct (H eq_refl) as (c & o & Hc & Ho). exists o.
    rewrite Hc. exact Ho.
  - intros _. eexists. reflexivity.
Qed.

Lemma cache_ready_fetched (s : State W) :
  cache_ready self s -> cache_ready self (snd (fetched self s)).
Proof.
  unfold cache_ready, fetched. intros H Hu. rewrite Hu. simpl. auto.
Qed.

(** The fields are those the constructor assigned, the path has the
    extension, and a store with a cache has an object for cache. *)
Lemma reachable_inv (s : State W) :
  Client.reachable_if stack self admits s ->
  (exists draft opts, self = ConfigWrapper.fields draft opts) /\
  endsWith (ConfigWrapper.path self) ".json" = true /\
  cache_ready self s.
Proof.
  induction 1 as [draft opts s0 s1 Hnew | c s s' r Hreach IH Hwf _ Hrun
                 | o s Hreach IH | w s Hreach IH].
  - rewrite new_run in Hnew.
    destruct (endsWith (ConfigWrapper.path (ConfigWrapper.fields draft opts)) ".json") eqn:He;
      simpl in Hnew; [|discriminate].
    destruct (ConfigWrapper.m_prepareResource _ _) as [[e|[]] s2]; [discriminate|].
    injection Hnew as <- <-.
    split; [eauto|]. split; [exact He|].
    intros Hu. simpl in Hu |- *. rewrite Hu. simpl. eexists _, _. split; [reflexivity|].
    apply nth_error_last.
  - destruct IH as (Hf & He & Hc). split; [exact Hf|]. split; [exact He|].
    destruct (current_defined s Hc) as (o & Ho).
    destruct c as [key | k v | next | | keys]; simpl in Hrun.
    + erewrite bind_run in Hrun by (apply read_run; exact Ho).
      injection Hrun as _ <-. apply cache_ready_fetched, Hc.
    + eapply alter_spec in Hrun; [|exact Ho].
      destruct Hrun as (c & dl & Hfst & Hn & Hh & Hm & _).
      intros Hu. pose proof (cache_ready_fetched s Hc Hu) as (c' & o' & Hc' & Ho').
      assert (Hmm : m_cache (snd (fetched self s)) = m_cache s).
      { unfold fetched. destruct useCache; reflexivity. }
      exists c'. rewrite Hm, <- Hmm, Hh, nth_list_update, Ho'.
      destruct (c' =? c)%nat; eexists; split; try exact Hc'; reflexivity.
    + simpl in Hwf. destruct (lookup_ref (heap s) next) as [X|] eqn:HX; [|tauto].
      eapply overwrite_spec in Hrun; [|exact HX].
      destruct Hrun as (Hh & Hm & _).
      intros Hu. rewrite Hm, Hh, Hu. destruct next as [l|]; [|discriminate].
      exists l, X. split; [reflexivity | exact HX].
    + apply reset_spec in Hrun. destruct Hrun as (Hh & Hm & _).
      intros Hu. rewrite Hm, Hh, Hu. eexists _, _. split; [reflexivity|].
      apply nth_error_last.
    + erewrite trigger_run in Hrun by exact Ho. injection Hrun as _ <-.
      intros Hu. destruct (cache_ready_fetched s Hc Hu) as (c' & o' & Hc' & Ho').
      exists c', o'. simpl. split; assumption.
  - destruct IH as (Hf & He & Hc). split; [exact Hf|]. split; [exact He|].
    intros Hu. destruct (Hc Hu) as (c & x & Hc' & Hx). exists c, x. simpl.
    split; [exact Hc'|]. rewrite nth_error_app1; [exact Hx|].
    apply nth_error_Some. congruence.
  - destruct IH as (Hf & He & Hc). split; [exact Hf|]. split; [exact He|]. exact Hc.
Qed.

End ReachableFacts.

(** ** The copy of the presets, and the first attempt to write *)

Section MoreFacts.
Context {W : Type} {FS : FileSystem W}.

(** [Object.assign({}, flattened)] is a plain object with the properties of
    the flattened presets, in their order. *)
Lemma copy_of_flattened_plain (self : ConfigWrapper.t) :
  ConfigWrapper.copy_of_flattened self = plain (Schema.flattened (ConfigWrapper.m_schema self)).
Proof.
  unfold ConfigWrapper.copy_of_flattened, Schema.flattened.
  apply Object_assign_copy; [apply canonical_m_flatten | apply m_flatten_no_proto_key].
Qed.

(** With room on the stack, [m_writeFile] begins with the attempt to write,
    and returns at once when it succeeds. *)
Lemma m_writeFile_progress (stack : nat) (self : ConfigWrapper.t) (next : ref) (t : text)
      (s s' : State W) (r : exn + unit) (dl : list effect) :
  1 <= stack ->
  text_of (heap s) next = Some t ->
  ConfigWrapper.m_writeFile stack self next s = (r, s') ->
  log s' = log s ++ dl ->
  first_attempt (ConfigWrapper.path self) t (world s) dl /\
  ((exists w', writeFileSync (ConfigWrapper.path self) t (world s) = inr w') -> r = inr tt).
Proof.
  intros Hs Ht Hrun Hl. unfold ConfigWrapper.m_writeFile in Hrun.
  destruct stack as [|d]; [lia|].
  rewrite (m_writeFile_at_S self d next s t Ht) in Hrun.
  unfold first_attempt.
  destruct (writeFileSync (ConfigWrapper.path self) t (world s)) as [code|w'] eqn:Hw.
  - assert (Hrest : exists rest,
              log s' = log s ++ WriteFileSync (ConfigWrapper.path self) t (Some code) :: rest).
    { destruct (errno_eqb code ENOENT).
      - destruct (ConfigWrapper.m_prepareResource self
                    (append (WriteFileSync (ConfigWrapper.path self) t (Some code)) s))
          as [[e|u] s1] eqn:Hp.
        + injection Hrun as _ <-.
          apply m_prepareResource_frame in Hp. destruct Hp as (_ & _ & d1 & Hd1 & _).
          exists d1. rewrite Hd1. simpl. rewrite <- app_assoc. reflexivity.
        + pose proof (m_prepareResource_frame _ _ _ _ Hp) as (Hh1 & _ & d1 & Hd1 & _).
          eapply m_writeFile_at_spec in Hrun.
          2:{ unfold text_of in *. rewrite Hh1. exact Ht. }
          destruct Hrun as (_ & _ & d2 & Hd2 & _).
          exists (d1 ++ d2). rewrite Hd2, Hd1. simpl. rewrite <- !app_assoc. reflexivity.
      - injection Hrun as _ <-. exists []. reflexivity. }
    destruct Hrest as (rest & Hrest). rewrite Hrest in Hl. apply app_inv_head in Hl.
    split.
    + exists rest. split; [now symmetry|]. intros (w' & ?). discriminate.
    + intros (w' & ?). discriminate.
  - injection Hrun as <- <-. simpl in Hl. apply app_inv_head in Hl. subst dl.
    split; [|reflexivity]. exists []. split; reflexivity.
Qed.

End MoreFacts.
(** * The claims *)

Section Claims.
Context {W : Type} {FS : FileSystem W}.

Lemma copy_of_flattened_fields (draft : Draft.t) (opts : Options.IConfig) :
  ConfigWrapper.copy_of_flattened (ConfigWrapper.fields draft opts) =
  plain (Schema.m_flatten draft).
Proof. apply copy_of_flattened_plain. Qed.

(** What [on_disk] is for a store built by the constructor. *)
Lemma on_disk_fields (draft : Draft.t) (opts : Options.IConfig) (w : W) :
  on_disk (ConfigWrapper.fields draft opts) w =
  match readFileSync (Options.path opts) w with
  | inr (Valid parsed) => Object_assign (plain (Schema.m_flatten draft)) (own_enumerable parsed)
  | inr Invalid | inl _ => plain (Schema.m_flatten draft)
  end.
Proof.
  unfold on_disk. rewrite copy_of_flattened_fields. reflexivity.
Qed.

Lemma fetched_cached (self : ConfigWrapper.t) (s : State W) :
  Options.r_useCache (ConfigWrapper.m_options self) = true ->
  fetched self s = (m_cache s, s).
Proof. intros H. unfold fetched. rewrite H. reflexivity. Qed.

Lemma fetched_uncached (self : ConfigWrapper.t) (s : State W) :
  Options.r_useCache (ConfigWrapper.m_options self) = false ->
  fetched self s =
  (Some (List.length (heap s)),
   mkState (heap s ++ [on_disk self (world s)]) (m_cache s) (world s)
     (log s ++ [ReadFileSync (ConfigWrapper.path self)
                  (readFileSync (ConfigWrapper.path self) (world s))])).
Proof. intros H. unfold fetched. rewrite H. reflexivity. Qed.

(** When the first attempt to write succeeds, [m_writeFile] returns. *)
Lemma m_writeFile_first_try (stack : nat) (self : ConfigWrapper.t)
      (next : ref) (t : text) (s : State W) (w' : W) :
  1 <= stack ->
  text_of (heap s) next = Some t ->
  writeFileSync (ConfigWrapper.path self) t (world s) = inr w' ->
  ConfigWrapper.m_writeFile stack self next s =
  (inr tt, mkState (heap s) (m_cache s) w'
             (log s ++ [WriteFileSync (ConfigWrapper.path self) t None])).
Proof.
  intros Hs Ht Hw. unfold ConfigWrapper.m_writeFile.
  destruct stack as [|d]; [lia|].
  rewrite (m_writeFile_at_S self d next s t Ht), Hw. reflexivity.
Qed.

(** [alter], with what it tries first. *)
Lemma alter_mirrored (stack : nat) (self : ConfigWrapper.t) (k : string) (v : json)
      (s s' : State W) (o : obj) (r : exn + unit) :
  current self s = Some o ->
  ConfigWrapper.alter stack self k v s = (r, s') ->
  mirrored stack (ConfigWrapper.path self) (JSON_stringify (JObj (obj_set o k v)))
    (announce (Options.r_exposedEvents (ConfigWrapper.m_options self))
       [Alteration.new k (Data v)])
    (snd (fetched self s)) s' r.
Proof.
  intros Hcur Hrun.
  pose proof Hrun as Hspec. eapply alter_spec in Hspec; [|exact Hcur].
  destruct Hspec as (c & dl & Hfst & Hn & Hh & Hm & Hl & Hw).
  exists dl. split; [apply delta_app; exact Hl|]. split; [exact Hw|].
  intros Hs.
  unfold ConfigWrapper.alter in Hrun.
  erewrite bind_run in Hrun by apply m_current_run. rewrite Hfst in Hrun.
  erewrite bind_run in Hrun by (apply set_prop_run; exact Hn).
  set (s2 := mkState (list_update (heap (snd (fetched self s))) c (obj_set o k v))
               (m_cache (snd (fetched self s))) (world (snd (fetched self s)))
               (log (snd (fetched self s)))) in *.
  assert (Ht : text_of (heap s2) (Some c) = Some (JSON_stringify (JObj (obj_set o k v))))
    by apply (text_of_updated _ _ _ _ Hn).
  destruct (ConfigWrapper.m_writeFile stack self (Some c) s2) as [rw s3] eqn:Hwr.
  pose proof (m_writeFile_written _ _ _ _ _ _ _ Ht Hwr) as (_ & _ & dw & Hdw & _).
  destruct (m_writeFile_progress _ _ _ _ _ _ _ dw Hs Ht Hwr Hdw) as [Hfirst Hret].
  assert (Hdl : dw = dl /\ (rw = inr tt -> r = inr tt)).
  { destruct rw as [e|[]].
    - erewrite bind_throw in Hrun by exact Hwr. injection Hrun as <- <-.
      rewrite Hdw in Hl. simpl in Hl. rewrite app_nil_r in Hl.
      apply app_inv_head in Hl. split; [exact Hl | discriminate].
    - erewrite bind_run in Hrun by exact Hwr.
      rewrite m_emitAlterations_run in Hrun. injection Hrun as <- <-.
      simpl in Hl. rewrite Hdw, <- app_assoc in Hl. apply app_inv_head in Hl.
      apply app_inv_tail in Hl. split; [exact Hl | reflexivity]. }
  destruct Hdl as [<- Himp]. split; [exact Hfirst|].
  intros Hok. apply Himp, Hret, Hok.
Qed.

(** [overwrite], with what it tries first. *)
Lemma overwrite_mirrored (stack : nat) (self : ConfigWrapper.t) (next : ref) (X : obj)
      (s s' : State W) (r : exn + unit) :
  lookup_ref (heap s) next = Some X ->
  ConfigWrapper.overwrite stack self next s = (r, s') ->
  mirrored stack (ConfigWrapper.path self) (JSON_stringify (JObj X))
    (announce (Options.r_exposedEvents (ConfigWrapper.m_options self))
       (map ConfigWrapper.entry_alteration X))
    s s' r.
Proof.
  intros HX Hrun.
  pose proof Hrun as Hspec. eapply overwrite_spec in Hspec; [|exact HX].
  destruct Hspec as (Hh & Hm & dl & Hl & Hw).
  exists dl. split; [apply delta_app; exact Hl|]. split; [exact Hw|].
  intros Hs. unfold ConfigWrapper.overwrite in Hrun.
  set (s1 := mkState (heap s)
               (if Options.r_useCache (ConfigWrapper.m_options self) then next else m_cache s)
               (world s) (log s)).
  assert (H1 : (if Options.r_useCache (ConfigWrapper.m_options self)
                then write_cache next else ret tt) s = (inr tt, s1)).
  { unfold s1. destruct (Options.r_useCache _); [reflexivity|]. destruct s; reflexivity. }
  erewrite bind_run in Hrun by exact H1.
  assert (Ht : text_of (heap s1) next = Some (JSON_stringify (JObj X))).
  { destruct next as [l|]; [|discriminate]. simpl in *. rewrite HX. reflexivity. }
  destruct (ConfigWrapper.m_writeFile stack self next s1) as [rw s2] eqn:Hwr.
  pose proof (m_writeFile_written _ _ _ _ _ _ _ Ht Hwr) as (Hh2 & _ & dw & Hdw & _).
  destruct (m_writeFile_progress _ _ _ _ _ _ _ dw Hs Ht Hwr Hdw) as [Hfirst Hret].
  assert (Hdl : dw = dl /\ (rw = inr tt -> r = inr tt)).
  { destruct rw as [e|[]].
    - erewrite bind_throw in Hrun by exact Hwr. injection Hrun as <- <-.
      rewrite Hdw in Hl. simpl in Hl. rewrite app_nil_r in Hl.
      apply app_inv_head in Hl. split; [exact Hl | discriminate].
    - erewrite bind_run in Hrun by exact Hwr.
      assert (Hd : deref next s2 = (inr X, s2)).
      { unfold deref. rewrite Hh2. simpl. rewrite HX. reflexivity. }
      erewrite bind_run in Hrun by exact Hd.
      rewrite m_emitAlterations_run in Hrun. injection Hrun as <- <-.
      simpl in Hl. rewrite Hdw, <- app_assoc in Hl. apply app_inv_head in Hl.
      apply app_inv_tail in Hl. split; [exact Hl | reflexivity]. }
  destruct Hdl as [<- Himp]. split; [exact Hfirst|].
  intros Hok. apply Himp, Hret, Hok.
Qed.

(** [reset], with what it tries first. *)
Lemma reset_mirrored (stack : nat) (self : ConfigWrapper.t) (s s' : State W) (r : exn + unit) :
  ConfigWrapper.reset stack self s = (r, s') ->
  mirrored stack (ConfigWrapper.path self)
    (JSON_stringify (JObj (ConfigWrapper.copy_of_flattened self)))
    (announce (Options.r_exposedEvents (ConfigWrapper.m_options self))
       (map ConfigWrapper.entry_alteration (ConfigWrapper.copy_of_flattened self)))
    s s' r.
Proof.
  unfold ConfigWrapper.reset. intros Hrun.
  erewrite bind_run in Hrun by reflexivity.
  eapply overwrite_mirrored in Hrun; [|simpl; apply nth_error_last].
  destruct Hrun as (dl & Hd & Hw & Hp). exists dl. split; [exact Hd|]. split; [exact Hw|].
  exact Hp.
Qed.

(** C2. In a store with a cache, [read()] and [read(key)] answer from the
    cache and do nothing else: the state, log included, is what it was, so
    the file is not read.  [alter], [overwrite] and [reset] change the
    cache first (to the object with the key assigned, where a key other
    than [__proto__] then holds the value and every other key what it held;
    to the object given; to a new copy of the presets), whether or not the
    write that follows succeeds.  With room on the stack, what they do next
    is attempt to write the text of the cache so changed; they return when
    that attempt succeeds, no text but that one is ever written, and what
    they announce comes after the write that succeeded. *)
Theorem C2_cache_serves_reads_and_mirrors_mutations
  (stack : nat) (self : ConfigWrapper.t) (s : State W) :
  Client.reachable stack self s ->
  Options.r_useCache (ConfigWrapper.m_options self) = true ->
  let p := ConfigWrapper.path self in
  let exposed := Options.r_exposedEvents (ConfigWrapper.m_options self) in
  exists c o,
    m_cache s = Some c /\ nth_error (heap s) c = Some o /\
    ConfigWrapper.read self None s = (inr (ConfigWrapper.Whole (Some c)), s) /\
    (forall k,
        ConfigWrapper.read self (Some k) s = (inr (ConfigWrapper.Property (obj_get o k)), s)) /\
    (forall k v r s',
        ConfigWrapper.alter stack self k v s = (r, s') ->
        let o' := obj_set o k v in
        m_cache s' = Some c /\
        nth_error (heap s') c = Some o' /\
        (k <> "__proto__" -> own_property o' k = Some v) /\
        (forall k', k' <> k -> own_property o' k' = own_property o k') /\
        mirrored stack p (JSON_stringify (JObj o'))
          (announce exposed [Alteration.new k (Data v)]) s s' r) /\
    (forall next X r s',
        lookup_ref (heap s) next = Some X ->
        ConfigWrapper.overwrite stack self next s = (r, s') ->
        m_cache s' = next /\
        lookup_ref (heap s') next = Some X /\
        mirrored stack p (JSON_stringify (JObj X))
          (announce exposed (map ConfigWrapper.entry_alteration X)) s s' r) /\
    (forall r s',
        ConfigWrapper.reset stack self s = (r, s') ->
        let presets := Schema.flattened (ConfigWrapper.m_schema self) in
        m_cache s' = Some (List.length (heap s)) /\
        nth_error (heap s') (List.length (heap s)) = Some (plain presets) /\
        mirrored stack p (JSON_stringify (JObj presets))
          (announce exposed (map ConfigWrapper.entry_alteration presets)) s s' r).
Proof.
  intros Hreach Hu p exposed.
  pose proof (copy_of_flattened_plain self) as Hcopy.
  pose proof (reachable_inv _ _ _ _ Hreach) as (_ & _ & Hready).
  destruct (Hready Hu) as (c & o & Hc & Ho).
  assert (Hcur : current self s = Some o).
  { unfold current. rewrite Hu, Hc. exact Ho. }
  exists c, o. split; [exact Hc|]. split; [exact Ho|].
  split; [|split; [|split; [|split]]].
  - erewrite read_run by exact Hcur. rewrite fetched_cached, Hc by exact Hu. reflexivity.
  - intros k. erewrite read_run by exact Hcur. rewrite fetched_cached by exact Hu.
    reflexivity.
  - intros k v r s' Hrun o'.
    pose proof (alter_mirrored _ _ _ _ _ _ _ _ Hcur Hrun) as Hmir.
    eapply alter_spec in Hrun; [|exact Hcur].
    rewrite fetched_cached in Hrun, Hmir by exact Hu. simpl in Hrun, Hmir.
    destruct Hrun as (c' & dl & Hfst & _ & Hh & Hm & Hl & Hw).
    assert (c' = c) as -> by congruence.
    split; [congruence|]. split.
    { rewrite Hh, nth_list_update, Nat.eqb_refl, Ho. reflexivity. }
    split; [intros Hk; apply own_property_set_eq, Hk|].
    split; [intros k' Hk'; apply own_property_set_ne, Hk'|].
    exact Hmir.
  - intros next X r s' HX Hrun.
    pose proof (overwrite_mirrored _ _ _ _ _ _ _ HX Hrun) as Hmir.
    eapply overwrite_spec in Hrun; [|exact HX].
    rewrite Hu in Hrun. destruct Hrun as (Hh & Hm & dl & Hl & Hw).
    split; [exact Hm|]. split; [rewrite Hh; exact HX|]. exact Hmir.
  - intros r s' Hrun presets.
    pose proof (reset_mirrored _ _ _ _ _ Hrun) as Hmir.
    apply reset_spec in Hrun.
    rewrite Hu, Hcopy in Hrun. rewrite Hcopy in Hmir.
    destruct Hrun as (Hh & Hm & dl & Hl & Hw).
    split; [exact Hm|]. split; [rewrite Hh; apply nth_error_last|]. exact Hmir.
Qed.
Lemma count_app {A} (f : A -> bool) (l1 l2 : list A) :
  count f (l1 ++ l2) = count f l1 + count f l2.
Proof. unfold count. rewrite filter_app, length_app. reflexivity. Qed.

Lemma count_none {A} (f : A -> bool) (l : list A) :
  Forall (fun x => f x = false) l -> count f l = 0.
Proof.
  unfold count. induction 1 as [|x l Hx _ IH]; simpl; [reflexivity|].
  rewrite Hx. exact IH.
Qed.

Lemma m_prepareResource_writes (self : ConfigWrapper.t) (s s' : State W) (r : exn + unit) :
  ConfigWrapper.m_prepareResource self s = (r, s') ->
  count is_write (delta s s') = 0.
Proof.
  intros H. destruct (m_prepareResource_effects self s s' r (JSON_stringify JNull) H) as (d & Hl & Hd).
  rewrite (delta_app _ _ _ Hl). apply count_none.
  eapply Forall_impl; [|exact Hd]. simpl. tauto.
Qed.

(** C4, as the code has it.  A failed write that is not for a missing path
    is raised at once: one attempt, and the resource is not looked at.  A
    write that fails for a missing path is followed by [m_prepareResource];
    if that raises (the file is absent and may not be created, or the
    directory cannot be made) its exception is what the writer raises, after
    the one attempt; if it returns, the writer calls itself.  That second
    activation returns when its write succeeds and rethrows an error that
    is not for a missing path, two attempts having been made in all. *)
Theorem C4_write_heals_then_calls_itself
  (d : nat) (self : ConfigWrapper.t) (next : ref) (t : text)
  (s : State W) (code : errno) :
  let p := ConfigWrapper.path self in
  text_of (heap s) next = Some t ->
  writeFileSync p t (world s) = inl code ->
  let s1 := append (WriteFileSync p t (Some code)) s in
  let run := ConfigWrapper.m_writeFile (S d) self next s in
  (code <> ENOENT ->
     run = (inl (SystemError code), s1) /\ count is_write (delta s (snd run)) = 1) /\
  (code = ENOENT ->
   forall rp s2,
     ConfigWrapper.m_prepareResource self s1 = (rp, s2) ->
     match rp with
     | inl e => run = (inl e, s2) /\ count is_write (delta s (snd run)) = 1
     | inr _ =>
         run = ConfigWrapper.m_writeFile d self next s2 /\
         (1 <= d ->
          match writeFileSync p t (world s2) with
          | inr w' =>
              run = (inr tt, mkState (heap s2) (m_cache s2) w'
                               (log s2 ++ [WriteFileSync p t None])) /\
              count is_write (delta s (snd run)) = 2
          | inl code' =>
              code' <> ENOENT ->
              run = (inl (SystemError code'), append (WriteFileSync p t (Some code')) s2) /\
              count is_write (delta s (snd run)) = 2
          end)
     end).
Proof.
  intros p Ht Hw s1 run.
  assert (Hrun : run =
            if errno_eqb code ENOENT then
              match ConfigWrapper.m_prepareResource self s1 with
              | (inr _, s2) => ConfigWrapper.m_writeFile_at self d next s2
              | (inl e, s2) => (inl e, s2)
              end
            else (inl (SystemError code), s1)).
  { unfold run, ConfigWrapper.m_writeFile. rewrite (m_writeFile_at_S self d next s t Ht).
    fold p. rewrite Hw. reflexivity. }
  assert (H1 : delta s s1 = [WriteFileSync p t (Some code)]).
  { apply delta_app. reflexivity. }
  split.
  - intros Hne. assert (E : errno_eqb code ENOENT = false) by (destruct code; first [reflexivity | congruence]).
    rewrite E in Hrun. rewrite Hrun. simpl snd. rewrite H1. split; reflexivity.
  - intros -> rp s2 Hp. simpl errno_eqb in Hrun. cbv iota in Hrun. rewrite Hp in Hrun.
    pose proof (m_prepareResource_frame self s1 s2 _ Hp) as (Hh & _ & dp & Hl & _).
    pose proof (m_prepareResource_effects self s1 s2 _ t Hp) as (dp' & Hl' & Hq).
    assert (dp' = dp) as -> by (rewrite Hl in Hl'; apply app_inv_head in Hl'; congruence).
    assert (Hcnt : count is_write (WriteFileSync p t (Some ENOENT) :: dp) = 1).
    { change (WriteFileSync p t (Some ENOENT) :: dp)
        with ([WriteFileSync p t (Some ENOENT)] ++ dp).
      rewrite count_app, (count_none is_write dp); [reflexivity|].
      eapply Forall_impl; [|exact Hq]. simpl. tauto. }
    assert (Hl2 : log s2 = log s ++ WriteFileSync p t (Some ENOENT) :: dp).
    { rewrite Hl. simpl. rewrite <- app_assoc. reflexivity. }
    destruct rp as [e|[]].
    + rewrite Hrun. simpl snd. rewrite (delta_app _ _ _ Hl2). split; [reflexivity | exact Hcnt].
    + split; [exact Hrun|]. intros Hd.
      assert (Ht2 : text_of (heap s2) next = Some t) by (rewrite Hh; exact Ht).
      destruct d as [|d']; [lia|].
      rewrite (m_writeFile_at_S self d' next s2 t Ht2) in Hrun. fold p in Hrun.
      destruct (writeFileSync p t (world s2)) as [code'|w'].
      * intros Hne. assert (E : errno_eqb code' ENOENT = false) by (destruct code'; first [reflexivity | congruence]).
        rewrite E in Hrun. rewrite Hrun. split; [reflexivity|]. simpl snd.
        erewrite delta_app.
        2:{ simpl. rewrite Hl2, <- app_assoc. reflexivity. }
        rewrite count_app. change (WriteFileSync p t (Some ENOENT) :: dp)
          with ([WriteFileSync p t (Some ENOENT)] ++ dp) in Hcnt |- *.
        rewrite Hcnt. reflexivity.
      * rewrite Hrun. split; [reflexivity|]. simpl snd.
        erewrite delta_app.
        2:{ simpl. rewrite Hl2, <- app_assoc. reflexivity. }
        rewrite count_app, Hcnt. reflexivity.
Qed.

Lemma per_key_name (k : string) : String.eqb ("change:" ++ k) "change" = false.
Proof. reflexivity. Qed.

Lemma writer_effects_silent (p : string) (t : text) (dl : list effect) :
  Forall (writer_effect p t) dl -> Forall (fun e => is_emit e = false) dl.
Proof.
  intros H. eapply Forall_impl; [|exact H].
  intros e He. apply (writer_effect_quiet p t e He).
Qed.

Lemma announce_batches (exposed : bool) (B : list Alteration.t) :
  count is_batch_event (announce exposed B) = 1.
Proof.
  unfold announce, count. simpl. f_equal. destruct exposed; [|reflexivity].
  induction B as [|a rest IH]; simpl; [reflexivity|]. exact IH.
Qed.

(** C5. A call that commits a batch B (the one alteration of [alter], the
    entries of the object given to [overwrite], the entries of the presets
    for [reset], the current values of the keys of [trigger]) and returns
    has emitted nothing before the event "change" carrying B whole and in
    order; that event is emitted once; what follows it is, where the
    per-key events are exposed, one event "change:key" per alteration of B
    carrying its value, in the order of B, and nothing where they are
    not. *)
Theorem C5_batch_event_then_per_key_events
  (stack : nat) (self : ConfigWrapper.t) (c : Client.call)
  (s s' : State W) (B : list Alteration.t) :
  Client.reachable stack self s ->
  Client.invoke stack self c s = (inr tt, s') ->
  batch self s c = Some B ->
  exists pre,
    delta s s' =
      pre ++ Emit "change" (Batch B) ::
      (if Options.r_exposedEvents (ConfigWrapper.m_options self)
       then map (fun a => Emit ("change:" ++ Alteration.key a)
                               (Single (Alteration.value a))) B
       else []) /\
    Forall (fun e => is_emit e = false) pre /\
    count is_batch_event (delta s s') = 1.
Proof.
  intros Hreach Hrun HB.
  pose proof (reachable_inv _ _ _ _ Hreach) as (_ & _ & Hready).
  destruct (current_defined _ _ Hready) as (o & Hcur).
  assert (Hgoal : forall pre,
             log s' = log s ++ pre ++
                      announce (Options.r_exposedEvents (ConfigWrapper.m_options self)) B ->
             Forall (fun e => is_emit e = false) pre ->
             exists pre0,
               delta s s' = pre0 ++ announce (Options.r_exposedEvents (ConfigWrapper.m_options self)) B /\
               Forall (fun e => is_emit e = false) pre0 /\
               count is_batch_event (delta s s') = 1).
  { intros pre Hl Hpre. exists pre. rewrite (delta_app _ _ _ Hl).
    split; [reflexivity|]. split; [exact Hpre|].
    rewrite count_app, announce_batches, count_none; [reflexivity|].
    eapply Forall_impl; [|exact Hpre]. intros [] He; try reflexivity. discriminate. }
  destruct c as [key | k v | next | | keys]; simpl in Hrun, HB.
  - discriminate.
  - injection HB as <-.
    eapply alter_spec in Hrun; [|exact Hcur].
    destruct Hrun as (c & dl & _ & _ & _ & _ & Hl & Hw & _).
    apply (Hgoal ((if Options.r_useCache (ConfigWrapper.m_options self) then []
                   else [ReadFileSync (ConfigWrapper.path self)
                           (readFileSync (ConfigWrapper.path self) (world s))]) ++ dl)).
    + rewrite Hl. unfold fetched.
      destruct (Options.r_useCache (ConfigWrapper.m_options self)); simpl;
        [reflexivity | rewrite <- !app_assoc; reflexivity].
    + apply Forall_app. split.
      * destruct (Options.r_useCache _); repeat constructor.
      * apply (writer_effects_silent _ _ _ Hw).
  - destruct (lookup_ref (heap s) next) as [X|] eqn:HX; [|discriminate].
    injection HB as <-.
    eapply overwrite_spec in Hrun; [|exact HX].
    destruct Hrun as (_ & _ & dl & Hl & Hw & _).
    apply (Hgoal dl); [exact Hl | apply (writer_effects_silent _ _ _ Hw)].
  - injection HB as <-.
    apply reset_spec in Hrun. destruct Hrun as (_ & _ & dl & Hl & Hw & _).
    apply (Hgoal dl); [exact Hl | apply (writer_effects_silent _ _ _ Hw)].
  - rewrite Hcur in HB. injection HB as <-.
    erewrite trigger_run in Hrun by exact Hcur. injection Hrun as <-.
    apply (Hgoal (if Options.r_useCache (ConfigWrapper.m_options self) then []
                  else [ReadFileSync (ConfigWrapper.path self)
                          (readFileSync (ConfigWrapper.path self) (world s))])).
    + simpl. unfold fetched.
      destruct (Options.r_useCache (ConfigWrapper.m_options self)); simpl;
        [reflexivity | rewrite <- !app_assoc; reflexivity].
    + destruct (Options.r_useCache _); repeat constructor.
Qed.


Lemma keys_copy_of_flattened (self : ConfigWrapper.t) (k : string) :
  In k (Object_keys (ConfigWrapper.copy_of_flattened self)) <->
  In k (Object_keys (Schema.flattened (ConfigWrapper.m_schema self))).
Proof. rewrite copy_of_flattened_plain. reflexivity. Qed.

Lemma flattened_no_proto_key (self : ConfigWrapper.t) :
  ~ In "__proto__" (Object_keys (Schema.flattened (ConfigWrapper.m_schema self))).
Proof. apply m_flatten_no_proto_key. Qed.

(** After [overwrite] has returned, the authoritative configuration is the
    object it was given: the cache is that object, and the file holds its
    text. *)
Lemma overwrite_then_current (stack : nat) (self : ConfigWrapper.t)
      (next : ref) (X : obj) (s s1 : State W) :
  (forall t w w', writeFileSync (ConfigWrapper.path self) t w = inr w' ->
                  readFileSync (ConfigWrapper.path self) w' = inr t) ->
  lookup_ref (heap s) next = Some X ->
  ConfigWrapper.overwrite stack self next s = (inr tt, s1) ->
  current self s1 =
  Some (if Options.r_useCache (ConfigWrapper.m_options self) then X
        else Object_assign (ConfigWrapper.copy_of_flattened self)
                           (own_enumerable (JObj X))) /\
  readFileSync (ConfigWrapper.path self) (world s1) = inr (JSON_stringify (JObj X)).
Proof.
  intros Hlaw HX Hrun. eapply overwrite_spec in Hrun; [|exact HX].
  destruct Hrun as (Hh & Hm & dl & _ & _ & pre & w & _ & Hw & _).
  apply Hlaw in Hw. split; [|exact Hw].
  unfold current, on_disk. rewrite Hw.
  destruct (Options.r_useCache (ConfigWrapper.m_options self)); [|reflexivity].
  rewrite Hm, Hh. exact HX.
Qed.

(** C6. Where a file that has just been written reads back as written: if
    [overwrite(X)] returns, for an object X whose keys are those of the
    schema, the [read()] that follows returns an object with the same
    properties and the same values as X, whether the store has a cache or
    not. *)
Theorem C6_overwrite_then_read_round_trip
  (stack : nat) (self : ConfigWrapper.t) (next : ref) (X : obj) (s s1 : State W) :
  (forall t w w', writeFileSync (ConfigWrapper.path self) t w = inr w' ->
                  readFileSync (ConfigWrapper.path self) w' = inr t) ->
  lookup_ref (heap s) next = Some X ->
  NoDup (Object_keys X) ->
  (forall k, In k (Object_keys X) <->
             In k (Object_keys (Schema.flattened (ConfigWrapper.m_schema self)))) ->
  ConfigWrapper.overwrite stack self next s = (inr tt, s1) ->
  exists conf Y s2,
    ConfigWrapper.read self None s1 = (inr (ConfigWrapper.Whole conf), s2) /\
    lookup_ref (heap s2) conf = Some Y /\
    obj_equiv Y X.
Proof.
  intros Hlaw HX Hnd Hkeys Hrun.
  destruct (overwrite_then_current stack self next X s s1 Hlaw HX Hrun) as [Hcur _].
  eexists _, _, _. split; [apply (read_run self None s1 _ Hcur)|].
  split; [apply (fetched_current self s1 _ Hcur)|].
  destruct (Options.r_useCache (ConfigWrapper.m_options self)); intros k; [reflexivity|].
  assert (HnoX : ~ In "__proto__" (Object_keys X)).
  { rewrite Hkeys. apply flattened_no_proto_key. }
  destruct (String.eqb_spec k "__proto__") as [->|Hk].
  - destruct (Object_assign_no_proto_key (ConfigWrapper.copy_of_flattened self)
                (own_enumerable (JObj X))) as [_ Hown].
    { rewrite In_keys_own_enumerable. exact HnoX. }
    rewrite Hown. transitivity (@None json).
    + apply own_property_None. rewrite keys_copy_of_flattened.
      apply flattened_no_proto_key.
    + symmetry. apply own_property_None, HnoX.
  - rewrite own_property_Object_assign by exact Hk.
    rewrite last_binding_own_enumerable, (last_binding_NoDup X k Hnd). fold (own_property X k).
    destruct (own_property X k) eqn:E; [reflexivity|].
    apply own_property_None. rewrite keys_copy_of_flattened, <- Hkeys.
    apply own_property_None. exact E.
Qed.
Lemma on_disk_covers (self : ConfigWrapper.t) (w : W) :
  covers_schema self (on_disk self w).
Proof.
  intros k Hk. apply keys_copy_of_flattened in Hk. unfold on_disk.
  destruct (readFileSync (ConfigWrapper.path self) w) as [e|[|parsed]]; try exact Hk.
  apply keys_Object_assign_kept, Hk.
Qed.

Lemma obj_set_covers (self : ConfigWrapper.t) (o : obj) (k : string) (v : json) :
  covers_schema self o -> covers_schema self (obj_set o k v).
Proof. intros H k' Hk'. apply keys_obj_set_kept, H, Hk'. Qed.

(** With a client that only overwrites with objects covering the schema,
    the cache covers the schema at all times. *)
Lemma cache_covers (stack : nat) (self : ConfigWrapper.t) (s : State W) :
  Client.reachable_if stack self (overwrites_cover self) s ->
  Options.r_useCache (ConfigWrapper.m_options self) = true ->
  exists c o, m_cache s = Some c /\ nth_error (heap s) c = Some o /\ covers_schema self o.
Proof.
  intros Hreach Hu.
  induction Hreach as [draft opts s0 s1 Hnew | c s s' r Hreach IH Hwf Hadm Hrun
                      | x s Hreach IH | w s Hreach IH].
  - rewrite new_run in Hnew.
    destruct (negb (endsWith _ _)); [discriminate|].
    destruct (ConfigWrapper.m_prepareResource _ _) as [[e|[]] s2]; [discriminate|].
    injection Hnew as Hself <-. rewrite <- Hself in Hu |- *. simpl in Hu. rewrite Hu. simpl.
    eexists _, _. split; [reflexivity|]. split; [apply nth_error_last|].
    apply on_disk_covers.
  - destruct IH as (c0 & o & Hc & Ho & Hcov).
    assert (Hcur : current self s = Some o).
    { unfold current. rewrite Hu, Hc. exact Ho. }
    destruct c as [key | k v | next | | keys]; simpl in Hrun.
    + erewrite bind_run in Hrun by (apply read_run; exact Hcur).
      rewrite fetched_cached in Hrun by exact Hu. injection Hrun as _ <-. simpl. eauto.
    + eapply alter_spec in Hrun; [|exact Hcur].
      rewrite fetched_cached in Hrun by exact Hu. simpl in Hrun.
      destruct Hrun as (c' & dl & Hfst & _ & Hh & Hm & _).
      assert (c' = c0) as -> by congruence.
      exists c0, (obj_set o k v). split; [congruence|]. split.
      * rewrite Hh, nth_list_update, Nat.eqb_refl, Ho. reflexivity.
      * apply obj_set_covers, Hcov.
    + destruct Hadm as (X & HX & HXcov).
      eapply overwrite_spec in Hrun; [|exact HX].
      destruct Hrun as (Hh & Hm & _). rewrite Hu in Hm.
      destruct next as [l|]; [|discriminate].
      exists l, X. split; [exact Hm|]. split; [rewrite Hh; exact HX | exact HXcov].
    + apply reset_spec in Hrun. destruct Hrun as (Hh & Hm & _). rewrite Hu in Hm.
      eexists _, _. split; [exact Hm|]. split; [rewrite Hh; apply nth_error_last|].
      intros k Hk. apply keys_copy_of_flattened, Hk.
    + erewrite trigger_run in Hrun by exact Hcur.
      rewrite fetched_cached in Hrun by exact Hu. injection Hrun as _ <-. simpl. eauto.
  - destruct IH as (c0 & o & Hc & Ho & Hcov). exists c0, o. simpl.
    split; [exact Hc|]. split; [|exact Hcov].
    rewrite nth_error_app1; [exact Ho|]. apply nth_error_Some. congruence.
  - exact IH.
Qed.

(** C7, as the code has it.  Constructed on a path where there is no file
    and the directory can be made, a store reads as the flattened presets,
    exactly: [read()] returns a plain object with their properties, in
    their order.  Without a cache, [read()] always returns an object with every
    key of the schema.  With a cache it does so as long as every object
    handed to [overwrite] had every key of the schema. *)
Theorem C7_fresh_store_reads_presets_and_reads_cover_schema :
  (forall (draft : Draft.t) (opts : Options.IConfig) (s0 : State W) (w1 : W) (e : errno),
      let p := Options.path opts in
      let self := ConfigWrapper.fields draft opts in
      endsWith p ".json" = true ->
      Options.allowCreate opts <> Some false ->
      existsSync p (world s0) = false ->
      mkdirSync (dirname p) (world s0) = inr w1 ->
      readFileSync p w1 = inl e ->
      exists s1 conf s2,
        Config.from draft opts s0 = (inr self, s1) /\
        ConfigWrapper.read self None s1 = (inr (ConfigWrapper.Whole conf), s2) /\
        lookup_ref (heap s2) conf = Some (plain (Schema.m_flatten draft))) /\
  (forall (stack : nat) (self : ConfigWrapper.t) (s : State W),
      Client.reachable stack self s ->
      Options.r_useCache (ConfigWrapper.m_options self) = false ->
      exists conf o s',
        ConfigWrapper.read self None s = (inr (ConfigWrapper.Whole conf), s') /\
        lookup_ref (heap s') conf = Some o /\ covers_schema self o) /\
  (forall (stack : nat) (self : ConfigWrapper.t) (s : State W),
      Client.reachable_if stack self (overwrites_cover self) s ->
      exists conf o s',
        ConfigWrapper.read self None s = (inr (ConfigWrapper.Whole conf), s') /\
        lookup_ref (heap s') conf = Some o /\ covers_schema self o).
Proof.
  assert (Huncached : forall (self : ConfigWrapper.t) (s : State W),
             Options.r_useCache (ConfigWrapper.m_options self) = false ->
             exists conf o s',
               ConfigWrapper.read self None s = (inr (ConfigWrapper.Whole conf), s') /\
               lookup_ref (heap s') conf = Some o /\ covers_schema self o).
  { intros self s Hu.
    assert (Hcur : current self s = Some (on_disk self (world s))).
    { unfold current. rewrite Hu. reflexivity. }
    eexists _, _, _. split; [apply (read_run self None s _ Hcur)|].
    split; [apply (fetched_current self s _ Hcur) | apply on_disk_covers]. }
  split; [|split].
  - intros draft opts s0 w1 e p self Hext Hallow Hex Hmk Hread.
    rewrite new_run. fold self. change (ConfigWrapper.path self) with p.
    rewrite Hext. simpl negb. cbv iota.
    rewrite m_prepareResource_run. simpl world. change (ConfigWrapper.path self) with p.
    rewrite Hex.
    assert (Ha : Options.r_allowCreate (ConfigWrapper.m_options self) = true).
    { unfold self. simpl. destruct (Options.allowCreate opts) as [[|]|]; first [reflexivity | congruence]. }
    rewrite Ha, Hmk.
    assert (Hod : on_disk self w1 = plain (Schema.m_flatten draft)).
    { unfold self. rewrite on_disk_fields. fold p. rewrite Hread. reflexivity. }
    destruct (Options.r_useCache (ConfigWrapper.m_options self)) eqn:Hu.
    + eexists _, _, _. split; [reflexivity|]. simpl world. rewrite Hod.
      assert (Hcur : current self
                (mkState (heap s0 ++ [plain (Schema.m_flatten draft)]) (Some (List.length (heap s0))) w1
                   ((log s0 ++ [ExistsSync p false; MkdirSync (dirname p) None]) ++
                    [ReadFileSync p (readFileSync p w1)])) = Some (plain (Schema.m_flatten draft))).
      { unfold current. rewrite Hu. simpl. apply nth_error_last. }
      split; [apply (read_run self None _ _ Hcur)|].
      apply (fetched_current self _ _ Hcur).
    + assert (Hcur : current self
                (mkState (heap s0) None w1
                   (log s0 ++ [ExistsSync p false; MkdirSync (dirname p) None]))
                = Some (plain (Schema.m_flatten draft))).
      { unfold current. rewrite Hu. simpl. rewrite Hod. reflexivity. }
      eexists _, _, _. split; [reflexivity|].
      split; [apply (read_run self None _ _ Hcur)|].
      apply (fetched_current self _ _ Hcur).
  - intros stack self s _ Hu. apply Huncached, Hu.
  - intros stack self s Hreach.
    destruct (Options.r_useCache (ConfigWrapper.m_options self)) eqn:Hu;
      [|apply Huncached, Hu].
    destruct (cache_covers stack self s Hreach Hu) as (c & o & Hc & Ho & Hcov).
    assert (Hcur : current self s = Some o).
    { unfold current. rewrite Hu, Hc. exact Ho. }
    eexists _, _, _. split; [apply (read_run self None s _ Hcur)|].
    split; [apply (fetched_current self s _ Hcur) | exact Hcov].
Qed.

(** Merging the text of an object over that object changes nothing. *)
Lemma Object_assign_self (o : obj) :
  NoDup (Object_keys o) -> Object_assign o (own_enumerable (JObj o)) = o.
Proof.
  intros H. apply Object_assign_same. intros k v Hin.
  unfold own_property.
  rewrite <- (last_binding_NoDup o k H), <- last_binding_own_enumerable.
  rewrite last_binding_NoDup by apply canonical_props_of_members.
  apply In_props_get; [apply canonical_props_of_members | exact Hin].
Qed.

(** C8. [reset()] is [overwrite] of a new copy of the flattened presets,
    a plain object with their properties.  Where a file that has just
    been written reads back as written: from any state whatever, once
    [reset()] has returned, [read()] returns the copy of the flattened
    presets and the file holds their text; and a second [reset()] that
    returns leaves [read()] and the file exactly so again. *)
Theorem C8_reset_restores_presets_idempotently
  (stack : nat) (draft : Draft.t) (opts : Options.IConfig) (s : State W) :
  let self := ConfigWrapper.fields draft opts in
  let p := Options.path opts in
  let presets := plain (Schema.m_flatten draft) in
  let reads_presets := fun s1 : State W =>
    (exists conf s2,
        ConfigWrapper.read self None s1 = (inr (ConfigWrapper.Whole conf), s2) /\
        lookup_ref (heap s2) conf = Some presets) /\
    readFileSync p (world s1) = inr (JSON_stringify (JObj presets)) in
  (forall t w w', writeFileSync p t w = inr w' -> readFileSync p w' = inr t) ->
  ConfigWrapper.reset stack self s =
    (next <- alloc presets ;; ConfigWrapper.overwrite stack self next) s /\
  (forall s1, ConfigWrapper.reset stack self s = (inr tt, s1) -> reads_presets s1) /\
  (forall s1 s2,
      ConfigWrapper.reset stack self s = (inr tt, s1) ->
      ConfigWrapper.reset stack self s1 = (inr tt, s2) ->
      reads_presets s1 /\ reads_presets s2).
Proof.
  intros self p presets reads_presets Hlaw.
  assert (Hcopy : ConfigWrapper.copy_of_flattened self = presets)
    by apply copy_of_flattened_fields.
  assert (Hone : forall s0 s1,
             ConfigWrapper.reset stack self s0 = (inr tt, s1) -> reads_presets s1).
  { intros s0 s1 Hrun. unfold ConfigWrapper.reset in Hrun.
    erewrite bind_run in Hrun by reflexivity.
    eapply overwrite_then_current in Hrun; [|exact Hlaw|simpl; apply nth_error_last].
    rewrite Hcopy in Hrun. destruct Hrun as [Hcur Hfile].
    assert (Hcur' : current self s1 = Some presets).
    { rewrite Hcur. destruct (Options.r_useCache _); [reflexivity|].
      rewrite Object_assign_self; [reflexivity | apply NoDup_m_flatten]. }
    split; [|exact Hfile].
    eexists _, _. split; [apply (read_run self None s1 _ Hcur')|].
    apply (fetched_current self s1 _ Hcur'). }
  split; [|split].
  - unfold ConfigWrapper.reset. rewrite Hcopy. reflexivity.
  - intros s1. apply Hone.
  - intros s1 s2 H1 H2. split; [exact (Hone s s1 H1) | exact (Hone s1 s2 H2)].
Qed.

Lemma filter_emit_announce (exposed : bool) (B : list Alteration.t) :
  filter is_emit (announce exposed B) = announce exposed B.
Proof.
  unfold announce. simpl. f_equal. destruct exposed; [|reflexivity].
  induction B as [|a rest IH]; simpl; [reflexivity | now rewrite IH].
Qed.

(** Fetching the configuration changes neither the cache nor the file
    system nor any object there was; it logs one read of the file when
    there is no cache, and nothing when there is one. *)
Lemma fetched_frame (self : ConfigWrapper.t) (s : State W) :
  let s1 := snd (fetched self s) in
  m_cache s1 = m_cache s /\
  world s1 = world s /\
  (forall r x, lookup_ref (heap s) r = Some x -> lookup_ref (heap s1) r = Some x) /\
  log s1 = log s ++
           (if Options.r_useCache (ConfigWrapper.m_options self) then []
            else [ReadFileSync (ConfigWrapper.path self)
                    (readFileSync (ConfigWrapper.path self) (world s))]).
Proof.
  unfold fetched. destruct (Options.r_useCache (ConfigWrapper.m_options self)); simpl.
  - rewrite app_nil_r. tauto.
  - repeat split. intros r x Hx. apply lookup_ref_app, Hx.
Qed.

(** C9. [trigger(keys)] returns, having emitted the batch of the current
    values of the keys (and, where exposed, the per-key events) and nothing
    else; it makes no call that writes or creates anything; the cache is
    the same reference to the same object, every object that existed is
    what it was, the file system is what it was; so the configuration is
    what it was and [read(k)] answers as it did before. *)
Theorem C9_trigger_changes_nothing
  (stack : nat) (self : ConfigWrapper.t) (keys : list string) (s : State W) :
  Client.reachable stack self s ->
  exists o s',
    current self s = Some o /\
    ConfigWrapper.trigger self keys s = (inr tt, s') /\
    filter is_emit (delta s s') =
      Emit "change" (Batch (map (fun key => Alteration.new key (obj_get o key)) keys)) ::
      (if Options.r_exposedEvents (ConfigWrapper.m_options self)
       then map (fun key => Emit ("change:" ++ key) (Single (obj_get o key))) keys
       else []) /\
    Forall (fun e => is_write e = false /\ changes_disk e = false) (delta s s') /\
    m_cache s' = m_cache s /\
    world s' = world s /\
    (forall r x, lookup_ref (heap s) r = Some x -> lookup_ref (heap s') r = Some x) /\
    current self s' = Some o /\
    (forall k,
        fst (ConfigWrapper.read self (Some k) s') = fst (ConfigWrapper.read self (Some k) s) /\
        fst (ConfigWrapper.read self (Some k) s) = inr (ConfigWrapper.Property (obj_get o k))).
Proof.
  intros Hreach.
  pose proof (reachable_inv _ _ _ _ Hreach) as (_ & _ & Hready).
  destruct (current_defined _ _ Hready) as (o & Hcur).
  exists o. eexists. split; [exact Hcur|].
  split; [apply (trigger_run self keys s o Hcur)|].
  set (B := map (fun key => Alteration.new key (obj_get o key)) keys).
  set (exposed := Options.r_exposedEvents (ConfigWrapper.m_options self)).
  assert (Hper : (if exposed
                  then map (fun key => Emit ("change:" ++ key) (Single (obj_get o key))) keys
                  else []) =
                 (if exposed
                  then map (fun a => Emit ("change:" ++ Alteration.key a)
                                          (Single (Alteration.value a))) B
                  else [])).
  { destruct exposed; [|reflexivity]. unfold B. rewrite map_map. reflexivity. }
  rewrite Hper. clear Hper.
  change (Emit "change" (Batch B) ::
          (if exposed
           then map (fun a => Emit ("change:" ++ Alteration.key a)
                                   (Single (Alteration.value a))) B
           else [])) with (announce exposed B).
  destruct (fetched_frame self s) as (Hm & Hw & Hh & Hl).
  set (s1 := snd (fetched self s)) in *.
  set (rd := if Options.r_useCache (ConfigWrapper.m_options self) then []
             else [ReadFileSync (ConfigWrapper.path self)
                     (readFileSync (ConfigWrapper.path self) (world s))]) in *.
  cbv zeta.
  set (s' := mkState (heap s1) (m_cache s1) (world s1) (log s1 ++ announce exposed B)).
  assert (Hdelta : delta s s' = rd ++ announce exposed B).
  { apply delta_app. simpl. rewrite Hl, <- app_assoc. reflexivity. }
  assert (Hsilent : Forall (fun e => is_write e = false /\ changes_disk e = false) (announce exposed B)).
  { unfold announce. constructor; [split; reflexivity|].
    destruct exposed; [|constructor].
    apply Forall_forall. intros e He. apply in_map_iff in He.
    destruct He as (a & <- & _). split; reflexivity. }
  assert (Hcur' : current self s' = Some o).
  { unfold current in Hcur |- *. simpl. rewrite Hw.
    destruct (Options.r_useCache (ConfigWrapper.m_options self)); [|exact Hcur].
    rewrite Hm. apply Hh, Hcur. }
  rewrite Hdelta.
  split.
  { rewrite filter_app, filter_emit_announce.
    replace (filter is_emit rd) with (@nil effect); [reflexivity|].
    unfold rd. destruct (Options.r_useCache _); reflexivity. }
  split.
  { apply Forall_app. split; [|exact Hsilent].
    unfold rd. destruct (Options.r_useCache _); repeat constructor. }
  split; [exact Hm|]. split; [exact Hw|]. split; [exact Hh|]. split; [exact Hcur'|].
  intros k. rewrite (read_run self (Some k) s' o Hcur'), (read_run self (Some k) s o Hcur).
  split; reflexivity.
Qed.

(** What a successful [alter] wrote: the text of the configuration with the
    key set, and no other text. *)
Lemma alter_writes (stack : nat) (self : ConfigWrapper.t) (k : string) (v : json)
      (s s' : State W) (o : obj) :
  current self s = Some o ->
  ConfigWrapper.alter stack self k v s = (inr tt, s') ->
  let t := JSON_stringify (JObj (obj_set o k v)) in
  (exists w, writeFileSync (ConfigWrapper.path self) t w = inr (world s')) /\
  In (WriteFileSync (ConfigWrapper.path self) t None) (delta s s') /\
  (forall t', In (WriteFileSync (ConfigWrapper.path self) t' None) (delta s s') -> t' = t).
Proof.
  intros Hcur Hrun t. eapply alter_spec in Hrun; [|exact Hcur].
  destruct Hrun as (c & dl & _ & _ & _ & _ & Hl & Hq & pre & w & Hdl & Hw & _).
  destruct (fetched_frame self s) as (_ & _ & _ & Hl1).
  rewrite Hl1, <- app_assoc in Hl. apply delta_app in Hl. rewrite Hl.
  split; [exists w; exact Hw|]. split.
  - apply in_or_app. right. apply in_or_app. left. rewrite Hdl.
    apply in_or_app. right. now left.
  - intros t' Hin. apply in_app_or in Hin. destruct Hin as [Hin|Hin].
    + destruct (Options.r_useCache _); [destruct Hin | destruct Hin as [H|[]]; discriminate H].
    + apply in_app_or in Hin. destruct Hin as [Hin|Hin].
      * rewrite Forall_forall in Hq. apply Hq in Hin. simpl in Hin. tauto.
      * unfold announce in Hin. destruct Hin as [H|Hin]; [discriminate H|].
        destruct (Options.r_exposedEvents _); [|destruct Hin].
        destruct Hin as [H|[]]. discriminate H.
Qed.

(** C10, as the code has it.  Without a cache, a successful [alter(k, v)]
    writes, and writes only, the whole configuration it read with [k]
    assigned [v]: every key of the schema is in it; [k], when it is not
    [__proto__], has the value [v]; a key other than [k] and [__proto__]
    has the value the file gave it, or its preset where the file had none
    (or could not be read), so such keys of the file alone are kept and
    keys of the schema the file lacked are written with their presets.
    With a cache it writes, and writes only, the cache with [k] assigned
    [v], which has every key of the schema as long as every object handed
    to [overwrite] had. *)
Theorem C10_alter_writes_the_whole_configuration
  (stack : nat) (self : ConfigWrapper.t) (k : string) (v : json) (s s' : State W) :
  ConfigWrapper.alter stack self k v s = (inr tt, s') ->
  let p := ConfigWrapper.path self in
  let presets := Schema.flattened (ConfigWrapper.m_schema self) in
  let wrote := fun o : obj =>
    (exists w, writeFileSync p (JSON_stringify (JObj o)) w = inr (world s')) /\
    In (WriteFileSync p (JSON_stringify (JObj o)) None) (delta s s') /\
    (forall t, In (WriteFileSync p t None) (delta s s') -> t = JSON_stringify (JObj o)) in
  (Client.reachable stack self s ->
   Options.r_useCache (ConfigWrapper.m_options self) = false ->
   exists o,
     wrote o /\ covers_schema self o /\
     (k <> "__proto__" -> own_property o k = Some v) /\
     forall k', k' <> k -> k' <> "__proto__" ->
       own_property o k' =
       match readFileSync p (world s) with
       | inr (Valid parsed) =>
           match last_binding (own_enumerable parsed) k' with
           | Some x => Some x
           | None => own_property presets k'
           end
       | inr Invalid | inl _ => own_property presets k'
       end) /\
  (Client.reachable_if stack self (overwrites_cover self) s ->
   Options.r_useCache (ConfigWrapper.m_options self) = true ->
   exists c cache,
     m_cache s = Some c /\ nth_error (heap s) c = Some cache /\
     wrote (obj_set cache k v) /\ covers_schema self (obj_set cache k v) /\
     (k <> "__proto__" -> own_property (obj_set cache k v) k = Some v) /\
     forall k', k' <> k -> own_property (obj_set cache k v) k' = own_property cache k').
Proof.
  intros Hrun p presets wrote. split.
  - intros Hreach Hu.
    pose proof (copy_of_flattened_plain self) as Hcopy.
    assert (Hcur : current self s = Some (on_disk self (world s))).
    { unfold current. rewrite Hu. reflexivity. }
    exists (obj_set (on_disk self (world s)) k v).
    split; [exact (alter_writes stack self k v s s' _ Hcur Hrun)|].
    split; [apply obj_set_covers, on_disk_covers|].
    split; [apply own_property_set_eq|].
    intros k' Hne Hk'. rewrite own_property_set_ne by exact Hne.
    unfold on_disk. fold p. rewrite Hcopy. fold presets.
    destruct (readFileSync p (world s)) as [e|[|parsed]]; try reflexivity.
    exact (own_property_Object_assign (plain presets) (own_enumerable parsed) k' Hk').
  - intros Hreach Hu.
    destruct (cache_covers stack self s Hreach Hu) as (c & cache & Hc & Ho & Hcov).
    assert (Hcur : current self s = Some cache).
    { unfold current. rewrite Hu, Hc. exact Ho. }
    exists c, cache. split; [exact Hc|]. split; [exact Ho|].
    split; [exact (alter_writes stack self k v s s' _ Hcur Hrun)|].
    split; [apply obj_set_covers, Hcov|].
    split; [apply own_property_set_eq|].
    intros k' Hne. apply own_property_set_ne, Hne.
Qed.

End Claims.

(** C1 fails on a file with a key [__proto__]: [Object.assign] assigns it,
    and the assignment goes to the accessor of [Object.prototype].  The
    object read has no such key, although the file has it and the presets
    do not have it; what the file gave for it has become the prototype of
    the object, so that a key neither the file nor the presets have reads
    as something.  The other key of the file is kept. *)
Theorem C1_proto_key_of_the_file_is_not_retained :
  let self := ConfigWrapper.fields Fixture.draft (Fixture.opts None None None) in
  let s := Fixture.boot (Fixture.disk_with Fixture.with_proto_key) in
  exists o s',
    ConfigWrapper.m_readFile self s = (inr (Some 0), s') /\
    nth_error (heap s') 0 = Some o /\
    In "__proto__" (map fst (own_enumerable
      (JObj [("__proto__", JObj [("colour", JStr "red")]); ("fruit", JStr "pear")]))) /\
    ~ In "__proto__" (Object_keys o) /\
    own_property o "__proto__" = None /\
    proto o = ObjectValue [("colour", JStr "red")] /\
    own_property o "fruit" = Some (JStr "pear") /\
    own_property o "colour" = None /\
    ~ In "colour" (Object_keys (Schema.m_flatten Fixture.draft)) /\
    fst (ConfigWrapper.read self (Some "colour") s)
      = inr (ConfigWrapper.Property (Data (JStr "red"))).
Proof.
  intros self s. eexists _, _. split; [vm_compute; reflexivity|].
  split; [reflexivity|].
  split; [simpl; tauto|].
  split; [simpl; intuition discriminate|].
  split; [reflexivity|]. split; [reflexivity|]. split; [reflexivity|].
  split; [reflexivity|].
  split; [vm_compute; intuition discriminate|].
  vm_compute. reflexivity.
Qed.

(** C2, on a store with a cache built over the file of the tests: its
    reads, and an alteration that the file system accepts. *)
Lemma C2_witness :
  let self := ConfigWrapper.fields Fixture.draft (Fixture.opts (Some true) None None) in
  let s := Fixture.after (Config.from Fixture.draft (Fixture.opts (Some true) None None))
                         (Fixture.boot (Fixture.disk_with (Valid (JObj [("fruit", JStr "pear")])))) in
  let s' := Fixture.after (ConfigWrapper.alter 8 self "fruit" (JStr "banana")) s in
  let o' := plain [("animal", JStr "unicorn"); ("fruit", JStr "banana");
                   ("person", JObj [("name", JStr "John"); ("age", JNum 21)]);
                   ("list", JArr [JNum 1; JNum 2; JNum 3; JNum 4; JNum 5])] in
  Client.reachable 8 self s /\
  Options.r_useCache (ConfigWrapper.m_options self) = true /\
  ConfigWrapper.read self None s = (inr (ConfigWrapper.Whole (Some 0)), s) /\
  ConfigWrapper.read self (Some "fruit") s
    = (inr (ConfigWrapper.Property (Data (JStr "pear"))), s) /\
  nth_error (heap s') 0 = Some o' /\
  own_property o' "fruit" = Some (JStr "banana") /\
  mirrored 8 Fixture.filePath (JSON_stringify (JObj o'))
    [Emit "change" (Batch [Alteration.new "fruit" (Data (JStr "banana"))])]
    s s' (inr tt).
Proof.
  intros self s s' o'.
  assert (Hr : Client.reachable 8 self s).
  { eapply Client.reach_new with (draft := Fixture.draft)
      (opts := Fixture.opts (Some true) None None)
      (s0 := Fixture.boot (Fixture.disk_with (Valid (JObj [("fruit", JStr "pear")])))).
    reflexivity. }
  split; [exact Hr|]. split; [reflexivity|].
  destruct (C2_cache_serves_reads_and_mirrors_mutations 8 self s Hr eq_refl)
    as (c & o & Hc & Ho & Hread & Hkey & Halter & _).
  vm_compute in Hc. injection Hc as <-.
  vm_compute in Ho. injection Ho as <-.
  split; [exact Hread|]. split; [exact (Hkey "fruit")|].
  assert (Hrun : ConfigWrapper.alter 8 self "fruit" (JStr "banana") s = (inr tt, s'))
    by (vm_compute; reflexivity).
  destruct (Halter "fruit" (JStr "banana") (inr tt) s' Hrun) as (_ & Hn & Hown & _ & Hmir).
  split; [exact Hn|]. split; [apply Hown; discriminate | exact Hmir].
Defined.

(** C3 fails for the key [__proto__], here a key of the schema: on a store
    with a cache whose file may not be written, [alter('__proto__', 'x')]
    raises what the write raised and emits nothing, as the claim says, but
    the cache has not been changed: it is the object it was, and
    [read('__proto__')] is still [Object.prototype], not ['x'].  Where the
    file may be written the call returns and announces the alteration, yet
    the text it wrote has no such key and [read('__proto__')] is not ['x']
    either. *)
Theorem C3_alter_of_proto_leaves_the_cache_as_it_was :
  let opts := Fixture.opts (Some true) None None in
  let self := ConfigWrapper.fields Fixture.draft_with_proto opts in
  let alter := ConfigWrapper.alter 8 self "__proto__" (JStr "x") in
  Schema.has (ConfigWrapper.m_schema self) "__proto__" = true /\
  (let s := Fixture.after (Config.from Fixture.draft_with_proto opts)
              (Fixture.boot Fixture.disk_denied) in
   let s' := Fixture.after alter s in
   Client.reachable 8 self s /\
   Fixture.outcome alter s = inl (SystemError EACCES) /\
   filter is_emit (delta s s') = [] /\
   m_cache s' = Some 0 /\
   nth_error (heap s) 0 = Some Fixture.presets /\
   nth_error (heap s') 0 = Some Fixture.presets /\
   fst (ConfigWrapper.read self (Some "__proto__") s')
     = inr (ConfigWrapper.Property (Builtin "Object.prototype"))) /\
  (let s := Fixture.after (Config.from Fixture.draft_with_proto opts)
              (Fixture.boot MemFs.empty) in
   let s' := Fixture.after alter s in
   Fixture.outcome alter s = inr tt /\
   filter is_emit (delta s s')
     = [Emit "change" (Batch [Alteration.new "__proto__" (Data (JStr "x"))])] /\
   MemFs.read Fixture.filePath (world s') = inr (JSON_stringify (JObj Fixture.presets)) /\
   fst (ConfigWrapper.read self (Some "__proto__") s')
     = inr (ConfigWrapper.Property (Builtin "Object.prototype"))).
Proof.
  intros opts self alter. split; [reflexivity|]. split.
  - intros s s'. split.
    + eapply Client.reach_new with (draft := Fixture.draft_with_proto) (opts := opts)
        (s0 := Fixture.boot Fixture.disk_denied).
      reflexivity.
    + repeat split; vm_compute; reflexivity.
  - intros s s'. repeat split; vm_compute; reflexivity.
Qed.
(** C4 as worded fails on a store that may not create its file and whose
    directory has been removed: the write fails for a missing path,
    [m_prepareResource] raises, and there is no second attempt. *)
Lemma C4_counterexample :
  ~ retries_exactly_once
      (ConfigWrapper.fields Fixture.draft (Fixture.opts None (Some false) None)) 8 (Some 0)
      (mkState [Fixture.presets] None MemFs.empty []).
Proof.
  intros H.
  specialize (H (JSON_stringify (JObj Fixture.presets)) eq_refl eq_refl).
  vm_compute in H. destruct H as [H _]. discriminate H.
Qed.

(** Nor is the number of attempts bounded by two where the path is a
    dangling link: every attempt fails for a missing path although the
    directory exists, and the writer goes on until the stack is exhausted. *)
Lemma retries_on_dangling_link :
  ~ retries_exactly_once
      (ConfigWrapper.fields Fixture.draft (Fixture.opts None None None)) 8 (Some 0)
      (mkState [Fixture.presets] None Fixture.disk_dangling []).
Proof.
  intros H.
  specialize (H (JSON_stringify (JObj Fixture.presets)) eq_refl eq_refl).
  vm_compute in H. destruct H as [H _]. discriminate H.
Qed.

(** The two runs, spelled out. *)
Example write_without_allowCreate :
  let self := ConfigWrapper.fields Fixture.draft (Fixture.opts None (Some false) None) in
  let s := mkState [Fixture.presets] None MemFs.empty [] in
  Fixture.outcome (ConfigWrapper.m_writeFile 8 self (Some 0)) s = inl ResourceDoesNotExist /\
  log (Fixture.after (ConfigWrapper.m_writeFile 8 self (Some 0)) s) =
    [WriteFileSync Fixture.filePath (Valid (JObj Fixture.presets)) (Some ENOENT);
     ExistsSync Fixture.filePath false].
Proof. split; reflexivity. Qed.

(** The first of them as a client meets it: the store is constructed while
    the file is there, the directory is removed, and [alter] raises what
    [m_prepareResource] raised. *)
Example alter_after_removal_without_allowCreate :
  let opts := Fixture.opts None (Some false) None in
  let self := ConfigWrapper.fields Fixture.draft opts in
  let s := Fixture.after (Config.from Fixture.draft opts ;; Fixture.rmSync)
             (Fixture.boot (Fixture.disk_with (Valid (JObj Fixture.presets)))) in
  Fixture.outcome (Config.from Fixture.draft opts)
    (Fixture.boot (Fixture.disk_with (Valid (JObj Fixture.presets)))) = inr self /\
  Fixture.outcome (ConfigWrapper.alter 8 self "fruit" (JStr "banana")) s
    = inl ResourceDoesNotExist /\
  count is_write (delta s (Fixture.after (ConfigWrapper.alter 8 self "fruit" (JStr "banana")) s))
    = 1.
Proof. repeat split; reflexivity. Qed.

Example write_through_dangling_link :
  let self := ConfigWrapper.fields Fixture.draft (Fixture.opts None None None) in
  let s := mkState [Fixture.presets] None Fixture.disk_dangling [] in
  Fixture.outcome (ConfigWrapper.m_writeFile 3 self (Some 0)) s = inl RangeError /\
  log (Fixture.after (ConfigWrapper.m_writeFile 3 self (Some 0)) s) =
    [WriteFileSync Fixture.filePath (Valid (JObj Fixture.presets)) (Some ENOENT);
     ExistsSync Fixture.filePath false; MkdirSync ".cache" None;
     WriteFileSync Fixture.filePath (Valid (JObj Fixture.presets)) (Some ENOENT);
     ExistsSync Fixture.filePath false; MkdirSync ".cache" None;
     WriteFileSync Fixture.filePath (Valid (JObj Fixture.presets)) (Some ENOENT);
     ExistsSync Fixture.filePath false; MkdirSync ".cache" None].
Proof. split; reflexivity. Qed.

(** C4 as amended, on a store whose directory has been removed: the second
    attempt succeeds. *)
Lemma C4_witness :
  let self := ConfigWrapper.fields Fixture.draft (Fixture.opts None None None) in
  let t := JSON_stringify (JObj Fixture.presets) in
  let s := mkState [Fixture.presets] None MemFs.empty [] in
  let run := ConfigWrapper.m_writeFile 8 self (Some 0) s in
  fst run = inr tt /\
  MemFs.read Fixture.filePath (world (snd run)) = inr t /\
  count is_write (delta s (snd run)) = 2.
Proof.
  intros self t s run.
  pose proof (C4_write_heals_then_calls_itself 7 self (Some 0) t s ENOENT eq_refl eq_refl)
    as [_ H].
  specialize (H eq_refl (inr tt) _ eq_refl). destruct H as [_ H].
  specialize (H (le_n_S 0 6 (Nat.le_0_l 6))).
  destruct H as [Hrun Hcount].
  split; [|split].
  - fold run in Hrun. rewrite Hrun. reflexivity.
  - fold run in Hrun. rewrite Hrun. reflexivity.
  - exact Hcount.
Defined.

(** C5, on the alteration the listener test of the tests waits for. *)
Lemma C5_witness :
  let self := ConfigWrapper.fields Fixture.draft (Fixture.opts None None (Some true)) in
  let s := Fixture.after (Config.from Fixture.draft (Fixture.opts None None (Some true)))
                         (Fixture.boot MemFs.empty) in
  let s' := Fixture.after (Client.invoke 8 self (Client.Alter "animal" (JStr "dog"))) s in
  exists pre,
    delta s s' =
      pre ++ [Emit "change" (Batch [Alteration.new "animal" (Data (JStr "dog"))]);
              Emit "change:animal" (Single (Data (JStr "dog")))] /\
    Forall (fun e => is_emit e = false) pre /\
    count is_batch_event (delta s s') = 1.
Proof.
  intros self s s'.
  assert (Hr : Client.reachable 8 self s).
  { eapply Client.reach_new with (draft := Fixture.draft)
      (opts := Fixture.opts None None (Some true)) (s0 := Fixture.boot MemFs.empty).
    reflexivity. }
  exact (C5_batch_event_then_per_key_events 8 self (Client.Alter "animal" (JStr "dog"))
           s s' [Alteration.new "animal" (Data (JStr "dog"))] Hr eq_refl eq_refl).
Defined.

(** The in-memory file system reads back what it has written. *)
Lemma MemFs_file_get_set (fs : list (string * text)) (p : string) (t : text) :
  MemFs.file_get (MemFs.file_set fs p t) p = Some t.
Proof.
  induction fs as [|[q x] rest IH]; simpl.
  - now rewrite String.eqb_refl.
  - destruct (String.eqb p q) eqn:E; simpl; rewrite E; [reflexivity | exact IH].
Qed.

Lemma MemFs_read_back (p : string) (t : text) (w w' : MemFs.t) :
  writeFileSync p t w = inr w' -> readFileSync p w' = inr t.
Proof.
  simpl. unfold MemFs.write, MemFs.read.
  destruct (MemFs.mem p (MemFs.dangling w)) eqn:Hd; [discriminate|].
  destruct (MemFs.is_dir w p) eqn:Hp; [discriminate|].
  destruct (negb (MemFs.is_dir w (dirname p))); [discriminate|].
  destruct (MemFs.mem p (MemFs.denied w)) eqn:Hx; [discriminate|].
  intros [= <-]. simpl. rewrite Hd.
  unfold MemFs.is_dir in *. simpl. rewrite Hp, MemFs_file_get_set, Hx. reflexivity.
Qed.

(** C6, without a cache, for an object listing the keys of the tests in
    another order. *)
Lemma C6_witness :
  let self := ConfigWrapper.fields Fixture.draft (Fixture.opts None None None) in
  let X : obj := plain [ ("list", JArr []); ("person", JNull);
                         ("fruit", JStr "pear"); ("animal", JStr "cat") ] in
  let s := mkState [X] None (Fixture.disk_with Invalid) [] in
  let s1 := Fixture.after (ConfigWrapper.overwrite 8 self (Some 0)) s in
  exists conf Y s2,
    ConfigWrapper.read self None s1 = (inr (ConfigWrapper.Whole conf), s2) /\
    lookup_ref (heap s2) conf = Some Y /\
    obj_equiv Y X.
Proof.
  intros self X s s1.
  apply (C6_overwrite_then_read_round_trip 8 self (Some 0) X s s1).
  - intros t w w'. apply MemFs_read_back.
  - reflexivity.
  - repeat (constructor; [simpl; intuition discriminate|]). constructor.
  - intros k. simpl. tauto.
  - reflexivity.
Defined.

(** A store with a cache, after [overwrite] with an object that has only
    the key [fruit]. *)
Lemma partial_overwrite_reachable :
  let self := ConfigWrapper.fields Fixture.draft (Fixture.opts (Some true) None None) in
  let s1 := Fixture.after (Config.from Fixture.draft (Fixture.opts (Some true) None None))
                          (Fixture.boot MemFs.empty) in
  let s2 := mkState (heap s1 ++ [plain [("fruit", JStr "pear")]]) (m_cache s1) (world s1) (log s1) in
  let s3 := Fixture.after (ConfigWrapper.overwrite 8 self (Some 1)) s2 in
  Client.reachable 8 self s3.
Proof.
  intros self s1 s2 s3.
  eapply Client.reach_call with (c := Client.Overwrite (Some 1)) (s := s2) (r := inr tt).
  - apply Client.reach_alloc.
    eapply Client.reach_new with (draft := Fixture.draft)
      (opts := Fixture.opts (Some true) None None) (s0 := Fixture.boot MemFs.empty).
    reflexivity.
  - simpl. discriminate.
  - exact I.
  - reflexivity.
Qed.

(** C7 as worded fails: that store's [read()] returns the object it was
    given, which lacks the key [animal] of the schema. *)
Lemma C7_counterexample :
  ~ read_has_every_schema_key
      (ConfigWrapper.fields Fixture.draft (Fixture.opts (Some true) None None)) 8.
Proof.
  intros H.
  specialize (H _ _ (Some 1) partial_overwrite_reachable eq_refl).
  destruct H as (o & Ho & Hcov).
  vm_compute in Ho. injection Ho as <-.
  specialize (Hcov "animal" (or_introl eq_refl)).
  simpl in Hcov. destruct Hcov as [H|[]]. discriminate H.
Qed.

(** C7 as amended, on the path of the tests with nothing there yet. *)
Lemma C7_witness :
  let self := ConfigWrapper.fields Fixture.draft (Fixture.opts None None None) in
  exists s1 conf s2,
    Config.from Fixture.draft (Fixture.opts None None None) (Fixture.boot MemFs.empty)
      = (inr self, s1) /\
    ConfigWrapper.read self None s1 = (inr (ConfigWrapper.Whole conf), s2) /\
    lookup_ref (heap s2) conf = Some Fixture.presets.
Proof.
  intros self.
  refine (proj1 C7_fresh_store_reads_presets_and_reads_cover_schema
            Fixture.draft (Fixture.opts None None None) (Fixture.boot MemFs.empty)
            _ ENOENT eq_refl _ eq_refl eq_refl eq_refl).
  discriminate.
Defined.

(** C8, on the store of the tests after an alteration: two resets. *)
Lemma C8_witness :
  let self := ConfigWrapper.fields Fixture.draft (Fixture.opts None None (Some true)) in
  let s := Fixture.after (ConfigWrapper.alter 8 self "fruit" (JStr "banana"))
             (Fixture.after (Config.from Fixture.draft (Fixture.opts None None (Some true)))
                (Fixture.boot MemFs.empty)) in
  let s1 := Fixture.after (ConfigWrapper.reset 8 self) s in
  let s2 := Fixture.after (ConfigWrapper.reset 8 self) s1 in
  ((exists conf s',
       ConfigWrapper.read self None s1 = (inr (ConfigWrapper.Whole conf), s') /\
       lookup_ref (heap s') conf = Some Fixture.presets) /\
   readFileSync Fixture.filePath (world s1) = inr (JSON_stringify (JObj Fixture.presets))) /\
  ((exists conf s',
       ConfigWrapper.read self None s2 = (inr (ConfigWrapper.Whole conf), s') /\
       lookup_ref (heap s') conf = Some Fixture.presets) /\
   readFileSync Fixture.filePath (world s2) = inr (JSON_stringify (JObj Fixture.presets))).
Proof.
  intros self s s1 s2.
  refine (proj2 (proj2 (C8_reset_restores_presets_idempotently 8 Fixture.draft
                          (Fixture.opts None None (Some true)) s _))
            s1 s2 eq_refl eq_refl).
  intros t w w'. apply MemFs_read_back.
Defined.

(** C9, on the trigger of the tests. *)
Lemma C9_witness :
  let self := ConfigWrapper.fields Fixture.draft (Fixture.opts None None (Some true)) in
  let s := Fixture.after (ConfigWrapper.alter 8 self "fruit" (JStr "banana"))
             (Fixture.after (Config.from Fixture.draft (Fixture.opts None None (Some true)))
                (Fixture.boot MemFs.empty)) in
  let s' := Fixture.after (ConfigWrapper.trigger self ["fruit"]) s in
  filter is_emit (delta s s') =
    [Emit "change" (Batch [Alteration.new "fruit" (Data (JStr "banana"))]);
     Emit "change:fruit" (Single (Data (JStr "banana")))] /\
  world s' = world s /\
  fst (ConfigWrapper.read self (Some "fruit") s') =
    inr (ConfigWrapper.Property (Data (JStr "banana"))).
Proof.
  intros self s s'.
  assert (Hr : Client.reachable 8 self s).
  { eapply Client.reach_call with (c := Client.Alter "fruit" (JStr "banana")) (r := inr tt)
      (s := Fixture.after (Config.from Fixture.draft (Fixture.opts None None (Some true)))
              (Fixture.boot MemFs.empty)).
    - eapply Client.reach_new with (draft := Fixture.draft)
        (opts := Fixture.opts None None (Some true)) (s0 := Fixture.boot MemFs.empty).
      reflexivity.
    - exact I.
    - exact I.
    - reflexivity. }
  destruct (C9_trigger_changes_nothing 8 self ["fruit"] s Hr)
    as (o & s0 & Ho & Hrun & Hemit & _ & _ & Hw & _ & _ & Hread).
  vm_compute in Ho. injection Ho as <-.
  assert (Hs : s0 = s') by (unfold s', Fixture.after; rewrite Hrun; reflexivity).
  rewrite Hs in *.
  split; [exact Hemit|]. split; [exact Hw|].
  destruct (Hread "fruit") as [H1 H2]. rewrite H1. exact H2.
Defined.

(** C10 as worded fails: in the store with a cache that was overwritten
    with an object having only the key [fruit], [alter] succeeds and writes
    a snapshot without the key [animal] of the schema. *)
Lemma C10_counterexample :
  ~ alter_writes_every_schema_key
      (ConfigWrapper.fields Fixture.draft (Fixture.opts (Some true) None None)) 8.
Proof.
  intros H.
  specialize (H _ _ "fruit" (JStr "banana") (JSON_stringify (JObj [("fruit", JStr "banana")]))
                partial_overwrite_reachable eq_refl).
  destruct H as (o & Ho & Hcov).
  - vm_compute. left. reflexivity.
  - injection Ho as Ho.
    specialize (Hcov "animal" (or_introl eq_refl)).
    unfold Object_keys in Hcov. rewrite <- Ho in Hcov.
    simpl in Hcov. destruct Hcov as [H|[]]. discriminate H.
Qed.

(** C10 as amended, without a cache, over a file that lacks every key of
    the schema but [fruit] and has a key of its own. *)
Lemma C10_witness :
  let self := ConfigWrapper.fields Fixture.draft (Fixture.opts None None None) in
  let s := Fixture.after (Config.from Fixture.draft (Fixture.opts None None None))
             (Fixture.boot (Fixture.disk_with
                (Valid (JObj [("fruit", JStr "pear"); ("extra", JBool true)])))) in
  let s' := Fixture.after (ConfigWrapper.alter 8 self "animal" (JStr "dog")) s in
  exists o : obj,
    readFileSync Fixture.filePath (world s') = inr (JSON_stringify (JObj o)) /\
    covers_schema self o /\
    own_property o "animal" = Some (JStr "dog") /\
    own_property o "fruit" = Some (JStr "pear") /\
    own_property o "extra" = Some (JBool true) /\
    own_property o "list" = Some (JArr [JNum 1; JNum 2; JNum 3; JNum 4; JNum 5]).
Proof.
  intros self s s'.
  assert (Hr : Client.reachable 8 self s).
  { eapply Client.reach_new with (draft := Fixture.draft)
      (opts := Fixture.opts None None None)
      (s0 := Fixture.boot (Fixture.disk_with
                (Valid (JObj [("fruit", JStr "pear"); ("extra", JBool true)])))).
    reflexivity. }
  assert (Hrun : ConfigWrapper.alter 8 self "animal" (JStr "dog") s = (inr tt, s'))
    by reflexivity.
  destruct (proj1 (C10_alter_writes_the_whole_configuration 8 self "animal" (JStr "dog")
                     s s' Hrun) Hr eq_refl)
    as (o & ((w & Hw) & _ & _) & Hcov & Hk & Hothers).
  exists o. split; [exact (MemFs_read_back _ _ _ _ Hw)|].
  split; [exact Hcov|]. split; [apply Hk; discriminate|].
  split; [|split].
  - rewrite (Hothers "fruit") by discriminate. reflexivity.
  - rewrite (Hothers "extra") by discriminate. reflexivity.
  - rewrite (Hothers "list") by discriminate. reflexivity.
Defined.

(** * The tests of the repository, run on the embedding *)

Example dirname_of_the_test_file : dirname Fixture.filePath = ".cache".
Proof. reflexivity. Qed.

Example dirname_without_directory : dirname "test.json" = ".".
Proof. reflexivity. Qed.

Example dirname_at_the_root : dirname "/test.json" = "/".
Proof. reflexivity. Qed.

Example endsWith_json : endsWith Fixture.filePath ".json" = true.
Proof. reflexivity. Qed.

Example endsWith_needs_the_dot : endsWith "testjson" ".json" = false.
Proof. reflexivity. Qed.

Example constructor_rejects_other_extensions :
  Fixture.outcome
    (Config.from Fixture.draft
       {| Options.path := "test.yaml"; Options.useCache := None;
          Options.allowCreate := None; Options.exposedEvents := None |})
    (Fixture.boot MemFs.empty)
  = inl ExpectedJsonExtension.
Proof. reflexivity. Qed.

Example constructor_needs_the_file_when_it_may_not_create :
  Fixture.outcome (Config.from Fixture.draft (Fixture.opts None (Some false) None))
    (Fixture.boot MemFs.empty)
  = inl ResourceDoesNotExist.
Proof. reflexivity. Qed.

Example flattened_of_the_test_draft : Schema.m_flatten Fixture.draft = Fixture.presets.
Proof. reflexivity. Qed.

(** [#read()]: ['animal'] is 'unicorn', ['list'] has five elements. *)
Example test_read :
  Fixture.outcome (ConfigWrapper.read Fixture.conf (Some "animal")) Fixture.initialised
    = inr (ConfigWrapper.Property (Data (JStr "unicorn"))) /\
  Fixture.outcome (ConfigWrapper.read Fixture.conf (Some "list")) Fixture.initialised
    = inr (ConfigWrapper.Property (Data (JArr [JNum 1; JNum 2; JNum 3; JNum 4; JNum 5]))).
Proof. split; reflexivity. Qed.

(** [#alter()]: ['fruit'] becomes 'banana'; the directory, removed by the
    tests, is made again on the way. *)
Example test_alter :
  Fixture.outcome
    (ConfigWrapper.alter 8 Fixture.conf "fruit" (JStr "banana") ;;
     ConfigWrapper.read Fixture.conf (Some "fruit"))
    Fixture.initialised
  = inr (ConfigWrapper.Property (Data (JStr "banana"))) /\
  delta Fixture.initialised
    (Fixture.after (ConfigWrapper.alter 8 Fixture.conf "fruit" (JStr "banana"))
       Fixture.initialised)
  = [ ReadFileSync Fixture.filePath (inl ENOENT);
      WriteFileSync Fixture.filePath
        (Valid (JObj (obj_set Fixture.presets "fruit" (JStr "banana")))) (Some ENOENT);
      ExistsSync Fixture.filePath false;
      MkdirSync ".cache" None;
      WriteFileSync Fixture.filePath
        (Valid (JObj (obj_set Fixture.presets "fruit" (JStr "banana")))) None;
      Emit "change" (Batch [Alteration.new "fruit" (Data (JStr "banana"))]);
      Emit "change:fruit" (Single (Data (JStr "banana"))) ].
Proof. split; reflexivity. Qed.

(** [#trigger]: ['fruit'] is announced with the value [read] gives. *)
Example test_trigger :
  let s := Fixture.after (ConfigWrapper.alter 8 Fixture.conf "fruit" (JStr "banana"))
             Fixture.initialised in
  filter is_emit (delta s (Fixture.after (ConfigWrapper.trigger Fixture.conf ["fruit"]) s))
  = [ Emit "change" (Batch [Alteration.new "fruit" (Data (JStr "banana"))]);
      Emit "change:fruit" (Single (Data (JStr "banana"))) ].
Proof. reflexivity. Qed.

(** [@remove]: after the directory is removed, [reset()] returns and the
    file holds the presets. *)
Example test_remove :
  let s := Fixture.after
             (ConfigWrapper.alter 8 Fixture.conf "animal" (JStr "dog") ;; Fixture.rmSync)
             Fixture.initialised in
  Fixture.outcome (ConfigWrapper.reset 8 Fixture.conf) s = inr tt /\
  MemFs.read Fixture.filePath (world (Fixture.after (ConfigWrapper.reset 8 Fixture.conf) s))
  = inr (Valid (JObj Fixture.presets)).
Proof. split; reflexivity. Qed.

(** A file holding a JSON string gives its characters as properties, over
    the presets; a file holding [null] gives nothing. *)
Example file_holding_a_string :
  let o := on_disk Fixture.conf (Fixture.disk_with (Valid (JStr "ab"))) in
  own_property o "0" = Some (JStr "a") /\ own_property o "1" = Some (JStr "b") /\
  own_property o "animal" = Some (JStr "unicorn").
Proof. repeat split; reflexivity. Qed.

Example file_holding_null :
  on_disk Fixture.conf (Fixture.disk_with (Valid JNull)) = Fixture.presets.
Proof. reflexivity. Qed.
(** * Further properties of the code *)

Section Extras.
Context {W : Type} {FS : FileSystem W}.

Lemma NoDup_copy_of_flattened (self : ConfigWrapper.t) :
  NoDup (Object_keys (ConfigWrapper.copy_of_flattened self)).
Proof. apply NoDup_Object_assign. constructor. Qed.

Lemma NoDup_on_disk (self : ConfigWrapper.t) (w : W) :
  NoDup (Object_keys (on_disk self w)).
Proof.
  unfold on_disk.
  destruct (readFileSync (ConfigWrapper.path self) w) as [e|[|parsed]];
    try apply NoDup_copy_of_flattened.
  apply NoDup_Object_assign, NoDup_copy_of_flattened.
Qed.

(** Assigning over a target an object that has all the keys of the target
    gives the properties of that object, the key [__proto__] apart. *)
Lemma Object_assign_covered (target X : obj) (k : string) :
  NoDup (Object_keys X) ->
  (forall k, In k (Object_keys target) -> In k (Object_keys X)) ->
  k <> "__proto__" ->
  own_property (Object_assign target (own_enumerable (JObj X))) k = own_property X k.
Proof.
  intros Hnd Hcov Hk. rewrite own_property_Object_assign by exact Hk.
  rewrite last_binding_own_enumerable, (last_binding_NoDup X k Hnd). fold (own_property X k).
  destruct (own_property X k) eqn:E; [reflexivity|].
  apply own_property_None. intros Hin. apply Hcov in Hin.
  apply own_property_None in E. contradiction.
Qed.

(** After [alter(k, v)] has returned, the authoritative configuration has
    the own properties of the one there was with [k] assigned [v], the key
    [__proto__] apart; with a cache it is that object. *)
Lemma alter_then_current (stack : nat) (self : ConfigWrapper.t) (k : string) (v : json)
      (s s1 : State W) (o : obj) :
  reads_back (ConfigWrapper.path self) ->
  current self s = Some o ->
  ConfigWrapper.alter stack self k v s = (inr tt, s1) ->
  exists o1,
    current self s1 = Some o1 /\
    (forall j, j <> "__proto__" -> own_property o1 j = own_property (obj_set o k v) j) /\
    (Options.r_useCache (ConfigWrapper.m_options self) = true -> o1 = obj_set o k v).
Proof.
  intros Hlaw Hcur Hrun. eapply alter_spec in Hrun; [|exact Hcur].
  destruct Hrun as (c & dl & Hfst & Hn & Hh & Hm & _ & _ & pre & w & _ & Hw & _).
  apply Hlaw in Hw. unfold current in *. unfold fetched in *.
  destruct (Options.r_useCache (ConfigWrapper.m_options self)); simpl in *.
  - exists (obj_set o k v). split; [|split; [reflexivity | reflexivity]].
    rewrite Hm, Hfst. simpl. rewrite Hh, nth_list_update, Nat.eqb_refl, Hn. reflexivity.
  - eexists. split; [reflexivity|]. split; [|discriminate].
    intros j Hj. unfold on_disk at 1. rewrite Hw.
    injection Hcur as <-. apply Object_assign_covered; [| |exact Hj].
    + apply NoDup_obj_set, NoDup_on_disk.
    + intros k' Hk'. apply keys_obj_set_kept.
      apply keys_copy_of_flattened in Hk'. apply (on_disk_covers self (world s) k' Hk').
Qed.

(** X1. Once [alter(k, v)] has returned, for a key [k] other than
    [__proto__], [read(k)] is [v], and a key other than [k] and [__proto__]
    that the configuration had of its own reads as the value it had, on a
    store with a cache or without one; with a cache [read] of every other
    key is what it was before.  Without a cache this needs the file just
    written to read back as written. *)
Theorem alter_then_read
  (stack : nat) (self : ConfigWrapper.t) (k : string) (v : json) (s s1 : State W) (o : obj) :
  reads_back (ConfigWrapper.path self) ->
  current self s = Some o ->
  k <> "__proto__" ->
  ConfigWrapper.alter stack self k v s = (inr tt, s1) ->
  fst (ConfigWrapper.read self (Some k) s1) = inr (ConfigWrapper.Property (Data v)) /\
  (forall k' x, k' <> k -> k' <> "__proto__" -> own_property o k' = Some x ->
     fst (ConfigWrapper.read self (Some k') s1) = inr (ConfigWrapper.Property (Data x))) /\
  (Options.r_useCache (ConfigWrapper.m_options self) = true ->
   forall k', k' <> k ->
     fst (ConfigWrapper.read self (Some k') s1) = fst (ConfigWrapper.read self (Some k') s)).
Proof.
  intros Hlaw Hcur Hk Hrun.
  destruct (alter_then_current stack self k v s s1 o Hlaw Hcur Hrun)
    as (o1 & Hcur1 & Hown & Hcached).
  split; [|split].
  - rewrite (read_run self (Some k) s1 o1 Hcur1). simpl.
    rewrite (obj_get_own o1 k v); [reflexivity|].
    rewrite (Hown k Hk). apply own_property_set_eq, Hk.
  - intros k' x Hne Hk' Hx.
    rewrite (read_run self (Some k') s1 o1 Hcur1). simpl.
    rewrite (obj_get_own o1 k' x); [reflexivity|].
    rewrite (Hown k' Hk'), own_property_set_ne by exact Hne. exact Hx.
  - intros Hu k' Hne.
    rewrite (read_run self (Some k') s1 o1 Hcur1), (read_run self (Some k') s o Hcur). simpl.
    rewrite (Hcached Hu), obj_get_set_ne by assumption. reflexivity.
Qed.

(** X2. Two alterations in a row, of keys other than [__proto__], compose
    as two assignments: after [alter(k1, v1)] and [alter(k2, v2)] have
    returned, [read(k2)] is [v2], [read(k1)] is [v1] when the keys differ,
    and any other key but [__proto__] that the configuration had of its
    own reads as the value it had.  So the last value written to a key
    wins, and alterations of different keys do not disturb each other. *)
Theorem alter_twice
  (stack : nat) (self : ConfigWrapper.t) (k1 k2 : string) (v1 v2 : json)
  (s s1 s2 : State W) (o : obj) :
  reads_back (ConfigWrapper.path self) ->
  current self s = Some o ->
  k1 <> "__proto__" -> k2 <> "__proto__" ->
  ConfigWrapper.alter stack self k1 v1 s = (inr tt, s1) ->
  ConfigWrapper.alter stack self k2 v2 s1 = (inr tt, s2) ->
  fst (ConfigWrapper.read self (Some k2) s2) = inr (ConfigWrapper.Property (Data v2)) /\
  (k1 <> k2 ->
   fst (ConfigWrapper.read self (Some k1) s2) = inr (ConfigWrapper.Property (Data v1))) /\
  (forall k x, k <> k1 -> k <> k2 -> k <> "__proto__" -> own_property o k = Some x ->
     fst (ConfigWrapper.read self (Some k) s2) = inr (ConfigWrapper.Property (Data x))).
Proof.
  intros Hlaw Hcur Hk1 Hk2 H1 H2.
  destruct (alter_then_current stack self k1 v1 s s1 o Hlaw Hcur H1) as (o1 & Hcur1 & Hown1 & _).
  destruct (alter_then_current stack self k2 v2 s1 s2 o1 Hlaw Hcur1 H2) as (o2 & Hcur2 & Hown2 & _).
  assert (Hread : forall k x, own_property o2 k = Some x ->
            fst (ConfigWrapper.read self (Some k) s2) = inr (ConfigWrapper.Property (Data x))).
  { intros k x Hx. rewrite (read_run self (Some k) s2 o2 Hcur2). simpl.
    now rewrite (obj_get_own o2 k x Hx). }
  split; [|split].
  - apply Hread. rewrite (Hown2 k2 Hk2). apply own_property_set_eq, Hk2.
  - intros Hne. apply Hread.
    rewrite (Hown2 k1 Hk1), own_property_set_ne by exact Hne.
    rewrite (Hown1 k1 Hk1). apply own_property_set_eq, Hk1.
  - intros k x Hn1 Hn2 Hk Hx. apply Hread.
    rewrite (Hown2 k Hk), own_property_set_ne by exact Hn2.
    rewrite (Hown1 k Hk), own_property_set_ne by exact Hn1. exact Hx.
Qed.

(** X3. In a store with a cache, once a mutation ([alter], [overwrite] or
    [reset]) has returned, the file holds the text of the cache: cache and
    disk agree after every successful mutation, where the file just written
    reads back as written. *)
Theorem mutation_leaves_disk_equal_to_cache
  (stack : nat) (self : ConfigWrapper.t) (c : Client.call) (s s' : State W) :
  Client.reachable stack self s ->
  Options.r_useCache (ConfigWrapper.m_options self) = true ->
  reads_back (ConfigWrapper.path self) ->
  is_mutation c = true ->
  Client.well_formed_call s c ->
  Client.invoke stack self c s = (inr tt, s') ->
  exists cache,
    lookup_ref (heap s') (m_cache s') = Some cache /\
    readFileSync (ConfigWrapper.path self) (world s') = inr (JSON_stringify (JObj cache)).
Proof.
  intros Hreach Hu Hlaw Hmut Hwf Hrun.
  pose proof (reachable_inv _ _ _ _ Hreach) as (_ & _ & Hready).
  destruct (current_defined _ _ Hready) as (o & Hcur).
  destruct c as [key | k v | next | | keys]; simpl in Hrun, Hmut; try discriminate.
  - eapply alter_spec in Hrun; [|exact Hcur].
    rewrite fetched_cached in Hrun by exact Hu. simpl in Hrun.
    destruct Hrun as (c & dl & Hfst & Hn & Hh & Hm & _ & _ & pre & w & _ & Hw & _).
    exists (obj_set o k v). split; [|apply (Hlaw _ _ _ Hw)].
    rewrite Hm, Hfst. simpl. rewrite Hh, nth_list_update, Nat.eqb_refl, Hn. reflexivity.
  - simpl in Hwf. destruct (lookup_ref (heap s) next) as [X|] eqn:HX; [|tauto].
    eapply overwrite_spec in Hrun; [|exact HX].
    rewrite Hu in Hrun. destruct Hrun as (Hh & Hm & dl & _ & _ & pre & w & _ & Hw & _).
    exists X. split; [rewrite Hm, Hh; exact HX | apply (Hlaw _ _ _ Hw)].
  - apply reset_spec in Hrun. rewrite Hu in Hrun.
    destruct Hrun as (Hh & Hm & dl & _ & _ & pre & w & _ & Hw & _).
    exists (ConfigWrapper.copy_of_flattened self).
    split; [rewrite Hm, Hh; simpl; apply nth_error_last | apply (Hlaw _ _ _ Hw)].
Qed.

(** What a call does to the field [m_cache]. *)
Lemma invoke_m_cache (stack : nat) (self : ConfigWrapper.t) (c : Client.call)
      (s s' : State W) (r : exn + unit) :
  cache_ready self s ->
  Client.well_formed_call s c ->
  Client.invoke stack self c s = (r, s') ->
  m_cache s' =
  if Options.r_useCache (ConfigWrapper.m_options self) then
    match c with
    | Client.Overwrite next => next
    | Client.Reset => Some (List.length (heap s))
    | _ => m_cache s
    end
  else m_cache s.
Proof.
  intros Hready Hwf Hrun.
  destruct (current_defined _ _ Hready) as (o & Hcur).
  destruct (fetched_frame self s) as (Hfm & _).
  destruct c as [key | k v | next | | keys]; simpl in Hrun.
  - erewrite bind_run in Hrun by (apply read_run; exact Hcur).
    injection Hrun as _ <-. rewrite Hfm. destruct (Options.r_useCache _); reflexivity.
  - eapply alter_spec in Hrun; [|exact Hcur].
    destruct Hrun as (c & dl & _ & _ & _ & Hm & _).
    rewrite Hm. destruct (Options.r_useCache _); reflexivity.
  - simpl in Hwf. destruct (lookup_ref (heap s) next) as [X|] eqn:HX; [|tauto].
    eapply overwrite_spec in Hrun; [|exact HX]. destruct Hrun as (_ & Hm & _). exact Hm.
  - apply reset_spec in Hrun. destruct Hrun as (_ & Hm & _). exact Hm.
  - erewrite trigger_run in Hrun by exact Hcur. injection Hrun as _ <-. simpl.
    rewrite Hfm. destruct (Options.r_useCache _); reflexivity.
Qed.

(** X4. A store without a cache never has one: whatever is called on it,
    [overwrite] and [reset] included, and whether the calls return or
    raise, [m_cache] stays [null]. *)
Theorem store_without_cache_keeps_none
  (stack : nat) (self : ConfigWrapper.t) (s : State W) :
  Client.reachable stack self s ->
  Options.r_useCache (ConfigWrapper.m_options self) = false ->
  m_cache s = None.
Proof.
  intros Hreach Hu.
  induction Hreach as [draft opts s0 s1 Hnew | c s s' r Hreach IH Hwf _ Hrun
                      | x s Hreach IH | w s Hreach IH]; try exact IH.
  - rewrite new_run in Hnew.
    destruct (negb (endsWith _ _)); [discriminate|].
    destruct (ConfigWrapper.m_prepareResource _ _) as [[e|[]] s2] eqn:Hp; [discriminate|].
    injection Hnew as Hself Hs. rewrite <- Hself in Hu. simpl in Hu.
    rewrite <- Hs. simpl. rewrite Hu.
    apply m_prepareResource_frame in Hp. destruct Hp as (_ & Hm & _). exact Hm.
  - pose proof (reachable_inv _ _ _ _ Hreach) as (_ & _ & Hready).
    rewrite (invoke_m_cache stack self c s s' r Hready Hwf Hrun), Hu. exact IH.
Qed.

(** X5. [read] never raises on a constructed store and changes nothing:
    the cache, the file system and every object there was are what they
    were, nothing is written, created or emitted; it is served from the
    cache without any call, or from exactly one read of the file; and
    reading again gives the same answer. *)
Theorem read_changes_nothing
  (stack : nat) (self : ConfigWrapper.t) (key : option string) (s : State W) :
  Client.reachable stack self s ->
  exists res s',
    ConfigWrapper.read self key s = (inr res, s') /\
    m_cache s' = m_cache s /\
    world s' = world s /\
    (forall r x, lookup_ref (heap s) r = Some x -> lookup_ref (heap s') r = Some x) /\
    delta s s' =
      (if Options.r_useCache (ConfigWrapper.m_options self) then []
       else [ReadFileSync (ConfigWrapper.path self)
               (readFileSync (ConfigWrapper.path self) (world s))]) /\
    forall k, fst (ConfigWrapper.read self (Some k) s') = fst (ConfigWrapper.read self (Some k) s).
Proof.
  intros Hreach.
  pose proof (reachable_inv _ _ _ _ Hreach) as (_ & _ & Hready).
  destruct (current_defined _ _ Hready) as (o & Hcur).
  destruct (fetched_frame self s) as (Hm & Hw & Hh & Hl).
  eexists _, _. split; [apply (read_run self key s o Hcur)|].
  split; [exact Hm|]. split; [exact Hw|]. split; [exact Hh|].
  split; [apply delta_app; exact Hl|].
  assert (Hcur' : current self (snd (fetched self s)) = Some o).
  { unfold current in *. rewrite Hw.
    destruct (Options.r_useCache (ConfigWrapper.m_options self)); [|exact Hcur].
    rewrite Hm. apply Hh, Hcur. }
  intros k. rewrite (read_run self (Some k) _ o Hcur'), (read_run self (Some k) s o Hcur).
  reflexivity.
Qed.

Lemma announce_names (exposed : bool) (B : list Alteration.t) :
  Forall (fun e => match e with
                   | Emit name _ => event_name_ok exposed name
                   | _ => True
                   end) (announce exposed B).
Proof.
  unfold announce. constructor; [left; reflexivity|].
  destruct exposed; [|constructor].
  apply Forall_forall. intros e He. apply in_map_iff in He.
  destruct He as (a & <- & _). right. split; [reflexivity|].
  exists (Alteration.key a). reflexivity.
Qed.

(** The log of any call: calls of [fs], then the batch announced if the
    call returned and commits one. *)
Lemma invoke_log (stack : nat) (self : ConfigWrapper.t) (c : Client.call)
      (s s' : State W) (r : exn + unit) :
  cache_ready self s ->
  Client.well_formed_call s c ->
  Client.invoke stack self c s = (r, s') ->
  exists quiet,
    Forall (fun e => is_emit e = false) quiet /\
    delta s s' =
      quiet ++
      match r, batch self s c with
      | inr _, Some B => announce (Options.r_exposedEvents (ConfigWrapper.m_options self)) B
      | _, _ => []
      end.
Proof.
  intros Hready Hwf Hrun.
  destruct (current_defined _ _ Hready) as (o & Hcur).
  destruct (fetched_frame self s) as (_ & _ & _ & Hfl).
  set (rd := if Options.r_useCache (ConfigWrapper.m_options self) then []
             else [ReadFileSync (ConfigWrapper.path self)
                     (readFileSync (ConfigWrapper.path self) (world s))]) in *.
  assert (Hrd : Forall (fun e => is_emit e = false) rd).
  { unfold rd. destruct (Options.r_useCache _); repeat constructor. }
  destruct c as [key | k v | next | | keys]; simpl in Hrun; simpl batch.
  - erewrite bind_run in Hrun by (apply read_run; exact Hcur).
    injection Hrun as <- <-. exists rd. split; [exact Hrd|].
    apply delta_app. rewrite Hfl, app_nil_r. reflexivity.
  - eapply alter_spec in Hrun; [|exact Hcur].
    destruct Hrun as (c & dl & _ & _ & _ & _ & Hl & Hq & _).
    exists (rd ++ dl). split.
    + apply Forall_app. split; [exact Hrd | apply (writer_effects_silent _ _ _ Hq)].
    + apply delta_app. rewrite Hl, Hfl, <- !app_assoc. destruct r; reflexivity.
  - simpl in Hwf. destruct (lookup_ref (heap s) next) as [X|] eqn:HX; [|tauto].
    eapply overwrite_spec in Hrun; [|exact HX].
    destruct Hrun as (_ & _ & dl & Hl & Hq & _).
    exists dl. split; [apply (writer_effects_silent _ _ _ Hq)|].
    apply delta_app. rewrite Hl. destruct r; reflexivity.
  - apply reset_spec in Hrun. destruct Hrun as (_ & _ & dl & Hl & Hq & _).
    exists dl. split; [apply (writer_effects_silent _ _ _ Hq)|].
    apply delta_app. rewrite Hl. destruct r; reflexivity.
  - erewrite trigger_run in Hrun by exact Hcur. injection Hrun as <- <-.
    rewrite Hcur. simpl. exists rd. split; [exact Hrd|].
    apply delta_app. simpl. rewrite Hfl, <- app_assoc. reflexivity.
Qed.
(** X6. What a store ever emits.  Every event emitted is named "change"
    or, only on a store with exposed events, "change:" followed by a key;
    a store without exposed events never emits anything but "change"; and
    [read] emits nothing at all. *)
Theorem store_emits_only_change_events
  (stack : nat) (self : ConfigWrapper.t) (c : Client.call)
  (s s' : State W) (r : exn + unit) :
  Client.reachable stack self s ->
  Client.well_formed_call s c ->
  Client.invoke stack self c s = (r, s') ->
  let exposed := Options.r_exposedEvents (ConfigWrapper.m_options self) in
  Forall (fun e => match e with
                   | Emit name _ => event_name_ok exposed name
                   | _ => True
                   end) (delta s s') /\
  ((exists key, c = Client.Read key) ->
   Forall (fun e => is_emit e = false) (delta s s')).
Proof.
  intros Hreach Hwf Hrun exposed.
  pose proof (reachable_inv _ _ _ _ Hreach) as (_ & _ & Hready).
  destruct (invoke_log stack self c s s' r Hready Hwf Hrun) as (quiet & Hq & Hd).
  rewrite Hd. split.
  - apply Forall_app. split.
    + eapply Forall_impl; [|exact Hq]. intros [] He; try exact I. discriminate He.
    + destruct r; [constructor|]. destruct (batch self s c); [|constructor].
      apply announce_names.
  - intros (key & ->). simpl. destruct r; rewrite app_nil_r; exact Hq.
Qed.


Lemma m_prepareResource_quiet (self : ConfigWrapper.t) (s s' : State W) (r : exn + unit) :
  ConfigWrapper.m_prepareResource self s = (r, s') ->
  exists d, log s' = log s ++ d /\
            Forall (fun e => is_write e = false /\ is_emit e = false /\ is_read e = false) d.
Proof.
  intros H. destruct (m_prepareResource_frame self s s' r H) as (_ & _ & d & Hl & Hd).
  exists d. split; [exact Hl|]. eapply Forall_impl; [|exact Hd].
  intros e [Hq Hw]. unfold is_quiet in Hq. apply andb_prop in Hq. destruct Hq as [H1 H2].
  repeat split; [exact Hw | |]; [destruct (is_emit e) | destruct (is_read e)];
    first [reflexivity | discriminate].
Qed.

(** X7. The constructor.  It returns exactly when the path ends in
    ".json" and the file exists or may be created and its directory can be
    made; otherwise it raises, in this order, for the extension, for the
    missing file, for the directory.  A wrong extension is found before the
    file system is touched.  Whatever the file holds never makes it raise.
    It never writes the file and never emits, and when the file exists it
    leaves the file system as it is. *)
Theorem constructor_outcome
  (draft : Draft.t) (opts : Options.IConfig) (s0 : State W) :
  let self := ConfigWrapper.fields draft opts in
  let p := Options.path opts in
  let run := Config.from draft opts s0 in
  fst run =
    (if negb (endsWith p ".json") then inl ExpectedJsonExtension
     else if existsSync p (world s0) then inr self
     else if negb (Options.r_allowCreate (Options.resolve opts)) then inl ResourceDoesNotExist
     else match mkdirSync (dirname p) (world s0) with
          | inl code => inl (SystemError code)
          | inr _ => inr self
          end) /\
  Forall (fun e => is_write e = false /\ is_emit e = false) (delta s0 (snd run)) /\
  (endsWith p ".json" = false -> delta s0 (snd run) = [] /\ world (snd run) = world s0) /\
  (existsSync p (world s0) = true -> world (snd run) = world s0).
Proof.
  intros self p run. unfold run. rewrite new_run. fold self.
  change (ConfigWrapper.path self) with p.
  set (s := mkState (heap s0) None (world s0) (log s0)).
  destruct (endsWith p ".json") eqn:Hext; simpl negb; cbv iota.
  2:{ simpl. unfold delta. simpl. rewrite skipn_all. repeat split; constructor. }
  pose proof (m_prepareResource_run self s) as Hrun.
  change (ConfigWrapper.path self) with p in Hrun. simpl world in Hrun.
  change (Options.r_allowCreate (ConfigWrapper.m_options self))
    with (Options.r_allowCreate (Options.resolve opts)) in Hrun.
  destruct (ConfigWrapper.m_prepareResource self s) as [rp s1] eqn:Hp.
  destruct (m_prepareResource_quiet self s s1 rp Hp) as (d & Hl & Hd).
  assert (Hquiet : Forall (fun e => is_write e = false /\ is_emit e = false) d).
  { eapply Forall_impl; [|exact Hd]. simpl. tauto. }
  assert (Hw1 : existsSync p (world s0) = true -> world s1 = world s0).
  { intros Hex. rewrite Hex in Hrun. injection Hrun as _ ->. reflexivity. }
  assert (Hout : match rp with
                 | inl e => @inl exn ConfigWrapper.t e
                 | inr _ => inr self
                 end =
                 (if existsSync p (world s0) then inr self
                  else if negb (Options.r_allowCreate (Options.resolve opts))
                       then inl ResourceDoesNotExist
                       else match mkdirSync (dirname p) (world s0) with
                            | inl code => inl (SystemError code)
                            | inr _ => inr self
                            end)).
  { destruct (existsSync p (world s0)); [injection Hrun as -> _; reflexivity|].
    destruct (Options.r_allowCreate (Options.resolve opts)); simpl negb; cbv iota.
    - destruct (mkdirSync (dirname p) (world s0)); injection Hrun as -> _; reflexivity.
    - injection Hrun as -> _. reflexivity. }
  change (Options.or_default (Options.allowCreate opts) Options.Default_allowCreate)
    with (Options.r_allowCreate (Options.resolve opts)).
  rewrite <- Hout. destruct rp as [e|[]]; simpl.
  - split; [reflexivity|]. split.
    + rewrite (delta_app s0 s1 d Hl). exact Hquiet.
    + split; [discriminate | exact Hw1].
  - split; [reflexivity|].
    destruct (Options.or_default (Options.useCache opts) Options.Default_useCache).
    + split.
      * erewrite delta_app; [|simpl; rewrite Hl, <- app_assoc; reflexivity].
        apply Forall_app. split; [exact Hquiet | repeat constructor].
      * split; [discriminate | simpl; exact Hw1].
    + split; [rewrite (delta_app s0 s1 d Hl); exact Hquiet|].
      split; [discriminate | exact Hw1].
Qed.
Lemma m_flatten_as_assign (d : Draft.t) :
  Schema.m_flatten d =
  Object_assign (plain []) (map (fun kv => (fst kv, Draft.preset (snd kv))) (Draft.entries d)).
Proof.
  unfold Schema.m_flatten, Object_assign. generalize (plain []).
  induction (Draft.entries d) as [|[k v] rest IH]; intros acc; simpl; [reflexivity|]. apply IH.
Qed.

Lemma props_get_map_preset (l : list (string * Draft.Value)) (k : string) :
  props_get (map (fun kv => (fst kv, Draft.preset (snd kv))) l) k =
  option_map Draft.preset (props_get l k).
Proof.
  induction l as [|[q v] rest IH]; simpl; [reflexivity|].
  destruct (String.eqb k q); [reflexivity | exact IH].
Qed.

Lemma existsb_eqb_In (k : string) (l : list string) :
  existsb (String.eqb k) l = true <-> In k l.
Proof.
  rewrite existsb_exists. split.
  - intros (x & Hin & E). apply String.eqb_eq in E. congruence.
  - intros H. exists k. split; [exact H | apply String.eqb_refl].
Qed.

Lemma keys_m_flatten (d : Draft.t) (k : string) :
  In k (Object_keys (Schema.m_flatten d)) <-> In k (map fst d) /\ k <> "__proto__".
Proof.
  split.
  - intros H. split.
    + rewrite m_flatten_as_assign in H. apply In_keys_Object_assign in H.
      destruct H as [[]|H]. rewrite map_map in H. simpl in H.
      apply (In_keys_props_of_members d k), H.
    + intros ->. exact (m_flatten_no_proto_key d H).
  - intros [H Hk]. rewrite m_flatten_as_assign.
    apply keys_Object_assign_source; [exact Hk|].
    rewrite map_map. simpl. apply (In_keys_props_of_members d k), H.
Qed.

(** Without a key [__proto__] in the draft, the flattened presets inherit
    from [Object.prototype]. *)
Lemma proto_m_flatten (d : Draft.t) :
  ~ In "__proto__" (map fst d) -> proto (Schema.m_flatten d) = ObjectPrototype.
Proof.
  intros H. rewrite m_flatten_as_assign.
  apply (Object_assign_no_proto_key (plain [])).
  rewrite map_map. simpl. intros Hin. apply H, (In_keys_props_of_members d "__proto__"), Hin.
Qed.

(** X8. The schema of a draft.  [has(key)] holds exactly for the keys of
    the draft.  The flattened presets have the keys of the draft but
    [__proto__].  For a draft whose keys are distinct, as those of an
    object are, [get(key)] is the preset the draft gives a key other than
    [__proto__].  For a key the draft does not have, [get] is not always
    [undefined]: where the draft has no key [__proto__] it is [undefined]
    exactly for the keys that are not members of [Object.prototype].
    Where moreover the draft lists its keys as an engine enumerates them,
    the flattened presets are a plain object that lists the keys of the
    draft in the order of the draft, each with its preset. *)
Theorem schema_of_draft (d : Draft.t) :
  let s := Schema.new d in
  (forall k, Schema.has s k = true <-> In k (map fst d)) /\
  (forall k, In k (Object_keys (Schema.flattened s)) <-> In k (map fst d) /\ k <> "__proto__") /\
  (NoDup (map fst d) ->
   forall k v, In (k, v) d -> k <> "__proto__" -> Schema.get s k = Data (Draft.preset v)) /\
  (~ In "__proto__" (map fst d) ->
   (forall k, Schema.has s k = false ->
      (Schema.get s k = Undefined <-> mem_string k Object_prototype_names = false) /\
      (mem_string k Object_prototype_names = true -> k <> "__proto__" ->
       Schema.get s k = Builtin ("Object.prototype." ++ k))) /\
   (NoDup (map fst d) -> enumerated (map fst d) ->
    Schema.flattened s = plain (map (fun kv => (fst kv, Draft.preset (snd kv))) d))).
Proof.
  intros s. split; [|split; [|split]].
  - intros k. unfold Schema.has. simpl. rewrite existsb_eqb_In.
    apply (In_keys_props_of_members d k).
  - intros k. apply keys_m_flatten.
  - intros Hnd k v Hin Hk. unfold Schema.get, Schema.flattened. simpl.
    apply obj_get_own. rewrite m_flatten_as_assign.
    rewrite own_property_Object_assign by exact Hk.
    rewrite last_binding_NoDup.
    2:{ rewrite map_map. simpl. apply canonical_Draft_entries. }
    rewrite props_get_map_preset. unfold Draft.entries.
    rewrite props_get_props_of_members.
    rewrite (In_props_get (rev d) k v); [reflexivity | |].
    + rewrite map_rev. apply NoDup_rev, Hnd.
    + apply in_rev. rewrite rev_involutive. exact Hin.
  - intros Hno. split.
    + intros k Hhas.
      assert (Hnot : ~ In k (Object_keys (Schema.m_flatten d))).
      { intros Hin. apply keys_m_flatten in Hin. destruct Hin as [Hin _].
        apply (In_keys_props_of_members d k) in Hin.
        unfold Schema.has in Hhas. simpl in Hhas.
        apply existsb_eqb_In in Hin. unfold Draft.keys, Draft.entries in Hhas. congruence. }
      apply own_property_None in Hnot.
      unfold Schema.get, Schema.flattened, obj_get.
      change (Schema.m_draft s) with d.
      rewrite Hnot, (proto_m_flatten d Hno). unfold inherited, from_Object_prototype.
      destruct (String.eqb_spec k "__proto__") as [->|Hk].
      * cbv iota. split; [split; [discriminate | intros H; vm_compute in H; discriminate]|].
        intros _ H. congruence.
      * cbv iota. destruct (mem_string k Object_prototype_names).
        -- split; [split; intros H; discriminate H | intros _ _; reflexivity].
        -- split; [split; reflexivity | discriminate].
    + intros Hnd Hen. unfold Schema.flattened. simpl. rewrite m_flatten_as_assign.
      assert (Hcan : canonical d) by (split; assumption).
      unfold Draft.entries. rewrite (props_of_members_canonical d Hcan).
      apply Object_assign_copy.
      * unfold canonical. rewrite map_map. simpl. exact Hcan.
      * rewrite map_map. simpl. exact Hno.
Qed.

Lemma filter_not_preset (m : list (string * json)) :
  ~ In "preset" (map fst m) ->
  filter (fun kv => negb (String.eqb (fst kv) "preset")) m = m.
Proof.
  induction m as [|[q x] rest IH]; simpl; [reflexivity|].
  intros H. destruct (String.eqb_spec q "preset") as [->|Hne]; [tauto|].
  simpl. f_equal. apply IH. tauto.
Qed.

Lemma props_get_filter_not_preset (o : list (string * json)) (k : string) :
  props_get (filter (fun kv => negb (String.eqb (fst kv) "preset")) o) k =
  if String.eqb k "preset" then None else props_get o k.
Proof.
  induction o as [|[q x] rest IH]; simpl.
  - destruct (String.eqb k "preset"); reflexivity.
  - destruct (String.eqb_spec q "preset") as [->|Hq]; simpl.
    + rewrite IH. destruct (String.eqb k "preset"); reflexivity.
    + destruct (String.eqb_spec k q) as [->|Hkq].
      * destruct (String.eqb_spec q "preset"); [contradiction | reflexivity].
      * exact IH.
Qed.

(** X9. [Preset(data, meta)] and what the schema takes from it.  The
    preset of the value is [data] whatever the metadata holds, a property
    [preset] of its own included; the value is the metadata object itself,
    so it reads as the metadata under every other key; and taking the
    value apart gives a new plain object with the own properties of the
    metadata but [preset], in their order, and the data. *)
Theorem Preset_round_trip (data : json) (meta : option obj) :
  let m := match meta with Some m => m | None => plain [] end in
  let value := PresetObject._Preset_impl data meta in
  PresetObject.preset value = Data data /\
  (forall k, k <> "preset" -> obj_get value k = obj_get m k) /\
  (forall k, own_property (PresetObject.meta value) k =
             if String.eqb k "preset" then None else own_property m k) /\
  proto (PresetObject.meta value) = ObjectPrototype /\
  (~ In "preset" (Object_keys m) ->
   PresetObject.meta value = plain m /\
   PresetObject.to_Value value = Some {| Draft.preset := data; Draft.meta := plain m |}).
Proof.
  intros m value.
  assert (Hne : "preset" <> "__proto__") by discriminate.
  assert (Hval : value = obj_set m "preset" data) by reflexivity.
  split; [unfold PresetObject.preset; rewrite Hval; apply obj_get_set_eq, Hne|].
  split; [intros k Hk; rewrite Hval; apply obj_get_set_ne; assumption|].
  split.
  - intros k. unfold PresetObject.meta, own_property. simpl.
    rewrite props_get_filter_not_preset. fold (own_property value k).
    rewrite Hval, own_property_set.
    destruct (String.eqb k "preset"); reflexivity.
  - split; [reflexivity|]. intros Hnot.
    assert (Hmeta : PresetObject.meta value = plain m).
    { unfold PresetObject.meta. f_equal. rewrite Hval. unfold obj_set.
      rewrite defines_ordinary by exact Hne. simpl. unfold props_set.
      replace (props_has (props m) "preset") with false.
      2:{ symmetry. apply Bool.not_true_is_false. intros H.
          apply props_has_In in H. exact (Hnot H). }
      rewrite props_insert_last by (apply Forall_forall; intros a _; reflexivity).
      rewrite filter_app. simpl. rewrite app_nil_r. apply filter_not_preset, Hnot. }
    split; [exact Hmeta|].
    unfold PresetObject.to_Value, PresetObject.preset.
    rewrite Hmeta, Hval, obj_get_set_eq by exact Hne. reflexivity.
Qed.

(** The earlier writer: one attempt, and the error of [fs] as it is. *)
Lemma earlier_m_writeFile_run (self : ConfigWrapper.t) (next : ref) (t : text) (s : State W) :
  text_of (heap s) next = Some t ->
  Earlier.m_writeFile self next s =
  match writeFileSync (ConfigWrapper.path self) t (world s) with
  | inr w' =>
      (inr tt, mkState (heap s) (m_cache s) w'
                 (log s ++ [WriteFileSync (ConfigWrapper.path self) t None]))
  | inl code =>
      (inl (SystemError code),
       append (WriteFileSync (ConfigWrapper.path self) t (Some code)) s)
  end.
Proof.
  intros Ht. unfold Earlier.m_writeFile.
  erewrite bind_run by (rewrite stringify_run, Ht; reflexivity).
  unfold bind, fs_writeFileSync, Earlier.path. fold (ConfigWrapper.path self).
  destruct (writeFileSync (ConfigWrapper.path self) t (world s)); reflexivity.
Qed.

Lemma earlier_alter_run (self : ConfigWrapper.t) (k : string) (v : json)
      (s : State W) (c : nat) (o : obj) :
  m_cache s = Some c ->
  nth_error (heap s) c = Some o ->
  let p := ConfigWrapper.path self in
  let t := JSON_stringify (JObj (obj_set o k v)) in
  let h := list_update (heap s) c (obj_set o k v) in
  Earlier.alter self k v s =
  match writeFileSync p t (world s) with
  | inr w' =>
      (inr tt, mkState h (m_cache s) w'
                 ((log s ++ [WriteFileSync p t None]) ++
                  [Emit "change" (Batch [Alteration.new k (Data v)])]))
  | inl code =>
      (inl (SystemError code),
       mkState h (m_cache s) (world s) (log s ++ [WriteFileSync p t (Some code)]))
  end.
Proof.
  intros Hc Ho p t h. unfold Earlier.alter.
  erewrite bind_run by reflexivity. rewrite Hc.
  erewrite bind_run by (apply set_prop_run; exact Ho).
  erewrite bind_run by reflexivity. simpl m_cache. rewrite Hc.
  unfold bind. rewrite (earlier_m_writeFile_run self (Some c) t).
  2:{ apply (text_of_updated _ _ o _ Ho). }
  simpl world. fold p.
  destruct (writeFileSync p t (world s)); reflexivity.
Qed.

(** X10. The earlier constructor (part_000) always returns, whatever the
    path and whatever the file system holds: it checks neither the
    extension nor the resource, and prepares the cache even for a store
    that does not use one, with one read of the file. *)
Theorem earlier_constructor_always_prepares_cache
  (draft : Draft.t) (opts : Options.IConfig) (s0 : State W) :
  let self := ConfigWrapper.fields draft opts in
  let p := Options.path opts in
  exists s1,
    Earlier.new draft opts s0 = (inr self, s1) /\
    m_cache s1 = Some (List.length (heap s0)) /\
    heap s1 = heap s0 ++ [on_disk self (world s0)] /\
    world s1 = world s0 /\
    delta s0 s1 = [ReadFileSync p (readFileSync p (world s0))].
Proof.
  intros self p. unfold Earlier.new. fold self.
  eexists. split.
  - erewrite bind_run by reflexivity.
    erewrite bind_run.
    2:{ unfold Earlier.m_prepareCache.
        erewrite bind_run by (apply (m_readFile_run self)). reflexivity. }
    reflexivity.
  - simpl. repeat split. apply delta_app. reflexivity.
Qed.

(** X11. The earlier [alter] (part_000), on a store it constructed.  It
    works on the cache whether the store uses one or not: it never reads
    the file, sets the key in the cache, and makes exactly one attempt to
    write the text of the cache.  If the attempt fails, for a missing path
    as for anything else, the error is raised as it is, the cache keeps the
    new value and nothing is emitted; if it succeeds, "change" is emitted
    once with the one alteration. *)
Theorem earlier_alter_writes_cache_once
  (self : ConfigWrapper.t) (k : string) (v : json) (s s' : State W)
  (c : nat) (o : obj) (r : exn + unit) :
  m_cache s = Some c ->
  nth_error (heap s) c = Some o ->
  Earlier.alter self k v s = (r, s') ->
  let p := ConfigWrapper.path self in
  let t := JSON_stringify (JObj (obj_set o k v)) in
  m_cache s' = Some c /\
  nth_error (heap s') c = Some (obj_set o k v) /\
  match writeFileSync p t (world s) with
  | inr w' =>
      r = inr tt /\ world s' = w' /\
      delta s s' = [WriteFileSync p t None;
                    Emit "change" (Batch [Alteration.new k (Data v)])]
  | inl code =>
      r = inl (SystemError code) /\ world s' = world s /\
      delta s s' = [WriteFileSync p t (Some code)]
  end.
Proof.
  intros Hc Ho Hrun p t.
  rewrite (earlier_alter_run self k v s c o Hc Ho) in Hrun. fold p t in Hrun.
  assert (Hn : nth_error (list_update (heap s) c (obj_set o k v)) c = Some (obj_set o k v)).
  { rewrite nth_list_update, Nat.eqb_refl, Ho. reflexivity. }
  destruct (writeFileSync p t (world s)); injection Hrun as <- <-; simpl.
  - repeat split; try assumption. apply delta_app. reflexivity.
  - repeat split; try assumption. apply delta_app. simpl. rewrite <- app_assoc. reflexivity.
Qed.

(** X12. The two versions of the class agree on a store with a cache and
    without exposed events, as long as the write does not fail for a
    missing path: [read] is the same function, and [alter] and
    [overwrite] end in the same outcome and the same state.  Healing a
    missing path and the per-key events are all that the later version adds
    there. *)
Theorem versions_agree_on_cached_store
  (stack : nat) (self : ConfigWrapper.t) (k : string) (v : json)
  (s : State W) (c : nat) (o : obj) :
  Options.r_useCache (ConfigWrapper.m_options self) = true ->
  Options.r_exposedEvents (ConfigWrapper.m_options self) = false ->
  1 <= stack ->
  m_cache s = Some c ->
  nth_error (heap s) c = Some o ->
  writeFileSync (ConfigWrapper.path self) (JSON_stringify (JObj (obj_set o k v))) (world s)
    <> inl ENOENT ->
  (forall key s0, ConfigWrapper.read self key s0 = Earlier.read self key s0) /\
  ConfigWrapper.alter stack self k v s = Earlier.alter self k v s /\
  (forall next X s0,
      lookup_ref (heap s0) next = Some X ->
      writeFileSync (ConfigWrapper.path self) (JSON_stringify (JObj X)) (world s0)
        <> inl ENOENT ->
      ConfigWrapper.overwrite stack self next s0 = Earlier.overwrite self next s0).
Proof.
  intros Hu Hx Hs Hc Ho Hne. split; [reflexivity|]. split.
  2:{ intros next X s0 HX HneX.
      assert (Ht : text_of (heap s0) next = Some (JSON_stringify (JObj X))).
      { destruct next as [l|]; [|discriminate]. simpl in *. rewrite HX. reflexivity. }
      unfold ConfigWrapper.overwrite, Earlier.overwrite. rewrite Hu.
      set (s1 := mkState (heap s0) next (world s0) (log s0)).
      assert (H1 : write_cache next s0 = (inr tt, s1)) by reflexivity.
      rewrite (bind_run _ _ s0 s1 tt H1), (bind_run _ _ s0 s1 tt H1).
      destruct stack as [|d]; [lia|].
      destruct (writeFileSync (ConfigWrapper.path self) (JSON_stringify (JObj X)) (world s0))
        as [code|w'] eqn:Hw.
      - assert (E : errno_eqb code ENOENT = false)
          by (destruct code; first [reflexivity | congruence]).
        assert (HL : ConfigWrapper.m_writeFile (S d) self next s1 =
                     (inl (SystemError code),
                      append (WriteFileSync (ConfigWrapper.path self)
                                (JSON_stringify (JObj X)) (Some code)) s1)).
        { unfold ConfigWrapper.m_writeFile.
          rewrite (m_writeFile_at_S self d next s1 (JSON_stringify (JObj X)) Ht).
          simpl world. rewrite Hw, E. reflexivity. }
        assert (HR : Earlier.m_writeFile self next s1 =
                     (inl (SystemError code),
                      append (WriteFileSync (ConfigWrapper.path self)
                                (JSON_stringify (JObj X)) (Some code)) s1)).
        { rewrite (earlier_m_writeFile_run self next (JSON_stringify (JObj X)) s1 Ht).
          simpl world. rewrite Hw. reflexivity. }
        rewrite (bind_throw _ _ _ _ _ HL), (bind_throw _ _ _ _ _ HR). reflexivity.
      - set (s2 := mkState (heap s1) (m_cache s1) w'
                     (log s1 ++ [WriteFileSync (ConfigWrapper.path self)
                                   (JSON_stringify (JObj X)) None])).
        assert (HL : ConfigWrapper.m_writeFile (S d) self next s1 = (inr tt, s2)).
        { unfold ConfigWrapper.m_writeFile.
          rewrite (m_writeFile_at_S self d next s1 (JSON_stringify (JObj X)) Ht).
          simpl world. rewrite Hw. reflexivity. }
        assert (HR : Earlier.m_writeFile self next s1 = (inr tt, s2)).
        { rewrite (earlier_m_writeFile_run self next (JSON_stringify (JObj X)) s1 Ht).
          simpl world. rewrite Hw. reflexivity. }
        rewrite (bind_run _ _ _ _ _ HL), (bind_run _ _ _ _ _ HR).
        assert (Hd : deref next s2 = (inr X, s2)).
        { unfold deref. simpl. rewrite HX. reflexivity. }
        rewrite (bind_run _ _ _ _ _ Hd), (bind_run _ _ _ _ _ Hd).
        rewrite m_emitAlterations_run, Hx. reflexivity. }
  rewrite (earlier_alter_run self k v s c o Hc Ho).
  unfold ConfigWrapper.alter.
  erewrite bind_run by apply m_current_run.
  rewrite fetched_cached by exact Hu. simpl fst. simpl snd. rewrite Hc.
  erewrite bind_run by (apply set_prop_run; exact Ho).
  unfold ConfigWrapper.m_writeFile. destruct stack as [|d]; [lia|].
  unfold bind at 1.
  rewrite (m_writeFile_at_S self d (Some c) _ (JSON_stringify (JObj (obj_set o k v)))).
  2:{ apply (text_of_updated _ _ o _ Ho). }
  simpl world.
  destruct (writeFileSync (ConfigWrapper.path self)
              (JSON_stringify (JObj (obj_set o k v))) (world s)) as [code|w'].
  - assert (E : errno_eqb code ENOENT = false)
      by (destruct code; first [reflexivity | congruence]).
    rewrite E, ?Hc. reflexivity.
  - rewrite m_emitAlterations_run, Hx, ?Hc. reflexivity.
Qed.

(** X13. [overwrite] with any object, complete or not.  With a cache, the
    [read()] that follows returns the very object that was given, by
    reference and without a copy.  Without a cache it returns a new object
    in which a key other than [__proto__] has the value the given object
    gave it and otherwise its preset: what the object lacks is filled in
    from the presets, and the object given is left as it is. *)
Theorem overwrite_then_read_any_object
  (stack : nat) (self : ConfigWrapper.t) (next : ref) (X : obj) (s s1 : State W) :
  reads_back (ConfigWrapper.path self) ->
  lookup_ref (heap s) next = Some X ->
  NoDup (Object_keys X) ->
  ConfigWrapper.overwrite stack self next s = (inr tt, s1) ->
  exists conf Y s2,
    ConfigWrapper.read self None s1 = (inr (ConfigWrapper.Whole conf), s2) /\
    lookup_ref (heap s2) conf = Some Y /\
    lookup_ref (heap s2) next = Some X /\
    (Options.r_useCache (ConfigWrapper.m_options self) = true ->
     conf = next /\ s2 = s1) /\
    (Options.r_useCache (ConfigWrapper.m_options self) = false ->
     conf = Some (List.length (heap s1)) /\ conf <> next /\
     forall k, k <> "__proto__" ->
       own_property Y k =
       match own_property X k with
       | Some x => Some x
       | None => own_property (Schema.flattened (ConfigWrapper.m_schema self)) k
       end).
Proof.
  intros Hlaw HX Hnd Hrun.
  pose proof (copy_of_flattened_plain self) as Hcopy.
  destruct (overwrite_then_current stack self next X s s1 Hlaw HX Hrun) as [Hcur _].
  eapply overwrite_spec in Hrun; [|exact HX]. destruct Hrun as (Hh & Hm & _).
  eexists _, _, _. split; [apply (read_run self None s1 _ Hcur)|].
  split; [apply (fetched_current self s1 _ Hcur)|].
  destruct (fetched_frame self s1) as (_ & _ & Hkeep & _).
  split; [apply Hkeep; rewrite Hh; exact HX|].
  unfold fetched.
  destruct (Options.r_useCache (ConfigWrapper.m_options self)); simpl.
  - split; [intros _ | discriminate]. split; [exact Hm | reflexivity].
  - split; [discriminate | intros _]. split; [reflexivity|]. split.
    + intros E. rewrite <- E in HX. simpl in HX. rewrite Hh in HX.
      assert (Hnone : nth_error (heap s) (List.length (heap s)) = None)
        by (apply nth_error_None; lia).
      congruence.
    + intros k Hk. rewrite own_property_Object_assign by exact Hk.
      change (props_of_members X) with (own_enumerable (JObj X)).
      rewrite last_binding_own_enumerable, (last_binding_NoDup X k Hnd), Hcopy.
      reflexivity.
Qed.

(** X14. What a later [alter] does to the object given to [overwrite].
    With a cache the store keeps that object itself, so [alter(k, v)]
    sets [k] in the caller's object, whether its write then succeeds or
    not; without a cache the caller's object is never touched. *)
Theorem alter_after_overwrite_and_the_object_given
  (stack : nat) (self : ConfigWrapper.t) (next : ref) (X : obj)
  (k : string) (v : json) (s s1 s2 : State W) (r : exn + unit) :
  lookup_ref (heap s) next = Some X ->
  ConfigWrapper.overwrite stack self next s = (inr tt, s1) ->
  ConfigWrapper.alter stack self k v s1 = (r, s2) ->
  lookup_ref (heap s2) next =
  Some (if Options.r_useCache (ConfigWrapper.m_options self) then obj_set X k v else X).
Proof.
  intros HX Hover Halter.
  eapply overwrite_spec in Hover; [|exact HX]. destruct Hover as (Hh & Hm & _).
  assert (HX1 : lookup_ref (heap s1) next = Some X) by (rewrite Hh; exact HX).
  assert (Hcur : exists o, current self s1 = Some o /\
                 (Options.r_useCache (ConfigWrapper.m_options self) = true -> o = X)).
  { unfold current. destruct (Options.r_useCache (ConfigWrapper.m_options self)).
    - exists X. rewrite Hm. split; [exact HX1 | reflexivity].
    - eexists. split; [reflexivity | discriminate]. }
  destruct Hcur as (o & Hcur & Ho).
  eapply alter_spec in Halter; [|exact Hcur].
  destruct Halter as (c & dl & Hfst & Hn & Hh2 & _).
  destruct next as [l|]; [|discriminate]. simpl in *.
  rewrite Hh2, nth_list_update. unfold fetched in *.
  destruct (Options.r_useCache (ConfigWrapper.m_options self)); simpl in *.
  - rewrite Hm in Hfst. injection Hfst as <-. rewrite Nat.eqb_refl, HX1, (Ho eq_refl).
    reflexivity.
  - injection Hfst as <-.
    assert (Hlt : l < List.length (heap s1)) by (apply nth_error_Some; congruence).
    destruct (Nat.eqb_spec l (List.length (heap s1))) as [E|_]; [lia|].
    rewrite nth_error_app1 by exact Hlt. exact HX1.
Qed.

(** X15. Starting again.  Once [alter(k, v)] has returned on a store, for
    a key [k] other than [__proto__], a store constructed afresh over the
    same path and draft, with a cache or without, is constructed without
    error and reads [v] for [k] and, for every other key but [__proto__]
    that the configuration had of its own, the value it had.  This needs
    the file just written to exist and to read back as written, and the
    configuration to have distinct keys, as an object has. *)
Theorem restart_reads_what_was_written
  (stack : nat) (draft : Draft.t) (opts opts' : Options.IConfig)
  (k : string) (v : json) (s s1 : State W) (o : obj) :
  let self := ConfigWrapper.fields draft opts in
  let self' := ConfigWrapper.fields draft opts' in
  let p := Options.path opts in
  Options.path opts' = p ->
  Client.reachable stack self s ->
  reads_back p ->
  exists_once_written p ->
  current self s = Some o ->
  NoDup (Object_keys o) ->
  k <> "__proto__" ->
  ConfigWrapper.alter stack self k v s = (inr tt, s1) ->
  exists s2,
    Config.from draft opts' s1 = (inr self', s2) /\
    fst (ConfigWrapper.read self' (Some k) s2) = inr (ConfigWrapper.Property (Data v)) /\
    forall k' x, k' <> k -> k' <> "__proto__" -> own_property o k' = Some x ->
      fst (ConfigWrapper.read self' (Some k') s2) = inr (ConfigWrapper.Property (Data x)).
Proof.
  intros self self' p Hpath Hreach Hback Hexists Hcur Hnd Hk Hrun.
  pose proof (reachable_inv _ _ _ _ Hreach) as (_ & Hext & _).
  change (ConfigWrapper.path self) with p in Hext.
  eapply alter_spec in Hrun; [|exact Hcur].
  destruct Hrun as (c & dl & _ & _ & _ & _ & _ & _ & pre & w & _ & Hw & _).
  change (ConfigWrapper.path self) with p in Hw.
  pose proof (Hback _ _ _ Hw) as Hread. pose proof (Hexists _ _ _ Hw) as Hex.
  assert (Hp' : ConfigWrapper.path self' = p) by exact Hpath.
  assert (Hdisk : on_disk self' (world s1) =
                  Object_assign (plain (Schema.m_flatten draft))
                                (own_enumerable (JObj (obj_set o k v)))).
  { unfold self'. rewrite on_disk_fields, Hpath, Hread. reflexivity. }
  assert (Hget : forall k', k' <> "__proto__" ->
                   own_property (on_disk self' (world s1)) k' =
                   match own_property (obj_set o k v) k' with
                   | Some x => Some x
                   | None => own_property (plain (Schema.m_flatten draft)) k'
                   end).
  { intros k' Hk'. rewrite Hdisk, own_property_Object_assign by exact Hk'.
    rewrite last_binding_own_enumerable, last_binding_NoDup; [reflexivity|].
    apply NoDup_obj_set, Hnd. }
  rewrite new_run. fold self'. rewrite Hp', Hext. simpl negb. cbv iota.
  rewrite m_prepareResource_run. simpl world. rewrite Hp', Hex.
  eexists. split; [reflexivity|].
  set (s2 := if Options.r_useCache (ConfigWrapper.m_options self') then _ else _).
  assert (Hcur2 : current self' s2 = Some (on_disk self' (world s1))).
  { unfold current, s2.
    destruct (Options.r_useCache (ConfigWrapper.m_options self')); simpl.
    - apply nth_error_last.
    - reflexivity. }
  split.
  - rewrite (read_run self' (Some k) s2 _ Hcur2). simpl.
    rewrite (obj_get_own _ k v); [reflexivity|].
    rewrite (Hget k Hk), own_property_set_eq by exact Hk. reflexivity.
  - intros k' x Hne Hk' Hx. rewrite (read_run self' (Some k') s2 _ Hcur2). simpl.
    rewrite (obj_get_own _ k' x); [reflexivity|].
    rewrite (Hget k' Hk'), own_property_set_ne, Hx by exact Hne. reflexivity.
Qed.

(** X16. The store heals a removed directory.  When the write of
    [alter(k, v)] fails because the path is missing, the file is not
    there, the store may create it and the directory can be made, and the
    write then succeeds, [alter] returns: the directory has been made, the
    whole configuration written, and the batch announced after two
    attempts to write. *)
Theorem alter_heals_a_missing_directory
  (stack : nat) (self : ConfigWrapper.t) (k : string) (v : json)
  (s : State W) (o : obj) (w1 w2 : W) :
  let p := ConfigWrapper.path self in
  let t := JSON_stringify (JObj (obj_set o k v)) in
  2 <= stack ->
  Options.r_allowCreate (ConfigWrapper.m_options self) = true ->
  current self s = Some o ->
  writeFileSync p t (world s) = inl ENOENT ->
  existsSync p (world s) = false ->
  mkdirSync (dirname p) (world s) = inr w1 ->
  writeFileSync p t w1 = inr w2 ->
  exists s',
    ConfigWrapper.alter stack self k v s = (inr tt, s') /\
    world s' = w2 /\
    delta s s' =
      (if Options.r_useCache (ConfigWrapper.m_options self) then []
       else [ReadFileSync p (readFileSync p (world s))]) ++
      [WriteFileSync p t (Some ENOENT); ExistsSync p false; MkdirSync (dirname p) None;
       WriteFileSync p t None] ++
      announce (Options.r_exposedEvents (ConfigWrapper.m_options self))
        [Alteration.new k (Data v)].
Proof.
  intros p t Hs Hallow Hcur Hfail Hex Hmk Hok.
  pose proof (fetched_current self s o Hcur) as Hconf.
  destruct (fetched_frame self s) as (_ & Hw & _ & Hl).
  destruct (fst (fetched self s)) as [c|] eqn:Hfst; [|discriminate]. simpl in Hconf.
  set (s1 := snd (fetched self s)) in *.
  unfold ConfigWrapper.alter.
  erewrite bind_run by apply m_current_run. rewrite Hfst. fold s1.
  erewrite bind_run by (apply set_prop_run; exact Hconf).
  set (sa := mkState (list_update (heap s1) c (obj_set o k v)) (m_cache s1) (world s1) (log s1)).
  assert (Ht : text_of (heap sa) (Some c) = Some t) by apply (text_of_updated _ _ o _ Hconf).
  destruct stack as [|[|d]]; try lia.
  assert (Hwrite : ConfigWrapper.m_writeFile (S (S d)) self (Some c) sa =
            (inr tt, mkState (heap sa) (m_cache sa) w2
                       (((log sa ++ [WriteFileSync p t (Some ENOENT)]) ++
                         [ExistsSync p false; MkdirSync (dirname p) None]) ++
                        [WriteFileSync p t None]))).
  { unfold ConfigWrapper.m_writeFile.
    rewrite (m_writeFile_at_S self (S d) (Some c) sa t Ht). fold p.
    simpl world. rewrite Hw, Hfail. simpl errno_eqb. cbv iota.
    rewrite m_prepareResource_run. fold p. simpl world. rewrite Hw, Hex, Hallow, Hmk.
    simpl heap. simpl m_cache. simpl log.
    set (sb := mkState (heap sa) (m_cache sa) w1
                 ((log sa ++ [WriteFileSync p t (Some ENOENT)]) ++
                  [ExistsSync p false; MkdirSync (dirname p) None])).
    assert (Htb : text_of (heap sb) (Some c) = Some t) by exact Ht.
    change (ConfigWrapper.m_writeFile_at self (S d) (Some c) sb = (inr tt,
              mkState (heap sa) (m_cache sa) w2
                (((log sa ++ [WriteFileSync p t (Some ENOENT)]) ++
                  [ExistsSync p false; MkdirSync (dirname p) None]) ++
                 [WriteFileSync p t None]))).
    rewrite (m_writeFile_at_S self d (Some c) sb t Htb). fold p. simpl world.
    rewrite Hok. reflexivity. }
  erewrite bind_run by exact Hwrite. rewrite m_emitAlterations_run.
  eexists. split; [reflexivity|]. split; [reflexivity|].
  apply delta_app. simpl. rewrite Hl, <- !app_assoc. reflexivity.
Qed.

(** X17. Reading a key that is not there.  On a store without a cache
    [read(k)] never raises.  Where the file holds no key [__proto__],
    [read(k)] is [undefined] exactly when [k] is neither a key of the
    draft, nor a property of what the file holds, nor a member of
    [Object.prototype]; and a key of the draft other than [__proto__]
    always reads as a value. *)
Theorem read_is_undefined_only_for_absent_keys
  (draft : Draft.t) (opts : Options.IConfig) (k : string) (s : State W) :
  let self := ConfigWrapper.fields draft opts in
  let p := Options.path opts in
  let in_file := fun key : string =>
    match readFileSync p (world s) with
    | inr (Valid parsed) => In key (map fst (own_enumerable parsed))
    | inr Invalid | inl _ => False
    end in
  Options.r_useCache (ConfigWrapper.m_options self) = false ->
  (exists v, fst (ConfigWrapper.read self (Some k) s) = inr (ConfigWrapper.Property v)) /\
  (~ in_file "__proto__" ->
   (fst (ConfigWrapper.read self (Some k) s) = inr (ConfigWrapper.Property Undefined) <->
    ~ In k (map fst draft) /\ ~ in_file k /\ mem_string k Object_prototype_names = false) /\
   (In k (map fst draft) -> k <> "__proto__" ->
    exists v, fst (ConfigWrapper.read self (Some k) s)
              = inr (ConfigWrapper.Property (Data v)))).
Proof.
  intros self p in_file Hu.
  assert (Hcur : current self s = Some (on_disk self (world s))).
  { unfold current. rewrite Hu. reflexivity. }
  rewrite (read_run self (Some k) s _ Hcur). simpl fst.
  split; [eexists; reflexivity|].
  intros Hnoproto.
  set (o := on_disk self (world s)).
  assert (Hproto : proto o = ObjectPrototype).
  { unfold o, self. rewrite on_disk_fields. fold p. unfold in_file in Hnoproto.
    destruct (readFileSync p (world s)) as [e|[|parsed]]; try reflexivity.
    apply (Object_assign_no_proto_key (plain (Schema.m_flatten draft))), Hnoproto. }
  assert (Hkeys : forall j, j <> "__proto__" ->
            (In j (Object_keys o) <-> In j (map fst draft) \/ in_file j)).
  { intros j Hj. unfold o, self. rewrite on_disk_fields. fold p. unfold in_file.
    pose proof (keys_m_flatten draft j) as Hflat.
    destruct (readFileSync p (world s)) as [e|[|parsed]].
    - change (Object_keys (plain (Schema.m_flatten draft)))
        with (Object_keys (Schema.m_flatten draft)). tauto.
    - change (Object_keys (plain (Schema.m_flatten draft)))
        with (Object_keys (Schema.m_flatten draft)). tauto.
    - split.
      + intros H. apply In_keys_Object_assign in H.
        change (Object_keys (plain (Schema.m_flatten draft)))
          with (Object_keys (Schema.m_flatten draft)) in H. tauto.
      + intros [H|H].
        * apply keys_Object_assign_kept.
          change (Object_keys (plain (Schema.m_flatten draft)))
            with (Object_keys (Schema.m_flatten draft)). tauto.
        * apply keys_Object_assign_source; assumption. }
  assert (Hmem : mem_string "__proto__" Object_prototype_names = true) by reflexivity.
  split.
  - unfold obj_get. rewrite Hproto. unfold inherited, from_Object_prototype.
    destruct (own_property o k) as [x|] eqn:Hown.
    + split; [discriminate|]. intros (Hd & Hf & Hm). exfalso.
      assert (Hk : k <> "__proto__") by (intros ->; congruence).
      assert (Hin : In k (Object_keys o)).
      { apply has_key_In. apply (own_property_has o k x Hown). }
      apply (Hkeys k Hk) in Hin. tauto.
    + apply own_property_None in Hown.
      destruct (String.eqb_spec k "__proto__") as [->|Hk].
      * split; [discriminate|]. intros (_ & _ & Hm). congruence.
      * destruct (mem_string k Object_prototype_names) eqn:Hm.
        -- split; [discriminate|]. intros (_ & _ & H). discriminate H.
        -- split; [|reflexivity]. intros _.
           rewrite (Hkeys k Hk) in Hown. tauto.
  - intros Hd Hk.
    assert (Hin : In k (Object_keys o)) by (apply (Hkeys k Hk); now left).
    destruct (own_property o k) as [x|] eqn:Hown.
    + exists x. now rewrite (obj_get_own o k x Hown).
    + apply own_property_None in Hown. contradiction.
Qed.

(** X18. Reading the configuration never raises.  It returns a new object:
    when the file is read and parsed, that object holds, under every key
    but [__proto__], the value the file gives it and otherwise the preset,
    so a key of the file alone and a key of the presets alone are both
    there; where the file has no key [__proto__] the object has none
    either and inherits from [Object.prototype]; when the file is missing,
    unreadable or not JSON, the object is a plain copy of the flattened
    presets.  In particular a store with a cache is constructed over a file
    that is not JSON, and its [read()] gives that copy. *)
Theorem m_readFile_merges_file_over_defaults
  (draft : Draft.t) (opts : Options.IConfig) (s : State W) :
  let self := ConfigWrapper.fields draft opts in
  let p := Options.path opts in
  (exists o s',
      ConfigWrapper.m_readFile self s = (inr (Some (List.length (heap s))), s') /\
      heap s' = heap s ++ [o] /\ m_cache s' = m_cache s /\ world s' = world s /\
      match readFileSync p (world s) with
      | inr (Valid parsed) =>
          (forall k, k <> "__proto__" ->
             own_property o k =
             match last_binding (own_enumerable parsed) k with
             | Some v => Some v
             | None => own_property (Schema.m_flatten draft) k
             end) /\
          (forall k, k <> "__proto__" ->
             (In k (Object_keys o) <->
              In k (map fst draft) \/ In k (map fst (own_enumerable parsed)))) /\
          (~ In "__proto__" (map fst (own_enumerable parsed)) ->
           proto o = ObjectPrototype /\ ~ In "__proto__" (Object_keys o))
      | inr Invalid | inl _ => o = plain (Schema.m_flatten draft)
      end)
  /\
  (Options.useCache opts = Some true ->
   endsWith p ".json" = true ->
   existsSync p (world s) = true ->
   readFileSync p (world s) = inr Invalid ->
   exists s1 c,
     Config.from draft opts s = (inr self, s1) /\
     ConfigWrapper.read self None s1 = (inr (ConfigWrapper.Whole (Some c)), s1) /\
     nth_error (heap s1) c = Some (plain (Schema.m_flatten draft))).
Proof.
  intros self p. split.
  - exists (on_disk self (world s)). eexists. split; [apply m_readFile_run|].
    simpl. repeat (split; [reflexivity|]).
    unfold self. rewrite on_disk_fields. fold p.
    destruct (readFileSync p (world s)) as [e|[|parsed]]; try reflexivity.
    split; [|split].
    + intros k Hk.
      exact (own_property_Object_assign (plain (Schema.m_flatten draft))
               (own_enumerable parsed) k Hk).
    + intros k Hk. pose proof (keys_m_flatten draft k) as Hflat. split.
      * intros H. apply In_keys_Object_assign in H.
        change (Object_keys (plain (Schema.m_flatten draft)))
          with (Object_keys (Schema.m_flatten draft)) in H. tauto.
      * intros [H|H].
        -- apply keys_Object_assign_kept.
           change (Object_keys (plain (Schema.m_flatten draft)))
             with (Object_keys (Schema.m_flatten draft)). tauto.
        -- apply keys_Object_assign_source; assumption.
    + intros Hno.
      destruct (Object_assign_no_proto_key (plain (Schema.m_flatten draft))
                  (own_enumerable parsed) Hno) as [Hp Ho].
      split; [exact Hp|]. apply own_property_None. rewrite Ho.
      apply own_property_None. apply m_flatten_no_proto_key.
  - intros Hu Hext Hex Hread.
    assert (Hcache : Options.r_useCache (ConfigWrapper.m_options self) = true).
    { unfold self. simpl. rewrite Hu. reflexivity. }
    rewrite new_run. fold self. change (ConfigWrapper.path self) with p.
    rewrite Hext. simpl negb. cbv iota.
    rewrite m_prepareResource_run. simpl world. change (ConfigWrapper.path self) with p.
    rewrite Hex, Hcache. simpl world.
    eexists _, _. split; [reflexivity|].
    assert (Hod : on_disk self (world s) = plain (Schema.m_flatten draft)).
    { unfold self. rewrite on_disk_fields. fold p. rewrite Hread. reflexivity. }
    split.
    + erewrite read_run.
      * unfold fetched. rewrite Hcache. reflexivity.
      * unfold current. rewrite Hcache. simpl. rewrite nth_error_last. reflexivity.
    + simpl. rewrite Hod. apply nth_error_last.
Qed.


End Extras.
(** ** The further properties, on the store of the tests *)

Lemma MemFs_reads_back (p : string) : reads_back (W := MemFs.t) p.
Proof. intros t w w'. apply MemFs_read_back. Qed.

Lemma MemFs_exists_once_written (p : string) : exists_once_written (W := MemFs.t) p.
Proof.
  intros t w w'. simpl. unfold MemFs.write, MemFs.exists_.
  destruct (MemFs.mem p (MemFs.dangling w)) eqn:Hd; [discriminate|].
  destruct (MemFs.is_dir w p); [discriminate|].
  destruct (negb (MemFs.is_dir w (dirname p))); [discriminate|].
  destruct (MemFs.mem p (MemFs.denied w)); [discriminate|].
  intros [= <-]. simpl. rewrite Hd. unfold MemFs.is_file. simpl.
  rewrite MemFs_file_get_set. reflexivity.
Qed.

(** The store of the tests, where the tests begin to read, is a store a
    client can have. *)
Lemma initialised_reachable : Client.reachable 8 Fixture.conf Fixture.initialised.
Proof.
  set (s1 := Fixture.after (Config.from Fixture.draft (Fixture.opts None None (Some true)))
               (Fixture.boot MemFs.empty)).
  set (s2 := Fixture.after (ConfigWrapper.reset 8 Fixture.conf) s1).
  change Fixture.initialised
    with (mkState (heap s2) (m_cache s2)
            (MemFs.rm_dir ".cache" Fixture.filePath (world s2)) (log s2)).
  apply Client.reach_world.
  eapply Client.reach_call with (c := Client.Reset) (s := s1) (r := inr tt).
  - eapply Client.reach_new with (draft := Fixture.draft)
      (opts := Fixture.opts None None (Some true)) (s0 := Fixture.boot MemFs.empty).
    reflexivity.
  - exact I.
  - exact I.
  - reflexivity.
Qed.

(** The store of the tests with a cache, just constructed on an empty disk. *)
Lemma cached_store_reachable :
  Client.reachable 8
    (ConfigWrapper.fields Fixture.draft (Fixture.opts (Some true) None None))
    (Fixture.after (Config.from Fixture.draft (Fixture.opts (Some true) None None))
       (Fixture.boot MemFs.empty)).
Proof.
  eapply Client.reach_new with (draft := Fixture.draft)
    (opts := Fixture.opts (Some true) None None) (s0 := Fixture.boot MemFs.empty).
  reflexivity.
Qed.

(** The configuration the store of the tests holds where the tests begin
    to read: the presets. *)
Lemma initialised_current : current Fixture.conf Fixture.initialised = Some Fixture.presets.
Proof. vm_compute. reflexivity. Qed.

(** X1, on [alter('fruit', 'banana')] of the tests. *)
Lemma alter_then_read_witness :
  let s1 := Fixture.after (ConfigWrapper.alter 8 Fixture.conf "fruit" (JStr "banana"))
              Fixture.initialised in
  fst (ConfigWrapper.read Fixture.conf (Some "fruit") s1)
    = inr (ConfigWrapper.Property (Data (JStr "banana"))) /\
  fst (ConfigWrapper.read Fixture.conf (Some "animal") s1)
    = inr (ConfigWrapper.Property (Data (JStr "unicorn"))).
Proof.
  intros s1.
  assert (Hk : "fruit" <> "__proto__") by discriminate.
  assert (Hrun : ConfigWrapper.alter 8 Fixture.conf "fruit" (JStr "banana") Fixture.initialised
                 = (inr tt, s1)) by (vm_compute; reflexivity).
  destruct (alter_then_read 8 Fixture.conf "fruit" (JStr "banana") Fixture.initialised s1
              Fixture.presets (MemFs_reads_back Fixture.filePath) initialised_current Hk Hrun)
    as (H1 & H2 & _).
  split; [exact H1|]. apply H2; [discriminate | discriminate | reflexivity].
Defined.

(** X2, on the two alterations of the tests. *)
Lemma alter_twice_witness :
  let s1 := Fixture.after (ConfigWrapper.alter 8 Fixture.conf "fruit" (JStr "banana"))
              Fixture.initialised in
  let s2 := Fixture.after (ConfigWrapper.alter 8 Fixture.conf "animal" (JStr "dog")) s1 in
  fst (ConfigWrapper.read Fixture.conf (Some "animal") s2)
    = inr (ConfigWrapper.Property (Data (JStr "dog"))) /\
  fst (ConfigWrapper.read Fixture.conf (Some "fruit") s2)
    = inr (ConfigWrapper.Property (Data (JStr "banana"))).
Proof.
  intros s1 s2.
  assert (Hk1 : "fruit" <> "__proto__") by discriminate.
  assert (Hk2 : "animal" <> "__proto__") by discriminate.
  assert (H1 : ConfigWrapper.alter 8 Fixture.conf "fruit" (JStr "banana") Fixture.initialised
               = (inr tt, s1)) by (vm_compute; reflexivity).
  assert (H2 : ConfigWrapper.alter 8 Fixture.conf "animal" (JStr "dog") s1 = (inr tt, s2))
    by (vm_compute; reflexivity).
  destruct (alter_twice 8 Fixture.conf "fruit" "animal" (JStr "banana") (JStr "dog")
              Fixture.initialised s1 s2 Fixture.presets
              (MemFs_reads_back Fixture.filePath) initialised_current Hk1 Hk2 H1 H2)
    as (Ha & Hb & _).
  split; [exact Ha | apply Hb; discriminate].
Defined.

(** X3, on an alteration of the store with a cache. *)
Lemma mutation_leaves_disk_equal_to_cache_witness :
  let self := ConfigWrapper.fields Fixture.draft (Fixture.opts (Some true) None None) in
  let s := Fixture.after (Config.from Fixture.draft (Fixture.opts (Some true) None None))
             (Fixture.boot MemFs.empty) in
  let s' := Fixture.after (ConfigWrapper.alter 8 self "fruit" (JStr "banana")) s in
  exists cache,
    lookup_ref (heap s') (m_cache s') = Some cache /\
    readFileSync Fixture.filePath (world s') = inr (JSON_stringify (JObj cache)).
Proof.
  intros self s s'.
  exact (mutation_leaves_disk_equal_to_cache 8 self (Client.Alter "fruit" (JStr "banana"))
           s s' cached_store_reachable eq_refl (MemFs_reads_back Fixture.filePath)
           eq_refl I eq_refl).
Defined.

(** X4, on the store of the tests, which has no cache. *)
Lemma store_without_cache_keeps_none_witness : m_cache Fixture.initialised = None.
Proof.
  exact (store_without_cache_keeps_none 8 Fixture.conf Fixture.initialised
           initialised_reachable eq_refl).
Defined.

(** X5, on [read('animal')] of the tests. *)
Lemma read_changes_nothing_witness :
  exists res s',
    ConfigWrapper.read Fixture.conf (Some "animal") Fixture.initialised = (inr res, s') /\
    world s' = world Fixture.initialised /\
    delta Fixture.initialised s' = [ReadFileSync Fixture.filePath (inl ENOENT)].
Proof.
  destruct (read_changes_nothing 8 Fixture.conf (Some "animal") Fixture.initialised
              initialised_reachable) as (res & s' & Hrun & _ & Hw & _ & Hd & _).
  exists res, s'. split; [exact Hrun|]. split; [exact Hw | exact Hd].
Defined.

(** X6, on the first alteration of the tests and on a read. *)
Lemma store_emits_only_change_events_witness :
  let s := Fixture.initialised in
  let s' := Fixture.after (ConfigWrapper.alter 8 Fixture.conf "fruit" (JStr "banana")) s in
  let s2 := Fixture.after (ConfigWrapper.read Fixture.conf (Some "fruit")) s in
  Forall (fun e => match e with
                   | Emit name _ => event_name_ok true name
                   | _ => True
                   end) (delta s s') /\
  filter is_emit (delta s s')
    = [Emit "change" (Batch [Alteration.new "fruit" (Data (JStr "banana"))]);
       Emit "change:fruit" (Single (Data (JStr "banana")))] /\
  Forall (fun e => is_emit e = false) (delta s s2).
Proof.
  intros s s' s2.
  assert (Hrun : Client.invoke 8 Fixture.conf (Client.Alter "fruit" (JStr "banana")) s
                 = (inr tt, s')) by (vm_compute; reflexivity).
  assert (Hread : Client.invoke 8 Fixture.conf (Client.Read (Some "fruit")) s
                  = (inr tt, s2)) by (vm_compute; reflexivity).
  split; [|split].
  - exact (proj1 (store_emits_only_change_events 8 Fixture.conf
                    (Client.Alter "fruit" (JStr "banana")) s s' (inr tt)
                    initialised_reachable I Hrun)).
  - vm_compute. reflexivity.
  - apply (proj2 (store_emits_only_change_events 8 Fixture.conf
                    (Client.Read (Some "fruit")) s s2 (inr tt)
                    initialised_reachable I Hread)).
    exists (Some "fruit"). reflexivity.
Defined.

(** X7, on a path with another extension. *)
Lemma constructor_outcome_witness :
  let opts := {| Options.path := "test.yaml"; Options.useCache := Some true;
                 Options.allowCreate := None; Options.exposedEvents := None |} in
  let run := Config.from Fixture.draft opts (Fixture.boot MemFs.empty) in
  fst run = inl ExpectedJsonExtension /\
  delta (Fixture.boot MemFs.empty) (snd run) = [] /\
  world (snd run) = MemFs.empty.
Proof.
  intros opts run.
  destruct (constructor_outcome Fixture.draft opts (Fixture.boot MemFs.empty))
    as (Hout & _ & Hext & _).
  split; [exact Hout|]. exact (Hext eq_refl).
Defined.

(** X8, on the draft of the tests. *)
Lemma schema_of_draft_witness :
  Schema.flattened (Schema.new Fixture.draft) = Fixture.presets /\
  Schema.get (Schema.new Fixture.draft) "fruit" = Data (JStr "apple") /\
  Schema.has (Schema.new Fixture.draft) "toString" = false /\
  Schema.get (Schema.new Fixture.draft) "toString" = Builtin "Object.prototype.toString" /\
  Schema.get (Schema.new Fixture.draft) "colour" = Undefined.
Proof.
  destruct (schema_of_draft Fixture.draft) as (_ & _ & Hget & Hrest).
  assert (Hnd : NoDup (map fst Fixture.draft)).
  { repeat (constructor; [simpl; intuition discriminate|]). constructor. }
  assert (Hen : enumerated (map fst Fixture.draft)).
  { repeat (constructor; [|repeat (constructor; [reflexivity|]); constructor]).
    constructor. }
  assert (Hno : ~ In "__proto__" (map fst Fixture.draft)) by (simpl; intuition discriminate).
  destruct (Hrest Hno) as [Hinherit Hflat].
  split; [exact (Hflat Hnd Hen)|].
  split.
  { apply (Hget Hnd "fruit" (Draft.Preset (JStr "apple") None));
      [simpl; tauto | discriminate]. }
  split; [reflexivity|].
  split.
  - apply (proj2 (Hinherit "toString" eq_refl)); [reflexivity | discriminate].
  - apply (proj1 (Hinherit "colour" eq_refl)). reflexivity.
Defined.

(** X9, on a preset with a label for metadata. *)
Lemma Preset_round_trip_witness :
  let meta := plain [("label", JStr "Animal")] in
  let value := PresetObject._Preset_impl (JStr "unicorn") (Some meta) in
  PresetObject.meta value = meta /\
  PresetObject.to_Value value
    = Some {| Draft.preset := JStr "unicorn"; Draft.meta := meta |}.
Proof.
  intros meta value.
  apply (proj2 (proj2 (proj2 (proj2 (Preset_round_trip (JStr "unicorn") (Some meta)))))).
  simpl. intuition discriminate.
Defined.

(** X11, on the earlier class over a directory that is not there: the
    write fails for a missing path and is not tried again. *)
Lemma earlier_alter_writes_cache_once_witness :
  let self := ConfigWrapper.fields Fixture.draft (Fixture.opts None None None) in
  let s := Fixture.after (Earlier.new Fixture.draft (Fixture.opts None None None))
             (Fixture.boot MemFs.empty) in
  let s' := Fixture.after (Earlier.alter self "fruit" (JStr "banana")) s in
  Fixture.outcome (Earlier.alter self "fruit" (JStr "banana")) s = inl (SystemError ENOENT) /\
  nth_error (heap s') 0 = Some (obj_set Fixture.presets "fruit" (JStr "banana")) /\
  delta s s' =
    [WriteFileSync Fixture.filePath
       (JSON_stringify (JObj (obj_set Fixture.presets "fruit" (JStr "banana"))))
       (Some ENOENT)].
Proof.
  intros self s s'.
  assert (Hrun : Earlier.alter self "fruit" (JStr "banana") s
                 = (inl (SystemError ENOENT), s')) by (vm_compute; reflexivity).
  destruct (earlier_alter_writes_cache_once self "fruit" (JStr "banana") s s' 0
              Fixture.presets (inl (SystemError ENOENT)) eq_refl eq_refl Hrun)
    as (_ & Hn & Hout & _ & Hd).
  split; [vm_compute; reflexivity|]. split; [exact Hn | exact Hd].
Defined.

(** X12, on the store with a cache. *)
Lemma versions_agree_on_cached_store_witness :
  let self := ConfigWrapper.fields Fixture.draft (Fixture.opts (Some true) None None) in
  let s := Fixture.after (Config.from Fixture.draft (Fixture.opts (Some true) None None))
             (Fixture.boot MemFs.empty) in
  ConfigWrapper.alter 8 self "fruit" (JStr "banana") s
  = Earlier.alter self "fruit" (JStr "banana") s.
Proof.
  intros self s.
  refine (proj1 (proj2 (versions_agree_on_cached_store 8 self "fruit" (JStr "banana") s 0
                          Fixture.presets eq_refl eq_refl _ eq_refl eq_refl _))).
  - repeat constructor.
  - intros H. vm_compute in H. discriminate H.
Defined.

(** X13, on an object that has only the key [fruit], given to the store of
    the tests. *)
Lemma overwrite_then_read_any_object_witness :
  let X : obj := plain [("fruit", JStr "pear")] in
  let s0 := Fixture.initialised in
  let s := mkState (heap s0 ++ [X]) (m_cache s0) (world s0) (log s0) in
  let next := Some (List.length (heap s0)) in
  let s1 := Fixture.after (ConfigWrapper.overwrite 8 Fixture.conf next) s in
  exists conf Y s2,
    ConfigWrapper.read Fixture.conf None s1 = (inr (ConfigWrapper.Whole conf), s2) /\
    lookup_ref (heap s2) conf = Some Y /\
    own_property Y "fruit" = Some (JStr "pear") /\
    own_property Y "animal" = Some (JStr "unicorn").
Proof.
  intros X s0 s next s1.
  assert (Hrun : ConfigWrapper.overwrite 8 Fixture.conf next s = (inr tt, s1))
    by (vm_compute; reflexivity).
  destruct (overwrite_then_read_any_object 8 Fixture.conf next X s s1
              (MemFs_reads_back Fixture.filePath) eq_refl)
    as (conf & Y & s2 & Hread & HY & _ & _ & Hun).
  - repeat (constructor; [simpl; intuition discriminate|]). constructor.
  - exact Hrun.
  - exists conf, Y, s2. split; [exact Hread|]. split; [exact HY|].
    destruct (Hun eq_refl) as (_ & _ & Hget).
    split; [rewrite (Hget "fruit") | rewrite (Hget "animal")];
      first [reflexivity | discriminate].
Defined.

(** X14, on the store with a cache and an object of the client. *)
Lemma alter_after_overwrite_and_the_object_given_witness :
  let self := ConfigWrapper.fields Fixture.draft (Fixture.opts (Some true) None None) in
  let X : obj := plain [("fruit", JStr "pear")] in
  let s := mkState [X] None (Fixture.disk_with Invalid) [] in
  let s1 := Fixture.after (ConfigWrapper.overwrite 8 self (Some 0)) s in
  let s2 := Fixture.after (ConfigWrapper.alter 8 self "animal" (JStr "dog")) s1 in
  lookup_ref (heap s2) (Some 0)
    = Some (plain [("fruit", JStr "pear"); ("animal", JStr "dog")]).
Proof.
  intros self X s s1 s2.
  assert (H1 : ConfigWrapper.overwrite 8 self (Some 0) s = (inr tt, s1))
    by (vm_compute; reflexivity).
  assert (H2 : ConfigWrapper.alter 8 self "animal" (JStr "dog") s1 = (inr tt, s2))
    by (vm_compute; reflexivity).
  exact (alter_after_overwrite_and_the_object_given 8 self (Some 0) X "animal" (JStr "dog")
           s s1 s2 (inr tt) eq_refl H1 H2).
Defined.

(** X15, on the store of the tests, started again with a cache. *)
Lemma restart_reads_what_was_written_witness :
  let opts' := Fixture.opts (Some true) None None in
  let s1 := Fixture.after (ConfigWrapper.alter 8 Fixture.conf "fruit" (JStr "banana"))
              Fixture.initialised in
  exists s2,
    Config.from Fixture.draft opts' s1 = (inr (ConfigWrapper.fields Fixture.draft opts'), s2) /\
    fst (ConfigWrapper.read (ConfigWrapper.fields Fixture.draft opts') (Some "fruit") s2)
      = inr (ConfigWrapper.Property (Data (JStr "banana"))) /\
    fst (ConfigWrapper.read (ConfigWrapper.fields Fixture.draft opts') (Some "animal") s2)
      = inr (ConfigWrapper.Property (Data (JStr "unicorn"))).
Proof.
  intros opts' s1.
  assert (Hk : "fruit" <> "__proto__") by discriminate.
  assert (Hrun : ConfigWrapper.alter 8 Fixture.conf "fruit" (JStr "banana") Fixture.initialised
                 = (inr tt, s1)) by (vm_compute; reflexivity).
  assert (Hnd : NoDup (Object_keys Fixture.presets)).
  { repeat (constructor; [simpl; intuition discriminate|]). constructor. }
  destruct (restart_reads_what_was_written 8 Fixture.draft (Fixture.opts None None (Some true))
              opts' "fruit" (JStr "banana") Fixture.initialised s1 Fixture.presets
              eq_refl initialised_reachable
              (MemFs_reads_back Fixture.filePath) (MemFs_exists_once_written Fixture.filePath)
              initialised_current Hnd Hk Hrun)
    as (s2 & Hnew & Hkv & Hothers).
  exists s2. split; [exact Hnew|]. split; [exact Hkv|].
  apply Hothers; [discriminate | discriminate | reflexivity].
Defined.

(** X16, on the first alteration of the tests, made after the directory
    was removed. *)
Lemma alter_heals_a_missing_directory_witness :
  exists s',
    ConfigWrapper.alter 8 Fixture.conf "fruit" (JStr "banana") Fixture.initialised
      = (inr tt, s') /\
    MemFs.read Fixture.filePath (world s')
      = inr (JSON_stringify (JObj (obj_set Fixture.presets "fruit" (JStr "banana")))).
Proof.
  set (t := JSON_stringify (JObj (obj_set Fixture.presets "fruit" (JStr "banana")))).
  set (w1 := {| MemFs.files := []; MemFs.dirs := [".cache"];
                MemFs.denied := []; MemFs.dangling := [] |}).
  set (w2 := {| MemFs.files := [(Fixture.filePath, t)]; MemFs.dirs := [".cache"];
                MemFs.denied := []; MemFs.dangling := [] |}).
  assert (Hcur : current Fixture.conf Fixture.initialised = Some Fixture.presets)
    by (vm_compute; reflexivity).
  assert (Hfail : writeFileSync Fixture.filePath t (world Fixture.initialised) = inl ENOENT)
    by (vm_compute; reflexivity).
  assert (Hex : existsSync Fixture.filePath (world Fixture.initialised) = false)
    by (vm_compute; reflexivity).
  assert (Hmk : mkdirSync (dirname Fixture.filePath) (world Fixture.initialised) = inr w1)
    by (vm_compute; reflexivity).
  assert (Hok : writeFileSync Fixture.filePath t w1 = inr w2)
    by (vm_compute; reflexivity).
  destruct (alter_heals_a_missing_directory 8 Fixture.conf "fruit" (JStr "banana")
              Fixture.initialised Fixture.presets w1 w2
              (le_n_S 1 7 (le_n_S 0 6 (Nat.le_0_l 6)))
              eq_refl Hcur Hfail Hex Hmk Hok)
    as (s' & Hrun & Hw & _).
  exists s'. split; [exact Hrun|]. rewrite Hw. vm_compute. reflexivity.
Defined.

(** X17, on a key the tests never declare and on a member of
    [Object.prototype]. *)
Lemma read_is_undefined_only_for_absent_keys_witness :
  fst (ConfigWrapper.read Fixture.conf (Some "colour") Fixture.initialised)
    = inr (ConfigWrapper.Property Undefined) /\
  fst (ConfigWrapper.read Fixture.conf (Some "constructor") Fixture.initialised)
    <> inr (ConfigWrapper.Property Undefined).
Proof.
  split.
  - destruct (read_is_undefined_only_for_absent_keys Fixture.draft
                (Fixture.opts None None (Some true)) "colour" Fixture.initialised eq_refl)
      as (_ & H).
    apply (proj1 (H (fun F => F))).
    split; [simpl; intuition discriminate|]. split; [exact (fun F => F) | reflexivity].
  - destruct (read_is_undefined_only_for_absent_keys Fixture.draft
                (Fixture.opts None None (Some true)) "constructor" Fixture.initialised eq_refl)
      as (_ & H).
    intros E. apply (proj1 (H (fun F => F))) in E. destruct E as (_ & _ & E).
    discriminate E.
Defined.

(** X18, on the file of the tests holding text that is not JSON. *)
Lemma m_readFile_merges_file_over_defaults_witness :
  exists s1 c,
    Config.from Fixture.draft (Fixture.opts (Some true) None None)
      (Fixture.boot (Fixture.disk_with Invalid))
    = (inr (ConfigWrapper.fields Fixture.draft (Fixture.opts (Some true) None None)), s1) /\
    ConfigWrapper.read (ConfigWrapper.fields Fixture.draft (Fixture.opts (Some true) None None))
      None s1 = (inr (ConfigWrapper.Whole (Some c)), s1) /\
    nth_error (heap s1) c = Some Fixture.presets.
Proof.
  exact (proj2 (m_readFile_merges_file_over_defaults Fixture.draft
                  (Fixture.opts (Some true) None None)
                  (Fixture.boot (Fixture.disk_with Invalid)))
               eq_refl eq_refl eq_refl eq_refl).
Defined.

